(** * mongoose-history-plugin: history records, version allocation and replay

    A shallow embedding of [historyPlugin] (the plugin factory, its
    [preSave] hook and the document methods [getDiffs], [getDiff],
    [getVersion], [compareVersions] and [getVersions]) together with the
    properties of its specification.

    JavaScript objects are finite maps from property names to values;
    promises are results (a value or a thrown error); the history collection
    is the list of its records in insertion order. *)

From stdpp Require Import gmap strings list fin_maps pretty.
From Stdlib Require Import ZArith NArith Lia Sorted.

Local Open Scope string_scope.
Local Open Scope list_scope.
Local Set Warnings "-register-all".

(** ** JSON values and plain objects *)

(** The values of a plain (JSON) document field: scalars and arrays.  The
    deltas of jsondiffpatch are arrays of this kind ([[new]], [[old, new]],
    [[old, 0, 0]]). *)
Inductive json : Type :=
| JNull
| JBool (b : bool)
| JNum (n : Z)
| JStr (s : string)
| JArr (l : list json).

Fixpoint json_eq_dec (a b : json) {struct a} : Decision (a = b).
Proof.
  refine
    (match a, b with
     | JNull, JNull => left eq_refl
     | JBool x, JBool y => cast_if (decide (x = y))
     | JNum x, JNum y => cast_if (decide (x = y))
     | JStr x, JStr y => cast_if (decide (x = y))
     | JArr l, JArr l' =>
         cast_if
           ((fix go (l l' : list json) {struct l} : Decision (l = l') :=
               match l, l' with
               | [], [] => left eq_refl
               | x :: xs, y :: ys => cast_if_and (json_eq_dec x y) (go xs ys)
               | _, _ => right _
               end) l l')
     | _, _ => right _
     end); congruence.
Defined.

#[global] Instance json_eq : EqDecision json := json_eq_dec.

(** A plain object, [Record<string, unknown>] after
    [JSON.parse(JSON.stringify(...))]. *)
Abbreviation obj := (gmap string json).

(** ** The structural diff engine

    [jdf = jsondiffpatch.create(...)] is an external library.  The plugin
    uses [jdf.diff] (which answers [undefined] when the two sides are equal),
    [jdf.patch] and [jdf.clone]; the engine is an interface with the
    contract the plugin relies on.  [jdf.patch] works in place on its left
    argument; every caller below owns that argument, and [getVersions]
    clones it before storing it, so a function on values models it.

    [jdf.patch] is partial: it answers [None] where the library throws
    ['patch failed'], which it does on the delta [{}].  A delta that
    [jdf.diff] produced patches its left side into its right side.  On an
    object that is no delta at all (the snapshot a forced commit stores as
    [diff]) the library does not come back; the contract says nothing about
    such a patch and no property below is derived from one. *)
Class DiffEngine : Type := {
  jdf_diff : obj → obj → option obj;
  jdf_patch : obj → obj → option obj;
  jdf_diff_None : ∀ a b, jdf_diff a b = None ↔ a = b;
  jdf_patch_diff : ∀ a b d, jdf_diff a b = Some d → jdf_patch a d = Some b;
  jdf_patch_empty : ∀ a, jdf_patch a ∅ = None
}.

(** [jdf.patch(left, delta)] where [delta] may be [undefined]: the engine
    answers [left] unchanged. *)
Definition jdf_patch_opt {engine : DiffEngine} (left : obj) (delta : option obj)
    : option obj :=
  match delta with
  | Some d => jdf_patch left d
  | None => Some left
  end.

(** *** The engine on documents with atomic fields

    jsondiffpatch on two objects whose fields it compares as atoms (numbers,
    booleans, null, short strings): an added field is [[new]], a changed one
    [[old, new]], a removed one [[old, 0, 0]]; equal fields are left out and
    the delta of equal objects is [undefined]. *)
Definition flat_diff_field (o n : option json) : option json :=
  match o, n with
  | None, None => None
  | None, Some y => Some (JArr [y])
  | Some x, None => Some (JArr [x; JNum 0; JNum 0])
  | Some x, Some y => if decide (x = y) then None else Some (JArr [x; y])
  end.

Definition flat_diff (a b : obj) : option obj :=
  let d := merge flat_diff_field a b in
  if decide (d = ∅) then None else Some d.

(** The three shapes of a field delta. *)
Definition is_delta (d : json) : bool :=
  match d with
  | JArr [_] | JArr [_; _] => true
  | JArr [_; _; z] => bool_decide (z = JNum 0)
  | _ => false
  end.

(** An array of length one or two carries the new value; one of length
    three whose last element is [0] removes the field. *)
Definition flat_patch_field (l d : option json) : option json :=
  match d with
  | None => l
  | Some (JArr [y]) => Some y
  | Some (JArr [_; y]) => Some y
  | Some (JArr [_; _; z]) => if decide (z = JNum 0) then None else l
  | Some _ => l
  end.

(** The patch fails on the empty delta, as the library does, and on a
    delta with a field of another shape. *)
Definition flat_patch (a d : obj) : option obj :=
  if decide (d = ∅) then None
  else if bool_decide (map_Forall (λ _ v, is_delta v = true) d)
       then Some (merge flat_patch_field a d)
       else None.

Lemma flat_patch_diff_field (o n : option json) :
  flat_patch_field o (flat_diff_field o n) = n.
Proof.
  destruct o as [x|], n as [y|]; simpl; try reflexivity.
  destruct (decide (x = y)); simpl; congruence.
Qed.

Lemma flat_diff_field_None (o n : option json) :
  flat_diff_field o n = None ↔ o = n.
Proof.
  destruct o as [x|], n as [y|]; simpl; split; try congruence.
  - destruct (decide (x = y)) as [->|]; [reflexivity|discriminate].
  - intros [= ->]. destruct (decide (y = y)); congruence.
Qed.

Lemma flat_diff_field_delta (o n : option json) (d : json) :
  flat_diff_field o n = Some d → is_delta d = true.
Proof.
  destruct o as [x|], n as [y|]; simpl; try discriminate.
  - destruct (decide (x = y)); [discriminate|]. intros [= <-]. reflexivity.
  - intros [= <-]. reflexivity.
  - intros [= <-]. reflexivity.
Qed.

Lemma flat_diff_None (a b : obj) : flat_diff a b = None ↔ a = b.
Proof.
  unfold flat_diff. destruct (decide (merge flat_diff_field a b = ∅)) as [E|E].
  - split; [intros _|reflexivity].
    apply map_eq. intros k. apply flat_diff_field_None.
    pose proof (f_equal (λ m : obj, m !! k) E) as Ek. simpl in Ek.
    rewrite lookup_merge, lookup_empty in Ek.
    destruct (a !! k), (b !! k); exact Ek.
  - split; [congruence|]. intros ->. exfalso. apply E.
    apply map_eq. intros k. rewrite lookup_merge, lookup_empty.
    destruct (b !! k) as [y|] eqn:Ey; simpl; [|reflexivity].
    destruct (decide (y = y)); congruence.
Qed.

Lemma flat_patch_diff (a b d : obj) : flat_diff a b = Some d → flat_patch a d = Some b.
Proof.
  unfold flat_diff. destruct (decide (merge flat_diff_field a b = ∅)) as [|N];
    [congruence|].
  intros [= <-]. unfold flat_patch. rewrite decide_False by exact N.
  rewrite bool_decide_eq_true_2.
  - f_equal. apply map_eq. intros k. rewrite !lookup_merge.
    pose proof (flat_patch_diff_field (a !! k) (b !! k)) as P.
    destruct (a !! k), (b !! k); exact P.
  - intros k v E. rewrite lookup_merge in E.
    apply (flat_diff_field_delta (a !! k) (b !! k)).
    destruct (a !! k), (b !! k); exact E.
Qed.

Lemma flat_patch_empty (a : obj) : flat_patch a ∅ = None.
Proof. unfold flat_patch. rewrite decide_True by reflexivity. reflexivity. Qed.

Definition flat_engine : DiffEngine :=
  {| jdf_diff := flat_diff;
     jdf_patch := flat_patch;
     jdf_diff_None := flat_diff_None;
     jdf_patch_diff := flat_patch_diff;
     jdf_patch_empty := flat_patch_empty |}.

(** ** Semantic versions

    [semver] is an external library.  A version is [MAJOR.MINOR.PATCH],
    with or without a pre-release tag; a tag is modelled by one numeric
    identifier ([1.0.0-3]), which is what it takes to name a version below
    a release.  A history record's version is written by the plugin only,
    as ['0.0.0'] or as the result of [semver.inc] with a release type
    [major], [minor] or [patch], so it has no tag; on version strings [===]
    is equality of the components.

    A value of this type stands for a version string the library accepts,
    with components up to [Number.MAX_SAFE_INTEGER]: the callers pass such
    strings, and the plugin stores the result of an increment that leaves
    that range as the string it is, which is no version any more. *)
Record semver : Type :=
  MkSemVer { sv_major : N; sv_minor : N; sv_patch : N; sv_pre : option N }.

(** The version [MAJOR.MINOR.PATCH] without a tag. *)
Definition SemVer (major minor patch : N) : semver :=
  MkSemVer major minor patch None.

#[global] Instance semver_eq : EqDecision semver.
Proof. solve_decision. Defined.

Inductive release_type : Type := Major | Minor | Patch.

#[global] Instance release_type_eq : EqDecision release_type.
Proof. solve_decision. Defined.

(** [Number.MAX_SAFE_INTEGER] *)
Definition max_safe_integer : N := 9007199254740991.

(** The library parses a version only when its numbers are safe integers. *)
Definition semver_valid (v : semver) : bool :=
  (sv_major v <=? max_safe_integer)%N && (sv_minor v <=? max_safe_integer)%N
  && (sv_patch v <=? max_safe_integer)%N
  && from_option (λ k, (k <=? max_safe_integer)%N) true (sv_pre v).

(** [semver.inc(version, release)] on a valid version: the increment
    drops the tag, and a tagged version that is already at the boundary
    of the release is only untagged. *)
Definition semver_inc (v : semver) (release : release_type) : semver :=
  let tagged := bool_decide (is_Some (sv_pre v)) in
  match release with
  | Major =>
      if (sv_minor v =? 0)%N && (sv_patch v =? 0)%N && tagged
      then SemVer (sv_major v) 0 0
      else SemVer (sv_major v + 1) 0 0
  | Minor =>
      if (sv_patch v =? 0)%N && tagged
      then SemVer (sv_major v) (sv_minor v) 0
      else SemVer (sv_major v) (sv_minor v + 1) 0
  | Patch =>
      if tagged
      then SemVer (sv_major v) (sv_minor v) (sv_patch v)
      else SemVer (sv_major v) (sv_minor v) (sv_patch v + 1)
  end.

(** A tagged version precedes the untagged one; two tags compare as
    numbers. *)
Definition pre_compare (a b : option N) : comparison :=
  match a, b with
  | None, None => Eq
  | Some _, None => Lt
  | None, Some _ => Gt
  | Some x, Some y => (x ?= y)%N
  end.

(** The tag [a] precedes the tag [b]. *)
Definition pre_lt (a b : option N) : Prop :=
  match a, b with
  | Some x, Some y => (x < y)%N
  | Some _, None => True
  | None, _ => False
  end.

(** Precedence: major, then minor, then patch, compared as numbers, then
    the tag. *)
Definition semver_compare (a b : semver) : comparison :=
  match (sv_major a ?= sv_major b)%N with
  | Eq =>
      match (sv_minor a ?= sv_minor b)%N with
      | Eq =>
          match (sv_patch a ?= sv_patch b)%N with
          | Eq => pre_compare (sv_pre a) (sv_pre b)
          | c => c
          end
      | c => c
      end
  | c => c
  end.

Definition semver_gt (a b : semver) : bool :=
  match semver_compare a b with Gt => true | _ => false end.

Definition semver_lt (a b : semver) : bool :=
  match semver_compare a b with Lt => true | _ => false end.

(** ** JavaScript values, errors and promises *)

Inductive jsval : Type :=
| VUndefined
| VNull
| VBool (b : bool)
| VNum (n : Z)
| VStr (s : string)
| VOid (i : N)              (* an ObjectId *)
| VDate (t : nat)           (* a Date, as a tick of the clock *)
| VVersion (v : semver)     (* a valid version string *)
| VObj (o : obj).           (* a plain object *)

#[global] Instance jsval_eq : EqDecision jsval.
Proof. solve_decision. Defined.

(** A lean history record, a [VersionResult], a query filter: objects with
    dynamically named properties. *)
Abbreviation lean := (gmap string jsval).

(** [!!v] *)
Definition truthy (v : jsval) : bool :=
  match v with
  | VUndefined | VNull => false
  | VBool b => b
  | VNum n => negb (n =? 0)%Z
  | VStr s => negb (String.eqb s "")
  | VOid _ | VDate _ | VVersion _ | VObj _ => true
  end.

(** [a || b] *)
Definition js_or (a b : jsval) : jsval := if truthy a then a else b.

(** [o[k]]: an absent property reads as [undefined]. *)
Definition js_get (o : lean) (k : string) : jsval := default VUndefined (o !! k).

(** The string [`${major}.${minor}.${patch}`] of a version. *)
Definition version_string (v : semver) : string :=
  pretty (sv_major v) +:+ "." +:+ pretty (sv_minor v) +:+ "." +:+ pretty (sv_patch v)
  +:+ from_option (λ k, "-" +:+ pretty k) "" (sv_pre v).

(** A version string as a value: a version when the library accepts it,
    a mere string otherwise. *)
Definition version_value (v : semver) : jsval :=
  if semver_valid v then VVersion v else VStr (version_string v).

Inductive error : Type :=
| TypeError    (* raised by the language or by semver/jsondiffpatch *)
| StoreError.  (* a rejected store operation *)

#[global] Instance error_eq : EqDecision error.
Proof. solve_decision. Defined.

(** A settled promise: fulfilled with a value or rejected with an error. *)
Inductive result (A : Type) : Type :=
| Ok (a : A)
| Throw (e : error).
Arguments Ok {A} a.
Arguments Throw {A} e.

#[global] Instance result_eq {A : Type} `{EqDecision A} : EqDecision (result A).
Proof. solve_decision. Defined.

#[global] Instance result_ret : MRet result := λ A a, Ok a.
#[global] Instance result_bind : MBind result :=
  λ A B f m, match m with Ok a => f a | Throw e => Throw e end.
#[global] Instance result_fmap : FMap result :=
  λ A B f m, match m with Ok a => Ok (f a) | Throw e => Throw e end.

(** [promise.catch(() => fallback)] *)
Definition catch {A : Type} (m : result A) (fallback : A) : A :=
  match m with Ok a => a | Throw _ => fallback end.

(** ** Plugin options *)

Record PluginOptions : Type := {
  modelName : string;
  embeddedDocument : bool;
  embeddedModelName : string;
  userCollection : string;
  accountCollection : string;
  userFieldName : string;
  accountFieldName : string;
  timestampFieldName : string;
  methodFieldName : string;
  ignore : list string;
  noDiffSave : bool;
  noDiffSaveOnMethods : list string;
  noEventSave : bool
}.

(** [Partial<Omit<PluginOptions, 'mongoose'>>] *)
Record PartialPluginOptions : Type := {
  p_modelName : option string;
  p_embeddedDocument : option bool;
  p_embeddedModelName : option string;
  p_userCollection : option string;
  p_accountCollection : option string;
  p_userFieldName : option string;
  p_accountFieldName : option string;
  p_timestampFieldName : option string;
  p_methodFieldName : option string;
  p_ignore : option (list string);
  p_noDiffSave : option bool;
  p_noDiffSaveOnMethods : option (list string);
  p_noEventSave : option bool
}.

(** The [pluginOptions] of [historyPlugin(options)]: [options.x ?? default]. *)
Definition historyPlugin_options (options : PartialPluginOptions) : PluginOptions :=
  {| modelName := default "__histories" (p_modelName options);
     embeddedDocument := default false (p_embeddedDocument options);
     embeddedModelName := default "" (p_embeddedModelName options);
     userCollection := default "users" (p_userCollection options);
     accountCollection := default "accounts" (p_accountCollection options);
     userFieldName := default "user" (p_userFieldName options);
     accountFieldName := default "account" (p_accountFieldName options);
     timestampFieldName := default "timestamp" (p_timestampFieldName options);
     methodFieldName := default "method" (p_methodFieldName options);
     ignore := default [] (p_ignore options);
     noDiffSave := default false (p_noDiffSave options);
     noDiffSaveOnMethods := default [] (p_noDiffSaveOnMethods options);
     noEventSave := default true (p_noEventSave options) |}.

(** [historyPlugin({mongoose})] *)
Definition no_options : PartialPluginOptions :=
  {| p_modelName := None; p_embeddedDocument := None; p_embeddedModelName := None;
     p_userCollection := None; p_accountCollection := None;
     p_userFieldName := None; p_accountFieldName := None;
     p_timestampFieldName := None; p_methodFieldName := None;
     p_ignore := None; p_noDiffSave := None; p_noDiffSaveOnMethods := None;
     p_noEventSave := None |}.

(** ** Pending metadata, documents, the store *)

(** [interface HistoryMetadata]: the declared members and the index
    signature [[key: string]: unknown]. *)
Record HistoryMetadata : Type := {
  hm_event : option string;
  hm_type : option release_type;
  hm_reason : option string;
  hm_data : option obj;
  hm_other : lean
}.

#[global] Instance HistoryMetadata_eq : EqDecision HistoryMetadata.
Proof. solve_decision. Defined.

Definition release_name (t : release_type) : string :=
  match t with Major => "major" | Minor => "minor" | Patch => "patch" end.

(** [this.__history[name]] *)
Definition hm_get (h : HistoryMetadata) (name : string) : jsval :=
  if decide (name = "event") then from_option VStr VUndefined (hm_event h)
  else if decide (name = "type") then
    from_option (λ t, VStr (release_name t)) VUndefined (hm_type h)
  else if decide (name = "reason") then from_option VStr VUndefined (hm_reason h)
  else if decide (name = "data") then from_option VObj VUndefined (hm_data h)
  else js_get (hm_other h) name.

(** A tracked document [this] at the time a hook runs. *)
Record Document : Type := {
  doc_model : string;              (* this.constructor.modelName *)
  doc_id : N;                      (* this._id *)
  doc_json : obj;                  (* JSON.parse(JSON.stringify(this)) *)
  doc_props : lean;                (* own properties, read as this[name] *)
  doc_history : option HistoryMetadata   (* this.__history *)
}.

#[global] Instance Document_eq : EqDecision Document.
Proof. solve_decision. Defined.

(** The history collection in the order of insertion; the tracked
    collections by model name and [_id]; the clock, the time [new Date()]
    reads, in milliseconds.  An operation takes place at the time of the
    world it runs in; time passes by [tick]. *)
Record World : Type := {
  histories : list lean;
  entities : gmap (string * N) obj;
  clock : nat
}.

#[global] Instance World_eq : EqDecision World.
Proof. solve_decision. Defined.

Definition empty_world : World :=
  {| histories := []; entities := ∅; clock := 0 |}.

(** A millisecond passes. *)
Definition tick (w : World) : World :=
  {| histories := histories w; entities := entities w; clock := S (clock w) |}.

(** Which store operations are rejected. *)
Record Faults : Type := {
  fail_findById : bool;   (* Constructor.findById *)
  fail_find : bool;       (* the queries of queryHistory *)
  fail_findOne : bool;    (* HistoryModel.findOne of preSave *)
  fail_save : bool        (* history.save() *)
}.

Definition no_faults : Faults :=
  {| fail_findById := false; fail_find := false; fail_findOne := false;
     fail_save := false |}.

Inductive sort_order : Type := Ascending | Descending.

Inductive query_method : Type := Find | FindOne.

(** [interface QueryOptions].  [sort] is a sort on the timestamp field,
    [timestampFieldName] or ['-' + timestampFieldName], the two the plugin
    itself passes; [populate] only replaces the user and account references
    of the answer and is left out. *)
Record QueryOptions : Type := {
  q_find : option lean;
  q_select : option (gmap string Z);
  q_sort : option sort_order;
  q_limit : option nat
}.

Definition no_query_options : QueryOptions :=
  {| q_find := None; q_select := None; q_sort := None; q_limit := None |}.

(** [interface CompareResult] *)
Record CompareResult : Type := {
  cr_diff : option obj;
  cr_left : obj;
  cr_right : obj
}.

(** ** The store's queries

    The record store (MongoDB behind mongoose) is an external collaborator;
    these are its rules for the queries the plugin builds. *)

(** A filter [{k: v, ...}] selects the records whose field [k] is [v]. *)
Definition matches (filter doc : lean) : bool :=
  bool_decide (map_Forall (λ k v, doc !! k = Some v) filter).

(** [select[k]] is given and different from [0] (an inclusion) / is [0]
    (an exclusion). *)
Definition includes (select : gmap string Z) (k : string) : bool :=
  match select !! k with Some v => negb (v =? 0)%Z | None => false end.

Definition excludes (select : gmap string Z) (k : string) : bool :=
  match select !! k with Some v => (v =? 0)%Z | None => false end.

Definition includes_other (select : gmap string Z) : bool :=
  bool_decide (map_Exists (λ k v, k ≠ "_id" ∧ v ≠ 0%Z) select).

Definition excludes_other (select : gmap string Z) : bool :=
  bool_decide (map_Exists (λ k v, k ≠ "_id" ∧ v = 0%Z) select).

(** A projection may not mix inclusions and exclusions, [_id] apart. *)
Definition projection_valid (select : gmap string Z) : bool :=
  negb (includes_other select && excludes_other select).

Definition inclusion_mode (select : gmap string Z) : bool :=
  includes_other select || (negb (excludes_other select) && includes select "_id").

(** Whether a projection keeps the field [k]: an inclusion projection keeps
    the included fields, and [_id] unless it is excluded; an exclusion
    projection keeps all but the excluded fields. *)
Definition keeps (select : gmap string Z) (k : string) : bool :=
  if inclusion_mode select
  then includes select k || (String.eqb k "_id" && negb (excludes select "_id"))
  else negb (excludes select k).

(** The projection of a record. *)
Definition mongo_project (select : gmap string Z) (doc : lean) : lean :=
  filter (λ kv, keeps select kv.1 = true) doc.

(** The key of a record in a sort on the date [field]: a record without
    a date there sorts below every date. *)
Definition sort_key (field : string) (doc : lean) : nat :=
  match doc !! field with
  | Some (VDate t) => S t
  | _ => 0
  end.

(** The sort on [field], descending.  The order among records with equal
    dates is the store's: it is taken here as the order of the index
    [{collectionName: 1, collectionId: 1, [timestampFieldName]: -1}] the
    plugin declares, in which equal dates keep the order of insertion. *)
Fixpoint insert_descending (field : string) (doc : lean) (sorted : list lean)
    : list lean :=
  match sorted with
  | [] => [doc]
  | d :: rest =>
      if (sort_key field doc <? sort_key field d)%nat
      then d :: insert_descending field doc rest
      else doc :: sorted
  end.

Fixpoint sort_descending (field : string) (docs : list lean) : list lean :=
  match docs with
  | [] => []
  | doc :: rest => insert_descending field doc (sort_descending field rest)
  end.

(** The ascending sort walks the same index backwards. *)
Definition store_sort (field : string) (order : sort_order) (docs : list lean)
    : list lean :=
  match order with
  | Descending => sort_descending field docs
  | Ascending => reverse (sort_descending field docs)
  end.

(** ** The plugin *)

Section plugin.
Context {engine : DiffEngine}.
Variable pluginOptions : PluginOptions.

Definition getModelName (defaultName : string) : string :=
  if embeddedDocument pluginOptions
  then embeddedModelName pluginOptions
  else defaultName.

(** [Object.assign(options.select, {_id: 0, collectionId: 0, collectionName: 0})] *)
Definition assign_exclusions (select : gmap string Z) : gmap string Z :=
  <["collectionName" := 0%Z]> (<["collectionId" := 0%Z]> (<["_id" := 0%Z]> select)).

(** [queryHistory(method, options)] run against the store: the lean
    records it answers ([findOne] answers the first one, or none). *)
Definition queryHistory (faults : Faults) (w : World)
    (method : query_method) (options : QueryOptions) : result (list lean) :=
  let filter := default ∅ (q_find options) in
  let found := List.filter (λ d, matches filter d) (histories w) in
  let sorted :=
    match q_sort options with
    | Some order => store_sort (timestampFieldName pluginOptions) order found
    | None => found
    end in
  let limited :=
    match q_limit options with
    | Some (S n) => take (S n) sorted
    | Some O | None => sorted
    end in
  let answer :=
    match method with
    | Find => limited
    | FindOne => take 1 limited
    end in
  if fail_find faults then Throw StoreError
  else
    match q_select options with
    | Some select =>
        let select := assign_exclusions select in
        if projection_valid select
        then Ok (mongo_project select <$> answer)
        else Throw StoreError
    | None => Ok answer
    end.

(** [schema.methods.getDiffs] *)
Definition getDiffs (faults : Faults) (w : World) (this : Document)
    (options : QueryOptions) : result (list lean) :=
  let find :=
    <["collectionId" := VOid (doc_id this)]>
      (<["collectionName" := VStr (getModelName (doc_model this))]>
         (default ∅ (q_find options))) in
  queryHistory faults w Find
    {| q_find := Some find;
       q_select := q_select options;
       q_sort := Some (default Descending (q_sort options));
       q_limit := q_limit options |}.

(** [schema.methods.getDiff] *)
Definition getDiff (faults : Faults) (w : World) (this : Document)
    (version : semver) (options : QueryOptions) : result (option lean) :=
  let find :=
    <["version" := VVersion version]>
      (<["collectionId" := VOid (doc_id this)]>
         (<["collectionName" := VStr (getModelName (doc_model this))]>
            (default ∅ (q_find options)))) in
  head <$> queryHistory faults w FindOne
    {| q_find := Some find;
       q_select := q_select options;
       q_sort := Some (default Descending (q_sort options));
       q_limit := q_limit options |}.

(** [item.version] as semver reads it: anything but a valid version
    string makes [semver.gt]/[semver.lt] throw. *)
Definition lean_version (item : lean) : result semver :=
  match item !! "version" with
  | Some (VVersion v) => Ok v
  | _ => Throw TypeError
  end.

(** [jdf.patch(currentVersion, item.diff)]: an absent diff leaves the left
    side as it is; the engine throws on the diff [{}]; a diff that is not
    an object is outside the delta format and the engine throws. *)
Definition patch_item (currentVersion : obj) (item : lean) : result obj :=
  match item !! "diff" with
  | None | Some VUndefined => Ok currentVersion
  | Some (VObj d) =>
      match jdf_patch currentVersion d with
      | Some patched => Ok patched
      | None => Throw TypeError        (* 'patch failed' *)
      end
  | Some _ => Throw TypeError
  end.

(** The first [forEach] of [getVersion]: the last record whose version is
    the target. *)
Definition find_history (version2get : semver) (histories : list lean) : option lean :=
  foldl (λ history item,
           if decide (item !! "version" = Some (VVersion version2get))
           then Some item else history)
        None histories.

(** The second [forEach] of [getVersion]. *)
Fixpoint replay_to (version2get : semver) (currentVersion : obj)
    (histories : list lean) : result obj :=
  match histories with
  | [] => Ok currentVersion
  | item :: rest =>
      v ← lean_version item;
      if semver_lt v version2get || bool_decide (v = version2get)
      then cur ← patch_item currentVersion item; replay_to version2get cur rest
      else replay_to version2get currentVersion rest
  end.

(** The callback of [getVersion] on the records [getDiffs] answered. *)
Definition getVersion_then (histories : list lean) (version2get : semver)
    (includeObject : bool) : result (option lean) :=
  match head histories, last histories with
  | Some firstVersion, Some lastVersion =>
      lastv ← lean_version lastVersion;
      let version2get := if semver_gt version2get lastv then lastv else version2get in
      firstv ← lean_version firstVersion;
      let version2get := if semver_lt version2get firstv then firstv else version2get in
      let history := find_history version2get histories in
      if negb includeObject then Ok history
      else
        currentVersion ← replay_to version2get ∅ histories;
        match history with
        | Some result =>
            Ok (Some (<["object" := VObj currentVersion]> (delete "diff" result)))
        | None => Throw TypeError   (* delete result.diff on undefined *)
        end
  | _, _ => Throw TypeError         (* lastVersion.version on undefined *)
  end.

(** [schema.methods.getVersion] *)
Definition getVersion (faults : Faults) (w : World) (this : Document)
    (version2get : semver) (includeObject : bool) : result (option lean) :=
  histories ←
    getDiffs faults w this
      {| q_find := None; q_select := None; q_sort := Some Ascending; q_limit := None |};
  getVersion_then histories version2get includeObject.

(** [result.object || {}] *)
Definition object_or_empty (r : lean) : obj :=
  match r !! "object" with
  | Some (VObj o) => o
  | _ => ∅
  end.

(** [schema.methods.compareVersions] *)
Definition compareVersions (faults : Faults) (w : World) (this : Document)
    (versionLeft versionRight : semver) : result CompareResult :=
  l ← getVersion faults w this versionLeft true;
  r ← getVersion faults w this versionRight true;
  match l, r with
  | Some versionLeftResult, Some versionRightResult =>
      Ok {| cr_diff := jdf_diff (object_or_empty versionLeftResult)
                                (object_or_empty versionRightResult);
            cr_left := object_or_empty versionLeftResult;
            cr_right := object_or_empty versionRightResult |}
  | _, _ => Throw TypeError
  end.

(** The loop of [getVersions]. *)
Fixpoint getVersions_loop (currentVersion : obj) (histories : list lean)
    : result (list lean) :=
  match histories with
  | [] => Ok []
  | item :: rest =>
      cur ← patch_item currentVersion item;
      results ← getVersions_loop cur rest;
      Ok (delete "diff" (<["object" := VObj cur]> item) :: results)
  end.

(** [schema.methods.getVersions] *)
Definition getVersions (faults : Faults) (w : World) (this : Document)
    (options : QueryOptions) (includeObject : bool) : result (list lean) :=
  histories ←
    getDiffs faults w this
      {| q_find := q_find options;
         q_select := q_select options;
         q_sort := Some (default Ascending (q_sort options));
         q_limit := q_limit options |};
  if negb includeObject then Ok histories
  else getVersions_loop ∅ histories.

(** *** The [preSave] hook *)

(** The clean-up of both objects before the diff: [__history], [__v] and
    every ignored field are deleted. *)
Definition normalize (o : obj) : obj :=
  foldl (λ acc field, delete field acc)
        (delete "__v" (delete "__history" o))
        (ignore pluginOptions).

(** [noDiffSaveOnMethods.includes(method)] *)
Definition includes_method (method : jsval) : bool :=
  match method with
  | VStr m => bool_decide (m ∈ noDiffSaveOnMethods pluginOptions)
  | _ => false
  end.

(** The value of [saveWithoutDiff]. *)
Definition saveWithoutDiff (this : Document) : bool :=
  match doc_history this, noDiffSaveOnMethods pluginOptions with
  | Some h, _ :: _ =>
      let method := hm_get h (methodFieldName pluginOptions) in
      truthy method && includes_method method
  | _, _ => false
  end.

(** [getPrevious]: the latest replayed snapshot of an embedded document
    (any failure caught and answered by [{}]), the stored document of a
    top-level one ([null] when there is none). *)
Definition getPrevious (faults : Faults) (w : World) (this : Document)
    : result (option obj) :=
  if embeddedDocument pluginOptions then
    Ok (Some
          (catch
             (versions ← getVersions faults w this no_query_options true;
              Ok (match last versions with
                  | Some v => object_or_empty v
                  | None => ∅
                  end))
             ∅))
  else if fail_findById faults then Throw StoreError
  else Ok (entities w !! (doc_model this, doc_id this)).

(** [HistoryModel.findOne({collectionName, collectionId})
      .sort('-' + timestampFieldName).select({version: 1})] *)
Definition find_lastHistory (faults : Faults) (w : World) (this : Document)
    : result (option lean) :=
  let filter : lean :=
    <["collectionId" := VOid (doc_id this)]>
      (<["collectionName" := VStr (getModelName (doc_model this))]> ∅) in
  if fail_findOne faults then Throw StoreError
  else Ok (mongo_project {["version" := 1%Z]}
             <$> head (sort_descending (timestampFieldName pluginOptions)
                         (List.filter (λ d, matches filter d) (histories w)))).

(** [semver.inc(lastHistory.version, type)]: [null] unless the version is
    valid; the string of the incremented version otherwise, which is no
    valid version any more once a number has left the safe integers. *)
Definition semver_inc_js (version : jsval) (release : release_type) : option jsval :=
  match version with
  | VVersion v => Some (version_value (semver_inc v release))
  | _ => None
  end.

(** The loop that deletes the keys whose value is [undefined]. *)
Definition delete_undefined (o : lean) : lean :=
  filter (λ kv, kv.2 ≠ VUndefined) o.

(** The object [obj] handed to [new HistoryModel(obj)]. *)
Definition history_object (this : Document) (currentDiff : option obj)
    (lastHistory : option lean) : lean :=
  let o : lean :=
    <["diff" := VObj (default ∅ currentDiff)]>
      (<["collectionId" := VOid (doc_id this)]>
         (<["collectionName" := VStr (getModelName (doc_model this))]> ∅)) in
  let o : lean :=
    match doc_history this with
    | Some h =>
        <[methodFieldName pluginOptions := hm_get h (methodFieldName pluginOptions)]>
          (<["data" := from_option VObj VUndefined (hm_data h)]>
             (<["reason" := from_option VStr VUndefined (hm_reason h)]>
                (<[accountFieldName pluginOptions :=
                     js_or (js_get (doc_props this) (accountFieldName pluginOptions))
                           (hm_get h (accountFieldName pluginOptions))]>
                   (<[userFieldName pluginOptions := hm_get h (userFieldName pluginOptions)]>
                      (<["event" := from_option VStr VUndefined (hm_event h)]> o)))))
    | None => o
    end in
  let version : option jsval :=
    match lastHistory with
    | Some last =>
        let type := default Major (doc_history this ≫= hm_type) in
        semver_inc_js (js_get last "version") type
    | None => None
    end in
  delete_undefined (<["version" := default (VVersion (SemVer 0 0 0)) version]> o).

(** [new HistoryModel(obj)] and [history.save()]: the record gets an
    [_id] of its own, the [pre('save')] hook of the history schema stamps
    it with [new Date()] and it is appended.  Every key of [obj] is a path
    of the schema, [minimize] is off ([diff: {}] is kept) and there is no
    version key. *)
Definition new_HistoryModel (w : World) (o : lean) : lean :=
  <[timestampFieldName pluginOptions := VDate (clock w)]>
    (<["_id" := VOid (N.of_nat (List.length (histories w)))]> o).

Definition HistoryModel_save (faults : Faults) (w : World) (o : lean) : result World :=
  if fail_save faults then Throw StoreError
  else
    Ok {| histories := histories w ++ [new_HistoryModel w o];
          entities := entities w;
          clock := clock w |}.

(** [this.__history = undefined] *)
Definition clear_history (this : Document) : Document :=
  {| doc_model := doc_model this; doc_id := doc_id this;
     doc_json := doc_json this; doc_props := doc_props this;
     doc_history := None |}.

(** The callback of [getPrevious.then]: the store and the document after
    it, and how [next] is called ([next()] or [next(err)]). *)
Definition preSave_then (forceSave : bool) (faults : Faults) (w : World)
    (this : Document) (previous : option obj) : World * Document * result () :=
  let currentObject := normalize (doc_json this) in
  let previousObject := normalize (default ∅ previous) in
  let currentDiff := jdf_diff previousObject currentObject in
  let currentDiff :=
    if saveWithoutDiff this && forceSave then Some previousObject else currentDiff in
  if bool_decide (is_Some currentDiff) || noDiffSave pluginOptions || saveWithoutDiff this
  then
    match find_lastHistory faults w this with
    | Ok lastHistory =>
        let o := history_object this currentDiff lastHistory in
        match HistoryModel_save faults w o with
        | Ok w' => (w', clear_history this, Ok ())
        | Throw e => (w, clear_history this, Throw e)
        end
    | Throw e => (w, this, Throw e)
    end
  else (w, this, Ok ()).

(** [preSave(forceSave)] *)
Definition preSave (forceSave : bool) (faults : Faults) (w : World)
    (this : Document) : World * Document * result () :=
  if bool_decide (is_Some (doc_history this)) || noEventSave pluginOptions then
    match getPrevious faults w this with
    | Ok previous => preSave_then forceSave faults w this previous
    | Throw e => (w, this, Throw e)
    end
  else (w, this, Ok ()).

(** *** The hooked operations

    [schema.pre('save', preSave(false))] and
    [schema.pre('deleteOne', ..., preSave(true))]: mongoose runs the hook
    and, when it called [next()] without an error, writes or removes the
    document. *)
Definition save (faults : Faults) (w : World) (this : Document)
    : World * Document * result () :=
  match preSave false faults w this with
  | (w', this', Ok _) =>
      ({| histories := histories w';
          entities := <[(doc_model this, doc_id this) := doc_json this]> (entities w');
          clock := clock w' |}, this', Ok ())
  | r => r
  end.

Definition deleteOne (faults : Faults) (w : World) (this : Document)
    : World * Document * result () :=
  match preSave true faults w this with
  | (w', this', Ok _) =>
      ({| histories := histories w';
          entities := delete (doc_model this, doc_id this) (entities w');
          clock := clock w' |}, this', Ok ())
  | r => r
  end.
End plugin.

(** ** The hash of array items

    [jsondiffpatch.create({objectHash, arrays: {detectMove: true}})]: the
    engine matches the items of two arrays by the hash the plugin gives.
    An item is [undefined], a value of JSON that is no object ([null]
    among them) or an object; [toString] is the conversion
    [obj._id.toString()] runs, left open. *)
Inductive array_item : Type :=
| ItemUndefined
| ItemValue (v : json)
| ItemObject (o : obj).

(** [!!v] of a property value; an absent property is [undefined]. *)
Definition truthy_json (v : option json) : bool :=
  match v with
  | None | Some JNull => false
  | Some (JBool b) => b
  | Some (JNum n) => negb (n =? 0)%Z
  | Some (JStr s) => negb (String.eqb s "")
  | Some (JArr _) => true
  end.

(** [a || b] *)
Definition or_json (a b : option json) : option json :=
  if truthy_json a then a else b.

(** ['$$index:' + index] *)
Definition index_hash (index : option N) : json :=
  JStr ("$$index:" ++ from_option pretty "undefined" index).

(** [objectHash(obj, index)] *)
Definition objectHash (toString : json → string) (obj : array_item) (index : option N)
    : result json :=
  match obj with
  | ItemUndefined => Ok (index_hash index)
  | ItemValue JNull => Throw TypeError          (* obj._id on null *)
  | ItemValue _ => Ok (index_hash index)        (* no such properties *)
  | ItemObject o =>
      let id_string :=
        if truthy_json (o !! "_id")
        then (λ v, JStr (toString v)) <$> o !! "_id"
        else o !! "_id" in
      Ok (default (index_hash index)
            (or_json (or_json (or_json id_string (o !! "id")) (o !! "key"))
                     (Some (index_hash index))))
  end.

(** * Specification

    The notions the properties are stated with: the clamped target, the
    records and the replay of one entity, the record a save writes, and
    sequences of saves with the states they record. *)

(** The target of [getVersion] after its two clamping tests. *)
Definition clamp (firstv lastv version2get : semver) : semver :=
  let v := if semver_gt version2get lastv then lastv else version2get in
  if semver_lt v firstv then firstv else v.

(** A record as [preSave] writes it: a valid version and an object as
    diff. *)
Definition well_formed (item : lean) : bool :=
  match item !! "version", item !! "diff" with
  | Some (VVersion _), Some (VObj _) => true
  | _, _ => false
  end.

(** The query options [getVersion] passes to [getDiffs]. *)
Definition oldest_first : QueryOptions :=
  {| q_find := None; q_select := None; q_sort := Some Ascending; q_limit := None |}.

(** The paths of the history schema, with the [_id] of the store. *)
Definition schema_paths (pluginOptions : PluginOptions) : list string :=
  [ "_id"; "collectionName"; "collectionId"; "diff"; "event"; "reason"; "data";
    userFieldName pluginOptions; accountFieldName pluginOptions; "version";
    timestampFieldName pluginOptions; methodFieldName pluginOptions ].

(** The configured field names name different paths. *)
Definition distinct_fields (pluginOptions : PluginOptions) : Prop :=
  NoDup (schema_paths pluginOptions).

(** A property value as it is persisted: [undefined] is no property. *)
Definition persisted (v : jsval) : option jsval :=
  match v with VUndefined => None | _ => Some v end.

(** The store after [history.save()] has appended the record [r]. *)
Definition append_history (w : World) (r : lean) : World :=
  {| histories := histories w ++ [r]; entities := entities w; clock := clock w |}.

(** [currentDiff] once the no-diff-methods rule has been applied. *)
Definition recorded_diff {engine : DiffEngine} (pluginOptions : PluginOptions)
    (forceSave : bool) (this : Document) (previous : option obj)
    : option obj :=
  if saveWithoutDiff pluginOptions this && forceSave
  then Some (normalize pluginOptions (default ∅ previous))
  else jdf_diff (normalize pluginOptions (default ∅ previous))
                (normalize pluginOptions (doc_json this)).

(** The test [currentDiff || noDiffSave || saveWithoutDiff] in terms of the
    structural diff. *)
Definition persists {engine : DiffEngine} (pluginOptions : PluginOptions)
    (this : Document) (previous : option obj) : bool :=
  bool_decide (is_Some (jdf_diff (normalize pluginOptions (default ∅ previous))
                                 (normalize pluginOptions (doc_json this))))
  || noDiffSave pluginOptions || saveWithoutDiff pluginOptions this.

(** The answer of the look-up of the last record when the store works. *)
Definition lastHistory_of (pluginOptions : PluginOptions) (w : World)
    (this : Document) : option lean :=
  match find_lastHistory pluginOptions no_faults w this with
  | Ok lastHistory => lastHistory
  | Throw _ => None
  end.

(** The record [preSave] writes for a document. *)
Definition history_of {engine : DiffEngine} (pluginOptions : PluginOptions)
    (forceSave : bool) (w : World) (this : Document)
    (previous : option obj) : lean :=
  new_HistoryModel pluginOptions w
    (history_object pluginOptions this
       (recorded_diff pluginOptions forceSave this previous)
       (lastHistory_of pluginOptions w this)).

(** The filter [{collectionName, collectionId}] of a document. *)
Definition entity_filter (pluginOptions : PluginOptions) (this : Document) : lean :=
  <["collectionId" := VOid (doc_id this)]>
    (<["collectionName" := VStr (getModelName pluginOptions (doc_model this))]> ∅).

(** The history records of a document, oldest first. *)
Definition entity_records (pluginOptions : PluginOptions) (w : World) (this : Document)
    : list lean :=
  List.filter (λ d, matches (entity_filter pluginOptions this) d) (histories w).

(** Two documents are the same entity for the history collection. *)
Definition same_entity (pluginOptions : PluginOptions) (a b : Document) : Prop :=
  getModelName pluginOptions (doc_model a) = getModelName pluginOptions (doc_model b)
  ∧ doc_id a = doc_id b.

#[global] Instance same_entity_dec pluginOptions a b :
  Decision (same_entity pluginOptions a b).
Proof. unfold same_entity. apply _. Defined.

(** The documents [docs] are saved one after the other, the store
    working, and a millisecond passes after each save: no two records are
    written at the same time. *)
Fixpoint save_all {engine : DiffEngine} (pluginOptions : PluginOptions) (w : World)
    (docs : list Document) : World :=
  match docs with
  | [] => w
  | this :: rest =>
      save_all pluginOptions (tick (save pluginOptions no_faults w this).1.1) rest
  end.

(** The documents [docs] are saved one after the other within one
    millisecond. *)
Fixpoint save_at_once {engine : DiffEngine} (pluginOptions : PluginOptions) (w : World)
    (docs : list Document) : World :=
  match docs with
  | [] => w
  | this :: rest =>
      save_at_once pluginOptions (save pluginOptions no_faults w this).1.1 rest
  end.

(** The materialized states at the recorded versions: for every save of the
    sequence that appended a history record, the document that was saved and
    its normalized state at that time. *)
Fixpoint commit_log {engine : DiffEngine} (pluginOptions : PluginOptions) (w : World)
    (docs : list Document) : list (Document * obj) :=
  match docs with
  | [] => []
  | this :: rest =>
      let w' := (save pluginOptions no_faults w this).1.1 in
      (if decide (List.length (histories w') = List.length (histories w)) then []
       else [(this, normalize pluginOptions (doc_json this))])
      ++ commit_log pluginOptions (tick w') rest
  end.

(** The logged states of one entity. *)
Definition states_of (pluginOptions : PluginOptions) (this : Document)
    (log : list (Document * obj)) : list obj :=
  snd <$> List.filter (λ e, bool_decide (same_entity pluginOptions e.1 this)) log.

(** The objects [getVersions] attaches to its answers. *)
Definition objects_of (versions : list lean) : list (option jsval) :=
  (λ v : lean, v !! "object") <$> versions.


(** The fold of [getVersions] on its own: the state after each record,
    and the last state; it throws where a patch throws. *)
Fixpoint replay_states {engine : DiffEngine} (cur : obj) (histories : list lean)
    : result (list obj) :=
  match histories with
  | [] => Ok []
  | item :: rest =>
      state ← patch_item cur item;
      states ← replay_states state rest;
      Ok (state :: states)
  end.

Fixpoint replay {engine : DiffEngine} (cur : obj) (histories : list lean)
    : result obj :=
  match histories with
  | [] => Ok cur
  | item :: rest => state ← patch_item cur item; replay state rest
  end.

(** A record with the replayed state in the place of its diff. *)
Definition attach_object (item : lean) (state : obj) : lean :=
  delete "diff" (<["object" := VObj state]> item).

(** The previous state [preSave] works with when the store works. *)
Definition previous_of {engine : DiffEngine} (pluginOptions : PluginOptions)
    (w : World) (this : Document) : option obj :=
  match getPrevious pluginOptions no_faults w this with
  | Ok previous => previous
  | Throw _ => None
  end.

(** Whether [preSave] writes a record when the store works. *)
Definition commits {engine : DiffEngine} (pluginOptions : PluginOptions)
    (w : World) (this : Document) : bool :=
  (bool_decide (is_Some (doc_history this)) || noEventSave pluginOptions)
  && persists pluginOptions this (previous_of pluginOptions w this).

(** The objects of an answer of [getVersions], if it answers. *)
Definition answer_objects (answer : result (list lean)) : option (list (option jsval)) :=
  match answer with
  | Ok versions => Some (objects_of versions)
  | Throw _ => None
  end.


(** For every entity whose records replay, the replay ends in the
    normalized previous state [preSave] would work with. *)
Definition replay_invariant {engine : DiffEngine} (pluginOptions : PluginOptions)
    (w : World) : Prop :=
  ∀ (that : Document) (states : list obj),
    replay_states ∅ (entity_records pluginOptions w that) = Ok states →
    normalize pluginOptions (default ∅ (previous_of pluginOptions w that))
    = default ∅ (last states).

(** The records of every entity replay. *)
Definition replays {engine : DiffEngine} (pluginOptions : PluginOptions)
    (w : World) : Prop :=
  ∀ that : Document,
    ∃ states, replay_states ∅ (entity_records pluginOptions w that) = Ok states.

(** The version of the record [b] is greater than that of the record [a],
    in semver precedence. *)
Definition version_lt (a b : lean) : Prop :=
  ∃ va vb,
    a !! "version" = Some (VVersion va) ∧ b !! "version" = Some (VVersion vb)
    ∧ semver_lt va vb = true.

(** The versions of the records of every entity strictly increase in the
    order of the records, the order of their timestamps. *)
Definition ascending_versions (pluginOptions : PluginOptions) (w : World) : Prop :=
  Forall (λ item, well_formed item = true) (histories w)
  ∧ ∀ that : Document, Sorted version_lt (entity_records pluginOptions w that).

(** The records carry different dates, later ones later in the
    collection: the order by timestamp of a query is the order of
    insertion. *)
Definition distinct_stamps (pluginOptions : PluginOptions) (w : World) : Prop :=
  StronglySorted
    (λ a b : lean,
       (sort_key (timestampFieldName pluginOptions) a
        < sort_key (timestampFieldName pluginOptions) b)%nat)
    (histories w).

(** Moreover every record was written before the present millisecond. *)
Definition stamped_in_order (pluginOptions : PluginOptions) (w : World) : Prop :=
  distinct_stamps pluginOptions w
  ∧ Forall (λ r : lean, (sort_key (timestampFieldName pluginOptions) r ≤ clock w)%nat)
           (histories w).

(** The numbers of a version are at most [n], and it has no tag. *)
Definition version_below (n : N) (v : semver) : Prop :=
  sv_pre v = None ∧ (sv_major v ≤ n)%N ∧ (sv_minor v ≤ n)%N ∧ (sv_patch v ≤ n)%N.

(** The records carry versions whose numbers do not exceed the number of
    records. *)
Definition counted_versions (w : World) : Prop :=
  Forall (λ r : lean,
            ∃ v, r !! "version" = Some (VVersion v)
                 ∧ version_below (N.of_nat (List.length (histories w))) v)
         (histories w).

(** The collection has room for [n] more records before a version number
    leaves the safe integers. *)
Definition room_for (n : nat) (w : World) : Prop :=
  (N.of_nat (List.length (histories w) + n) ≤ max_safe_integer)%N.

(** An answer of a query with its records rearranged by [f]. *)
Definition answer_map (f : list lean → list lean) (answer : result (list lean))
    : result (list lean) :=
  match answer with
  | Ok docs => Ok (f docs)
  | Throw e => Throw e
  end.

(** The query options with another sort and another limit. *)
Definition with_sort (options : QueryOptions) (sort : option sort_order) : QueryOptions :=
  {| q_find := q_find options; q_select := q_select options; q_sort := sort;
     q_limit := q_limit options |}.

Definition with_limit (options : QueryOptions) (limit : option nat) : QueryOptions :=
  {| q_find := q_find options; q_select := q_select options; q_sort := q_sort options;
     q_limit := limit |}.

(** The records of a list that carry the version [v]. *)
Definition with_version (v : semver) (histories : list lean) : list lean :=
  List.filter (λ d : lean, bool_decide (d !! "version" = Some (VVersion v))) histories.

(** ** The statements that are examined *)

(** An answered record has none of [_id], [collectionId] and
    [collectionName]. *)
Definition hides_identity (d : lean) : Prop :=
  d !! "_id" = None ∧ d !! "collectionId" = None ∧ d !! "collectionName" = None.

(** An answered record has its [_id] and the [collectionId] and
    [collectionName] of the document. *)
Definition shows_identity (pluginOptions : PluginOptions) (this : Document)
    (d : lean) : Prop :=
  is_Some (d !! "_id")
  ∧ d !! "collectionId" = Some (VOid (doc_id this))
  ∧ d !! "collectionName" = Some (VStr (getModelName pluginOptions (doc_model this))).

(** The statement of the rule for the [deleteOne] hook of one document:
    whenever the method tag of its pending metadata is in the configured
    list, the record that is written has the normalized previous state as
    its diff. *)
Definition records_snapshot {engine : DiffEngine} (pluginOptions : PluginOptions)
    (w : World) (this : Document) : Prop :=
  ∀ h m,
    doc_history this = Some h →
    hm_get h (methodFieldName pluginOptions) = VStr m →
    m ∈ noDiffSaveOnMethods pluginOptions →
    ∃ previous r,
      getPrevious pluginOptions no_faults w this = Ok previous
      ∧ (preSave pluginOptions true no_faults w this).1.1 = append_history w r
      ∧ r !! "diff" = Some (VObj (normalize pluginOptions (default ∅ previous))).

(** Every metadata field of the record, the account among them, is the
    pending metadata's, and is absent when that is [undefined]. *)
Definition copies_metadata (pluginOptions : PluginOptions) (h : HistoryMetadata)
    (r : lean) : Prop :=
  r !! "event" = persisted (hm_get h "event")
  ∧ r !! "reason" = persisted (hm_get h "reason")
  ∧ r !! "data" = persisted (hm_get h "data")
  ∧ r !! userFieldName pluginOptions = persisted (hm_get h (userFieldName pluginOptions))
  ∧ r !! accountFieldName pluginOptions
    = persisted (hm_get h (accountFieldName pluginOptions))
  ∧ r !! methodFieldName pluginOptions
    = persisted (hm_get h (methodFieldName pluginOptions)).

(** The statement that every record [preSave] writes for a document with
    pending metadata copies that metadata. *)
Definition metadata_copied {engine : DiffEngine} (pluginOptions : PluginOptions)
    (forceSave : bool) (w : World) (this : Document) : Prop :=
  ∀ h w' this' next r,
    doc_history this = Some h →
    preSave pluginOptions forceSave no_faults w this = (w', this', next) →
    histories w' = histories w ++ [r] →
    copies_metadata pluginOptions h r.

(** The look-up of the previous state throws: the replay of an embedded
    document, [findById] for a top-level one. *)
Definition previous_lookup_throws {engine : DiffEngine} (pluginOptions : PluginOptions)
    (faults : Faults) (w : World) (this : Document) : Prop :=
  if embeddedDocument pluginOptions
  then ∃ e, getVersions pluginOptions faults w this no_query_options true = Throw e
  else fail_findById faults = true.

(** The statement that such a failure is taken as the previous state [{}]
    and that the hook goes on with it. *)
Definition lookup_failure_recovered {engine : DiffEngine} (pluginOptions : PluginOptions)
    (forceSave : bool) (faults : Faults) (w : World) (this : Document) : Prop :=
  previous_lookup_throws pluginOptions faults w this →
  preSave pluginOptions forceSave faults w this
  = preSave_then pluginOptions forceSave faults w this (Some ∅).

(** The statement that replay reproduces the recorded states, for a
    sequence of saves from the empty store: for every document,
    [getVersions] answers, and the objects of its answers are the
    materialized states of the entity at its recorded versions. *)
Definition replay_reproduces {engine : DiffEngine} (pluginOptions : PluginOptions)
    (docs : list Document) : Prop :=
  ∀ this,
    ∃ versions,
      getVersions pluginOptions no_faults (save_all pluginOptions empty_world docs) this
        no_query_options true = Ok versions
      ∧ objects_of versions
        = (λ o, Some (VObj o))
            <$> states_of pluginOptions this (commit_log pluginOptions empty_world docs).

(** ** Scenarios

    The options and the tanks of [tests/index_test], and the documents and
    options of the other scenarios. *)

(** The options of [tests/index_test]. *)
Definition test_options : PluginOptions :=
  historyPlugin_options
    {| p_modelName := Some "__histories"; p_embeddedDocument := None;
       p_embeddedModelName := None;
       p_userCollection := Some "users"; p_accountCollection := Some "accounts";
       p_userFieldName := Some "user"; p_accountFieldName := Some "account";
       p_timestampFieldName := Some "timestamp"; p_methodFieldName := Some "method";
       p_ignore := Some []; p_noDiffSave := Some false;
       p_noDiffSaveOnMethods := Some ["delete"]; p_noEventSave := Some true |}.

(** [new Tank({size})] with [_id] 7. *)
Definition tank (size : string) : Document :=
  {| doc_model := "tank"; doc_id := 7;
     doc_json := <["size" := JStr size]> (<["_id" := JStr "7"]> ∅);
     doc_props := ∅; doc_history := None |}.

(** [small.save()] *)
Definition tank_saved : World :=
  (save (engine := flat_engine) test_options no_faults empty_world (tank "small")).1.1.

(** [small.size = 'large'; small.save()], a millisecond later. *)
Definition tank_changed : World :=
  (save (engine := flat_engine) test_options no_faults (tick tank_saved)
     (tank "large")).1.1.

(** The small tank with a record whose major version is
    [Number.MAX_SAFE_INTEGER], a millisecond after that record. *)
Definition tank_at_limit : World :=
  {| histories :=
       (λ r : lean, <["version" := VVersion (SemVer max_safe_integer 0 0)]> r)
         <$> histories tank_saved;
     entities := entities tank_saved;
     clock := 1 |}.

(** Pending metadata that only carries a method tag. *)
Definition method_only (method : string) : HistoryMetadata :=
  {| hm_event := None; hm_type := None; hm_reason := None; hm_data := None;
     hm_other := {[ "method" := VStr method ]} |}.

(** [this.__history = h] *)
Definition with_history (this : Document) (h : HistoryMetadata) : Document :=
  {| doc_model := doc_model this; doc_id := doc_id this; doc_json := doc_json this;
     doc_props := doc_props this; doc_history := Some h |}.

(** The options of the test-suite with the empty string as the only
    no-diff method. *)
Definition empty_method_options : PluginOptions :=
  historyPlugin_options
    {| p_modelName := Some "__histories"; p_embeddedDocument := None;
       p_embeddedModelName := None;
       p_userCollection := None; p_accountCollection := None;
       p_userFieldName := None; p_accountFieldName := None;
       p_timestampFieldName := None; p_methodFieldName := None;
       p_ignore := None; p_noDiffSave := None;
       p_noDiffSaveOnMethods := Some [""]; p_noEventSave := None |}.

(** A tank of account 1, saved by a user of account 2. *)
Definition tank_of_account : Document :=
  {| doc_model := "tank"; doc_id := 7;
     doc_json := {[ "_id" := JStr "7"; "account" := JStr "1" ]};
     doc_props := {[ "account" := VOid 1 ]};
     doc_history :=
       Some {| hm_event := Some "created"; hm_type := None; hm_reason := None;
               hm_data := None;
               hm_other := {[ "user" := VOid 9; "account" := VOid 2 ]} |} |}.

(** Only [findById] is rejected. *)
Definition findById_fails : Faults :=
  {| fail_findById := true; fail_find := false; fail_findOne := false;
     fail_save := false |}.

(** Only the queries of [getDiffs] are rejected. *)
Definition find_fails : Faults :=
  {| fail_findById := false; fail_find := true; fail_findOne := false;
     fail_save := false |}.

(** The embedded options of the test-suite. *)
Definition embedded_options : PluginOptions :=
  historyPlugin_options
    {| p_modelName := Some "__embedded_histories"; p_embeddedDocument := Some true;
       p_embeddedModelName := Some "EmbeddedCollection";
       p_userCollection := Some "users"; p_accountCollection := Some "accounts";
       p_userFieldName := Some "user"; p_accountFieldName := Some "account";
       p_timestampFieldName := Some "timestamp"; p_methodFieldName := Some "method";
       p_ignore := Some []; p_noDiffSave := Some false;
       p_noDiffSaveOnMethods := Some ["delete"]; p_noEventSave := Some true |}.

(** Options with which only the saves that carry pending metadata are
    recorded. *)
Definition only_events_options : PluginOptions :=
  historyPlugin_options
    {| p_modelName := Some "__histories"; p_embeddedDocument := None;
       p_embeddedModelName := None;
       p_userCollection := None; p_accountCollection := None;
       p_userFieldName := None; p_accountFieldName := None;
       p_timestampFieldName := None; p_methodFieldName := None;
       p_ignore := None; p_noDiffSave := None; p_noDiffSaveOnMethods := None;
       p_noEventSave := Some false |}.

(** The pending metadata [{}]. *)
Definition no_metadata : HistoryMetadata :=
  {| hm_event := None; hm_type := None; hm_reason := None; hm_data := None;
     hm_other := ∅ |}.

(** The large tank with a name, saved with pending metadata. *)
Definition named_tank : Document :=
  {| doc_model := "tank"; doc_id := 7;
     doc_json := {[ "_id" := JStr "7"; "size" := JStr "large"; "name" := JStr "t" ]};
     doc_props := ∅; doc_history := Some no_metadata |}.

(** A tank is created small with metadata, made large without metadata and
    then named with metadata. *)
Definition unrecorded_change : list Document :=
  [ with_history (tank "small") no_metadata; tank "large"; named_tank ].

(** A parent with one embedded tank: the tank is saved small, then large. *)
Definition embedded_tank (size : string) : Document :=
  {| doc_model := "Embedded"; doc_id := 3;
     doc_json := <["size" := JStr size]> (<["_id" := JStr "3"]> ∅);
     doc_props := ∅; doc_history := None |}.

Definition embedded_changed : World :=
  save_all (engine := flat_engine) embedded_options empty_world
    [embedded_tank "small"; embedded_tank "large"].

(** Only [history.save()] is rejected. *)
Definition save_fails : Faults :=
  {| fail_findById := false; fail_find := false; fail_findOne := false;
     fail_save := true |}.

(** The options of the test-suite with [noDiffSave] and an ignored field. *)
Definition noDiffSave_options : PluginOptions :=
  historyPlugin_options
    {| p_modelName := Some "__histories"; p_embeddedDocument := None;
       p_embeddedModelName := None;
       p_userCollection := None; p_accountCollection := None;
       p_userFieldName := None; p_accountFieldName := None;
       p_timestampFieldName := None; p_methodFieldName := None;
       p_ignore := None; p_noDiffSave := Some true;
       p_noDiffSaveOnMethods := None; p_noEventSave := None |}.

Definition ignore_options : PluginOptions :=
  historyPlugin_options
    {| p_modelName := Some "__histories"; p_embeddedDocument := None;
       p_embeddedModelName := None;
       p_userCollection := None; p_accountCollection := None;
       p_userFieldName := None; p_accountFieldName := None;
       p_timestampFieldName := None; p_methodFieldName := None;
       p_ignore := Some ["updatedAt"]; p_noDiffSave := None;
       p_noDiffSaveOnMethods := None; p_noEventSave := None |}.

(** A small tank with a modification time. *)
Definition touched_tank (updatedAt : Z) : Document :=
  {| doc_model := "tank"; doc_id := 7;
     doc_json := {[ "_id" := JStr "7"; "size" := JStr "small";
                    "updatedAt" := JNum updatedAt ]};
     doc_props := ∅; doc_history := None |}.

(** The fields [preSave] deletes from both objects before the diff. *)
Definition untracked (pluginOptions : PluginOptions) : list string :=
  "__history" :: "__v" :: ignore pluginOptions.

(** * Properties *)

(** ** Evaluation of decisions *)

Lemma decide_false (P : Prop) `{Decision P} : bool_decide P = false → P → False.
Proof. intros E HP. apply bool_decide_eq_false in E. exact (E HP). Qed.

Lemma decide_true (P : Prop) `{Decision P} : bool_decide P = true → P.
Proof. apply bool_decide_eq_true. Qed.

(** Refutes a decidable hypothesis, proves a decidable goal, by evaluation of
    the decision. *)
Ltac refute H :=
  revert H;
  match goal with
  | |- ?P → False => refine (decide_false P _); vm_compute; reflexivity
  end.

Ltac by_evaluation :=
  match goal with
  | |- ?P => refine (decide_true P _); vm_compute; reflexivity
  end.

(** ** Version precedence *)

Lemma pre_compare_antisym (a b : option N) :
  pre_compare a b = CompOpp (pre_compare b a).
Proof. destruct a, b; simpl; try reflexivity. apply N.compare_antisym. Qed.

Lemma pre_compare_Lt (a b : option N) : pre_compare a b = Lt ↔ pre_lt a b.
Proof.
  destruct a as [x|], b as [y|]; simpl; try (split; [discriminate|contradiction]).
  - apply N.compare_lt_iff.
  - split; [intros _; exact I|reflexivity].
Qed.

Lemma pre_compare_Eq (a b : option N) : pre_compare a b = Eq ↔ a = b.
Proof.
  destruct a as [x|], b as [y|]; simpl; try (split; [discriminate|congruence]).
  - rewrite N.compare_eq_iff. split; congruence.
  - split; reflexivity.
Qed.

Lemma semver_lt_spec (a b : semver) :
  semver_lt a b = true ↔
  (sv_major a < sv_major b
   ∨ (sv_major a = sv_major b
      ∧ (sv_minor a < sv_minor b
         ∨ (sv_minor a = sv_minor b
            ∧ (sv_patch a < sv_patch b
               ∨ (sv_patch a = sv_patch b ∧ pre_lt (sv_pre a) (sv_pre b)))))))%N.
Proof.
  unfold semver_lt, semver_compare.
  destruct (N.compare_spec (sv_major a) (sv_major b));
    destruct (N.compare_spec (sv_minor a) (sv_minor b));
    destruct (N.compare_spec (sv_patch a) (sv_patch b));
    try (split; intros; try discriminate; try reflexivity; lia).
  destruct (pre_compare (sv_pre a) (sv_pre b)) eqn:E.
  - split; [discriminate|]. intros [?|[_ [?|[_ [?|[_ P]]]]]]; try lia.
    apply pre_compare_Lt in P. congruence.
  - apply pre_compare_Lt in E. split; [intros _|reflexivity]. auto 10.
  - split; [discriminate|]. intros [?|[_ [?|[_ [?|[_ P]]]]]]; try lia.
    apply pre_compare_Lt in P. congruence.
Qed.

Lemma semver_gt_lt (a b : semver) : semver_gt a b = semver_lt b a.
Proof.
  unfold semver_gt, semver_lt, semver_compare.
  rewrite (N.compare_antisym (sv_major a) (sv_major b)).
  rewrite (N.compare_antisym (sv_minor a) (sv_minor b)).
  rewrite (N.compare_antisym (sv_patch a) (sv_patch b)).
  rewrite (pre_compare_antisym (sv_pre b) (sv_pre a)).
  destruct (sv_major a ?= sv_major b)%N, (sv_minor a ?= sv_minor b)%N,
    (sv_patch a ?= sv_patch b)%N, (pre_compare (sv_pre a) (sv_pre b)); reflexivity.
Qed.

Lemma pre_lt_irrefl (a : option N) : ¬ pre_lt a a.
Proof. destruct a; simpl; [lia|tauto]. Qed.

Lemma pre_lt_trans (a b c : option N) : pre_lt a b → pre_lt b c → pre_lt a c.
Proof. destruct a, b, c; simpl; try tauto; lia. Qed.

Lemma semver_lt_irrefl (a : semver) : semver_lt a a = false.
Proof.
  destruct (semver_lt a a) eqn:E; [|reflexivity].
  apply semver_lt_spec in E.
  destruct E as [?|[_ [?|[_ [?|[_ P]]]]]]; try lia.
  by apply pre_lt_irrefl in P.
Qed.

Lemma semver_lt_trans (a b c : semver) :
  semver_lt a b = true → semver_lt b c = true → semver_lt a c = true.
Proof.
  rewrite !semver_lt_spec.
  intros [?|[? [?|[? [?|[? P]]]]]] [?|[? [?|[? [?|[? Q]]]]]];
    try (pose proof (pre_lt_trans _ _ _ P Q)); auto 10 with lia;
    try (left; lia); try (right; split; [lia|]; try (left; lia);
                          right; split; [lia|]; try (left; lia);
                          right; split; [lia|]; assumption).
Qed.

Lemma semver_lt_asym (a b : semver) :
  semver_lt a b = true → semver_lt b a = false.
Proof.
  intros E. destruct (semver_lt b a) eqn:E'; [|reflexivity].
  pose proof (semver_lt_trans _ _ _ E E') as T.
  rewrite semver_lt_irrefl in T. discriminate.
Qed.

Lemma semver_inc_gt (v : semver) (release : release_type) :
  semver_gt (semver_inc v release) v = true.
Proof.
  rewrite semver_gt_lt. apply semver_lt_spec.
  destruct v as [major minor patch [k|]], release; simpl;
    rewrite ?bool_decide_eq_true_2 by eauto;
    rewrite ?bool_decide_eq_false_2 by (intros [? ?]; discriminate);
    rewrite ?andb_true_r, ?andb_false_r;
    repeat match goal with
           | |- context [(?x =? 0)%N] => destruct (N.eqb_spec x 0)
           end; simpl; try lia; auto 10 with lia.
Qed.


(** ** Clamping *)

Lemma clamp_above (firstv lastv v : semver) :
  semver_gt v lastv = true → clamp firstv lastv v = clamp firstv lastv lastv.
Proof.
  intros E. unfold clamp. rewrite E.
  rewrite semver_gt_lt, semver_lt_irrefl. reflexivity.
Qed.

Lemma clamp_below (firstv lastv v : semver) :
  semver_lt v firstv = true → clamp firstv lastv v = clamp firstv lastv firstv.
Proof.
  intros E. unfold clamp. rewrite !semver_gt_lt.
  destruct (semver_lt lastv v) eqn:E1.
  - rewrite !(semver_lt_trans _ _ _ E1 E). reflexivity.
  - rewrite E. destruct (semver_lt lastv firstv) eqn:E2.
    + rewrite E2. reflexivity.
    + rewrite semver_lt_irrefl. reflexivity.
Qed.

Lemma clamp_cases (firstv lastv v : semver) :
  clamp firstv lastv v = v ∨ clamp firstv lastv v = firstv
  ∨ clamp firstv lastv v = lastv.
Proof.
  unfold clamp.
  destruct (semver_gt v lastv); [destruct (semver_lt lastv firstv)|destruct (semver_lt v firstv)];
    auto.
Qed.

(** ** Reading a history *)

Section reading.
Context {engine : DiffEngine}.
Variable pluginOptions : PluginOptions.

Lemma well_formed_inv (item : lean) :
  well_formed item = true →
  ∃ v d, item !! "version" = Some (VVersion v) ∧ item !! "diff" = Some (VObj d).
Proof.
  unfold well_formed. intros W.
  destruct (item !! "version") as [[| | | | | | |v|]|]; try discriminate.
  destruct (item !! "diff") as [[| | | | | | | |d]|]; try discriminate.
  eauto.
Qed.

Lemma find_history_snoc (t : semver) (histories : list lean) (item : lean) :
  find_history t (histories ++ [item]) =
  if decide (item !! "version" = Some (VVersion t)) then Some item
  else find_history t histories.
Proof. unfold find_history. rewrite foldl_app. reflexivity. Qed.

Lemma find_history_Some (t : semver) (histories : list lean) (item : lean) :
  item ∈ histories → item !! "version" = Some (VVersion t) →
  ∃ r, find_history t histories = Some r ∧ r ∈ histories
       ∧ r !! "version" = Some (VVersion t).
Proof.
  induction histories as [|x rest IH] using rev_ind; intros In Ev.
  - inversion In.
  - rewrite find_history_snoc. destruct (decide (x !! "version" = Some (VVersion t))).
    + exists x. split_and!; [reflexivity| |assumption].
      apply elem_of_app. right. apply list_elem_of_singleton. reflexivity.
    + apply elem_of_app in In as [In|In].
      * destruct (IH In Ev) as (r & ? & ? & ?). exists r. split_and!; try assumption.
        apply elem_of_app. auto.
      * apply list_elem_of_singleton in In. congruence.
Qed.

Lemma find_history_None (t : semver) (histories : list lean) :
  Forall (λ item, item !! "version" ≠ Some (VVersion t)) histories →
  find_history t histories = None.
Proof.
  induction histories as [|x rest IH] using rev_ind; intros F; [reflexivity|].
  rewrite find_history_snoc. apply Forall_app in F as [F Fx].
  apply Forall_inv in Fx.
  destruct (decide (x !! "version" = Some (VVersion t))) as [e|_]; [|auto].
  exfalso. exact (Fx e).
Qed.

(** [getVersion] on a history whose first and last record carry the
    versions [firstv] and [lastv]. *)
Lemma getVersion_then_clamp (histories : list lean) (firstVersion lastVersion : lean)
    (firstv lastv v : semver) (includeObject : bool) :
  head histories = Some firstVersion → last histories = Some lastVersion →
  lean_version firstVersion = Ok firstv → lean_version lastVersion = Ok lastv →
  getVersion_then histories v includeObject =
  let t := clamp firstv lastv v in
  if negb includeObject then Ok (find_history t histories)
  else
    currentVersion ← replay_to t ∅ histories;
    match find_history t histories with
    | Some result => Ok (Some (<["object" := VObj currentVersion]> (delete "diff" result)))
    | None => Throw TypeError
    end.
Proof.
  intros Eh El Ef Ell. unfold getVersion_then. rewrite Eh, El, Ell. simpl.
  rewrite Ef. reflexivity.
Qed.

Lemma lean_version_inv (item : lean) (v : semver) :
  lean_version item = Ok v → item !! "version" = Some (VVersion v).
Proof.
  unfold lean_version.
  destruct (item !! "version") as [[| | | | | | |v'|]|]; try discriminate.
  congruence.
Qed.

Lemma head_elem {A : Type} (l : list A) (x : A) : head l = Some x → x ∈ l.
Proof. destruct l; simpl; intros [= ->]. apply list_elem_of_here. Qed.

Lemma last_elem {A : Type} (l : list A) (x : A) : last l = Some x → x ∈ l.
Proof.
  intros E. apply last_Some in E as [l' ->].
  apply elem_of_app. right. apply list_elem_of_singleton. reflexivity.
Qed.

(** The clamped target of a recorded version is itself recorded. *)
Lemma clamp_recorded (histories : list lean) (firstVersion lastVersion : lean)
    (firstv lastv v : semver) (item : lean) :
  head histories = Some firstVersion → last histories = Some lastVersion →
  lean_version firstVersion = Ok firstv → lean_version lastVersion = Ok lastv →
  item ∈ histories → item !! "version" = Some (VVersion v) →
  ∃ item', item' ∈ histories
           ∧ item' !! "version" = Some (VVersion (clamp firstv lastv v)).
Proof.
  intros Eh El Ef Ell In Ev.
  destruct (clamp_cases firstv lastv v) as [->|[->| ->]].
  - eauto.
  - exists firstVersion. split; [by apply head_elem|by apply lean_version_inv].
  - exists lastVersion. split; [by apply last_elem|by apply lean_version_inv].
Qed.
End reading.

(** ** The scenarios of the test-suite *)

Example default_options :
  historyPlugin_options no_options
  = {| modelName := "__histories"; embeddedDocument := false; embeddedModelName := "";
       userCollection := "users"; accountCollection := "accounts";
       userFieldName := "user"; accountFieldName := "account";
       timestampFieldName := "timestamp"; methodFieldName := "method";
       ignore := []; noDiffSave := false; noDiffSaveOnMethods := [];
       noEventSave := true |}.
Proof. reflexivity. Qed.

Example should_create_history_when_save :
  getDiffs test_options no_faults tank_saved (tank "small") no_query_options
  = Ok [ {[ "_id" := VOid 0; "collectionName" := VStr "tank"; "collectionId" := VOid 7;
            "version" := VVersion (SemVer 0 0 0); "timestamp" := VDate 0;
            "diff" := VObj {[ "_id" := JArr [JStr "7"]; "size" := JArr [JStr "small"] ]} ]} ].
Proof. reflexivity. Qed.

Example should_create_history_when_save_a_change :
  getDiffs test_options no_faults tank_changed (tank "large") no_query_options
  = Ok [ {[ "_id" := VOid 1; "collectionName" := VStr "tank"; "collectionId" := VOid 7;
            "version" := VVersion (SemVer 1 0 0); "timestamp" := VDate 1;
            "diff" := VObj {[ "size" := JArr [JStr "small"; JStr "large"] ]} ]};
         {[ "_id" := VOid 0; "collectionName" := VStr "tank"; "collectionId" := VOid 7;
            "version" := VVersion (SemVer 0 0 0); "timestamp" := VDate 0;
            "diff" := VObj {[ "_id" := JArr [JStr "7"]; "size" := JArr [JStr "small"] ]} ]} ].
Proof. reflexivity. Qed.

Example should_get_all_versions :
  getVersions (engine := flat_engine) test_options no_faults tank_changed (tank "large")
    no_query_options true
  = Ok [ {[ "_id" := VOid 0; "collectionName" := VStr "tank"; "collectionId" := VOid 7;
            "version" := VVersion (SemVer 0 0 0); "timestamp" := VDate 0;
            "object" := VObj {[ "_id" := JStr "7"; "size" := JStr "small" ]} ]};
         {[ "_id" := VOid 1; "collectionName" := VStr "tank"; "collectionId" := VOid 7;
            "version" := VVersion (SemVer 1 0 0); "timestamp" := VDate 1;
            "object" := VObj {[ "_id" := JStr "7"; "size" := JStr "large" ]} ]} ].
Proof. reflexivity. Qed.

Example should_get_a_version :
  getVersion (engine := flat_engine) test_options no_faults tank_changed (tank "large")
    (SemVer 1 0 0) true
  = Ok (Some {[ "_id" := VOid 1; "collectionName" := VStr "tank"; "collectionId" := VOid 7;
                "version" := VVersion (SemVer 1 0 0); "timestamp" := VDate 1;
                "object" := VObj {[ "_id" := JStr "7"; "size" := JStr "large" ]} ]}).
Proof. reflexivity. Qed.

Example should_compare_two_versions :
  compareVersions (engine := flat_engine) test_options no_faults tank_changed (tank "large")
    (SemVer 0 0 0) (SemVer 1 0 0)
  = Ok {| cr_diff := Some {[ "size" := JArr [JStr "small"; JStr "large"] ]};
          cr_left := {[ "_id" := JStr "7"; "size" := JStr "small" ]};
          cr_right := {[ "_id" := JStr "7"; "size" := JStr "large" ]} |}.
Proof. reflexivity. Qed.

Example should_create_history_for_sub_documents :
  getDiffs embedded_options no_faults embedded_changed (embedded_tank "large")
    no_query_options
  = Ok [ {[ "_id" := VOid 1; "collectionName" := VStr "EmbeddedCollection";
            "collectionId" := VOid 3; "version" := VVersion (SemVer 1 0 0);
            "timestamp" := VDate 1;
            "diff" := VObj {[ "size" := JArr [JStr "small"; JStr "large"] ]} ]};
         {[ "_id" := VOid 0; "collectionName" := VStr "EmbeddedCollection";
            "collectionId" := VOid 3; "version" := VVersion (SemVer 0 0 0);
            "timestamp" := VDate 0;
            "diff" := VObj {[ "_id" := JArr [JStr "3"]; "size" := JArr [JStr "small"] ]} ]} ].
Proof. by_evaluation. Qed.

(** ** getVersion and compareVersions *)

Section versions.
Context {engine : DiffEngine}.
Variable pluginOptions : PluginOptions.

Lemma getVersion_unfold (faults : Faults) (w : World) (this : Document)
    (histories : list lean) (v : semver) (includeObject : bool) :
  getDiffs pluginOptions faults w this oldest_first = Ok histories →
  getVersion pluginOptions faults w this v includeObject
  = getVersion_then histories v includeObject.
Proof. unfold getVersion, oldest_first. intros ->. reflexivity. Qed.

(** With no record at all [getVersion] throws, whatever the version. *)
Lemma getVersion_no_history (faults : Faults) (w : World) (this : Document)
    (v : semver) (includeObject : bool) :
  getDiffs pluginOptions faults w this oldest_first = Ok [] →
  getVersion pluginOptions faults w this v includeObject = Throw TypeError.
Proof. intros E. rewrite (getVersion_unfold _ _ _ _ _ _ E). reflexivity. Qed.

Lemma well_formed_version (item : lean) :
  well_formed item = true → ∃ v, lean_version item = Ok v.
Proof.
  intros W. destruct (well_formed_inv _ W) as (v & _ & Ev & _).
  exists v. unfold lean_version. rewrite Ev. reflexivity.
Qed.

Lemma well_formed_all (histories : list lean) :
  forallb well_formed histories = true →
  Forall (λ item, well_formed item = true) histories.
Proof.
  induction histories as [|item rest IH]; simpl; intros E; constructor.
  - by apply andb_prop in E as [? _].
  - apply IH. by apply andb_prop in E as [_ ?].
Qed.

Lemma jdf_patch_opt_diff (a b : obj) : jdf_patch_opt a (jdf_diff a b) = Some b.
Proof.
  destruct (jdf_diff a b) as [d|] eqn:E; simpl.
  - by apply jdf_patch_diff.
  - f_equal. by apply jdf_diff_None.
Qed.

(** The engine never answers the delta [{}]. *)
Lemma jdf_diff_nonempty (a b : obj) : jdf_diff a b ≠ Some ∅.
Proof.
  intros E. apply jdf_patch_diff in E. rewrite jdf_patch_empty in E. discriminate.
Qed.

(** Whatever [patch_item] and the replay throw is a [TypeError]. *)
Lemma patch_item_throws (cur : obj) (item : lean) (e : error) :
  patch_item cur item = Throw e → e = TypeError.
Proof.
  unfold patch_item.
  destruct (item !! "diff") as [[| | | | | | | |d]|]; try congruence.
  destruct (jdf_patch cur d); congruence.
Qed.

Lemma replay_to_throws (t : semver) (histories : list lean) (cur : obj) (e : error) :
  replay_to t cur histories = Throw e → e = TypeError.
Proof.
  revert cur. induction histories as [|item rest IH]; intros cur; simpl; [discriminate|].
  unfold lean_version.
  destruct (item !! "version") as [[| | | | | | |v|]|]; simpl; try congruence.
  destruct (semver_lt v t || bool_decide (v = t)); [|apply IH].
  destruct (patch_item cur item) as [state|e'] eqn:P; simpl; [apply IH|].
  intros [= <-]. by eapply patch_item_throws.
Qed.

(** An answer of [getVersion] with its object carries an object. *)
Lemma getVersion_then_object (histories : list lean) (v : semver) (r : lean) :
  getVersion_then histories v true = Ok (Some r) →
  ∃ o, r !! "object" = Some (VObj o) ∧ object_or_empty r = o.
Proof.
  unfold getVersion_then.
  destruct (head histories) as [firstVersion|]; [|discriminate].
  destruct (last histories) as [lastVersion|]; [|discriminate].
  destruct (lean_version lastVersion) as [lastv|]; [|discriminate]. simpl.
  destruct (lean_version firstVersion) as [firstv|]; [|discriminate]. simpl.
  destruct (replay_to _ ∅ histories) as [o|]; [|discriminate]. simpl.
  destruct (find_history _ histories) as [result|]; [|discriminate].
  intros [= <-]. exists o. unfold object_or_empty.
  rewrite lookup_insert_eq. auto.
Qed.
End versions.

(** C5.  For an entity with at least one history record, [getVersion] with
    a version greater than that of the latest record does what
    [getVersion] does for the latest version, and with a version lower
    than that of the earliest record what it does for the earliest
    version: the same snapshot, in the same envelope.  In both cases a
    record carries the version that is used, and [getVersion] answers that
    snapshot as soon as the replay up to that version does not throw. *)
Theorem getVersion_clamps {engine : DiffEngine} (pluginOptions : PluginOptions)
    (faults : Faults) (w : World) (this : Document) (histories : list lean)
    (firstVersion lastVersion : lean) (firstv lastv v : semver) (includeObject : bool) :
  getDiffs pluginOptions faults w this oldest_first = Ok histories →
  head histories = Some firstVersion → lean_version firstVersion = Ok firstv →
  last histories = Some lastVersion → lean_version lastVersion = Ok lastv →
  (semver_gt v lastv = true →
   getVersion pluginOptions faults w this v includeObject
   = getVersion pluginOptions faults w this lastv includeObject)
  ∧ (semver_lt v firstv = true →
     getVersion pluginOptions faults w this v includeObject
     = getVersion pluginOptions faults w this firstv includeObject)
  ∧ (semver_gt v lastv = true ∨ semver_lt v firstv = true →
     ∃ r, r ∈ histories
          ∧ r !! "version" = Some (VVersion (clamp firstv lastv v))
          ∧ getVersion pluginOptions faults w this v false = Ok (Some r)
          ∧ ∀ snapshot,
              replay_to (clamp firstv lastv v) ∅ histories = Ok snapshot →
              getVersion pluginOptions faults w this v true
              = Ok (Some (<["object" := VObj snapshot]> (delete "diff" r)))).
Proof.
  intros Eq Eh Ef El Ell.
  rewrite !(getVersion_unfold _ _ _ _ _ _ _ Eq).
  rewrite !(getVersion_then_clamp _ _ _ _ _ _ _ Eh El Ef Ell).
  split_and!.
  - intros Hv. rewrite (clamp_above _ _ _ Hv). reflexivity.
  - intros Hv. rewrite (clamp_below _ _ _ Hv). reflexivity.
  - intros Hv.
    assert (R : ∃ item, item ∈ histories
                        ∧ item !! "version" = Some (VVersion (clamp firstv lastv v))).
    { assert (C : clamp firstv lastv v = firstv ∨ clamp firstv lastv v = lastv).
      { unfold clamp. destruct Hv as [Hv|Hv].
        - rewrite Hv. destruct (semver_lt lastv firstv); auto.
        - destruct (semver_gt v lastv).
          + destruct (semver_lt lastv firstv); auto.
          + rewrite Hv. auto. }
      destruct C as [C|C]; rewrite C.
      - exists firstVersion. split; [by apply head_elem|by apply lean_version_inv].
      - exists lastVersion. split; [by apply last_elem|by apply lean_version_inv]. }
    destruct R as (item & In & Ev).
    destruct (find_history_Some _ _ _ In Ev) as (r & Er & Hr & Evr).
    exists r. split; [exact Hr|]. split; [exact Evr|]. simpl. rewrite Er.
    split; [reflexivity|]. intros snapshot ->. reflexivity.
Qed.

Lemma getVersion_clamps_witness :
  getVersion (engine := flat_engine) test_options no_faults tank_changed (tank "large")
    (SemVer 5 0 0) true
  = getVersion (engine := flat_engine) test_options no_faults tank_changed (tank "large")
      (SemVer 1 0 0) true
  ∧ getVersion (engine := flat_engine) test_options no_faults tank_changed (tank "large")
      (MkSemVer 0 0 0 (Some 0%N)) true
    = getVersion (engine := flat_engine) test_options no_faults tank_changed
        (tank "large") (SemVer 0 0 0) true.
Proof.
  split.
  - refine (proj1 (getVersion_clamps (engine := flat_engine) test_options no_faults
                     tank_changed (tank "large") (histories tank_changed)
                     (default ∅ (head (histories tank_changed)))
                     (default ∅ (last (histories tank_changed)))
                     (SemVer 0 0 0) (SemVer 1 0 0) (SemVer 5 0 0) true _ _ _ _ _) _);
      reflexivity.
  - refine (proj1 (proj2 (getVersion_clamps (engine := flat_engine) test_options
                     no_faults
                     tank_changed (tank "large") (histories tank_changed)
                     (default ∅ (head (histories tank_changed)))
                     (default ∅ (last (histories tank_changed)))
                     (SemVer 0 0 0) (SemVer 1 0 0) (MkSemVer 0 0 0 (Some 0%N)) true
                     _ _ _ _ _)) _);
      reflexivity.
Defined.

(** With records, [getVersion] throws as soon as no record carries the
    clamped target. *)
Lemma getVersion_then_unrecorded {engine : DiffEngine} (histories : list lean)
    (firstVersion lastVersion : lean) (firstv lastv v : semver) :
  head histories = Some firstVersion → last histories = Some lastVersion →
  lean_version firstVersion = Ok firstv → lean_version lastVersion = Ok lastv →
  Forall (λ item, well_formed item = true) histories →
  Forall (λ item : lean, item !! "version" ≠ Some (VVersion (clamp firstv lastv v)))
         histories →
  getVersion_then histories v true = Throw TypeError.
Proof.
  intros Eh El Ef Ell W F.
  rewrite (getVersion_then_clamp _ _ _ _ _ _ _ Eh El Ef Ell). simpl.
  destruct (replay_to (clamp firstv lastv v) ∅ histories) as [o|e] eqn:R; simpl.
  - rewrite (find_history_None _ _ F). reflexivity.
  - f_equal. by eapply replay_to_throws.
Qed.

(** C4.  [getVersion] throws when the entity has no history record.  With
    records it also throws whenever no record carries the clamped target,
    which is every requested version between the earliest and the latest
    that is not recorded: with the records 0.0.0 and 1.0.0 and the version
    0.5.0, [history] stays [undefined] and [delete result.diff] throws. *)
Theorem getVersion_throws_between_versions :
  (∀ (engine : DiffEngine) pluginOptions faults w this v includeObject,
     getDiffs pluginOptions faults w this oldest_first = Ok [] →
     getVersion pluginOptions faults w this v includeObject = Throw TypeError)
  ∧ (∀ (engine : DiffEngine) pluginOptions faults w this histories
       firstVersion lastVersion firstv lastv v,
       getDiffs pluginOptions faults w this oldest_first = Ok histories →
       head histories = Some firstVersion → last histories = Some lastVersion →
       lean_version firstVersion = Ok firstv → lean_version lastVersion = Ok lastv →
       Forall (λ item, well_formed item = true) histories →
       Forall (λ item : lean,
                 item !! "version" ≠ Some (VVersion (clamp firstv lastv v))) histories →
       getVersion pluginOptions faults w this v true = Throw TypeError)
  ∧ (∃ histories,
       getDiffs test_options no_faults tank_changed (tank "large") oldest_first
       = Ok histories
       ∧ List.map lean_version histories = [Ok (SemVer 0 0 0); Ok (SemVer 1 0 0)])
  ∧ getVersion (engine := flat_engine) test_options no_faults tank_changed (tank "large")
      (SemVer 0 5 0) true = Throw TypeError.
Proof.
  split_and!.
  - intros. by apply getVersion_no_history.
  - intros engine pluginOptions faults w this histories firstVersion lastVersion
      firstv lastv v Eq Eh El Ef Ell W F.
    rewrite (getVersion_unfold pluginOptions _ _ _ _ _ _ Eq).
    by eapply getVersion_then_unrecorded.
  - eexists. split; reflexivity.
  - reflexivity.
Qed.

(** C9.  [compareVersions(a, b)] replays each of the two versions with
    [getVersion] and answers as soon as both replays answer: the two
    snapshots, the diff of the engine between them, which patched onto the
    left snapshot gives the right one, and the same with the two versions
    exchanged.  It does not answer for any two versions: a version between
    two recorded ones makes [getVersion] throw, and with the records 0.0.0
    and 1.0.0 [compareVersions('0.5.0', '1.0.0')] throws. *)
Theorem compareVersions_patch :
  (∀ (engine : DiffEngine) pluginOptions faults w this a b l r,
     getVersion pluginOptions faults w this a true = Ok (Some l) →
     getVersion pluginOptions faults w this b true = Ok (Some r) →
     ∃ c c',
       compareVersions pluginOptions faults w this a b = Ok c
       ∧ l !! "object" = Some (VObj (cr_left c))
       ∧ r !! "object" = Some (VObj (cr_right c))
       ∧ cr_diff c = jdf_diff (cr_left c) (cr_right c)
       ∧ jdf_patch_opt (cr_left c) (cr_diff c) = Some (cr_right c)
       ∧ compareVersions pluginOptions faults w this b a = Ok c'
       ∧ cr_left c' = cr_right c ∧ cr_right c' = cr_left c)
  ∧ (∀ (engine : DiffEngine) pluginOptions faults w this a b c,
       compareVersions pluginOptions faults w this a b = Ok c →
       ∃ l r, getVersion pluginOptions faults w this a true = Ok (Some l)
              ∧ getVersion pluginOptions faults w this b true = Ok (Some r))
  ∧ (∃ histories,
       getDiffs test_options no_faults tank_changed (tank "large") oldest_first
       = Ok histories
       ∧ List.map lean_version histories = [Ok (SemVer 0 0 0); Ok (SemVer 1 0 0)])
  ∧ compareVersions (engine := flat_engine) test_options no_faults tank_changed
      (tank "large") (SemVer 0 5 0) (SemVer 1 0 0) = Throw TypeError
  ∧ compareVersions (engine := flat_engine) test_options no_faults tank_changed
      (tank "large") (SemVer 1 0 0) (SemVer 0 0 0)
    = Ok {| cr_diff := Some {[ "size" := JArr [JStr "large"; JStr "small"] ]};
            cr_left := {[ "_id" := JStr "7"; "size" := JStr "large" ]};
            cr_right := {[ "_id" := JStr "7"; "size" := JStr "small" ]} |}.
Proof.
  split_and!.
  - intros engine pluginOptions faults w this a b l r El Er.
    assert (Ol : ∃ o, l !! "object" = Some (VObj o) ∧ object_or_empty l = o).
    { unfold getVersion in El.
      destruct (getDiffs pluginOptions faults w this _) as [histories|]; [|discriminate].
      by eapply getVersion_then_object. }
    assert (Or : ∃ o, r !! "object" = Some (VObj o) ∧ object_or_empty r = o).
    { unfold getVersion in Er.
      destruct (getDiffs pluginOptions faults w this _) as [histories|]; [|discriminate].
      by eapply getVersion_then_object. }
    destruct Ol as (ol & Eol & Eol'), Or as (or & Eor & Eor').
    exists {| cr_diff := jdf_diff ol or; cr_left := ol; cr_right := or |},
      {| cr_diff := jdf_diff or ol; cr_left := or; cr_right := ol |}.
    unfold compareVersions. rewrite El, Er. simpl. rewrite Eol', Eor'.
    split_and!; try reflexivity; try assumption.
    apply jdf_patch_opt_diff.
  - intros engine pluginOptions faults w this a b c E. unfold compareVersions in E.
    destruct (getVersion pluginOptions faults w this a true) as [[l|]|]; simpl in E;
      try discriminate;
      destruct (getVersion pluginOptions faults w this b true) as [[r|]|]; simpl in E;
      try discriminate.
    eauto.
  - eexists. split; reflexivity.
  - reflexivity.
  - reflexivity.
Qed.

(** ** The order of the store *)

Section sorting.
Variable field : string.

Lemma elem_of_insert_descending (doc : lean) (sorted : list lean) (x : lean) :
  x ∈ insert_descending field doc sorted ↔ x = doc ∨ x ∈ sorted.
Proof.
  induction sorted as [|d rest IH]; simpl.
  - rewrite list_elem_of_singleton, elem_of_nil. tauto.
  - destruct (sort_key field doc <? sort_key field d)%nat.
    + rewrite !elem_of_cons, IH. tauto.
    + rewrite !elem_of_cons. tauto.
Qed.

Lemma elem_of_sort_descending (docs : list lean) (x : lean) :
  x ∈ sort_descending field docs ↔ x ∈ docs.
Proof.
  induction docs as [|doc rest IH]; simpl; [reflexivity|].
  rewrite elem_of_insert_descending, elem_of_cons, IH. reflexivity.
Qed.

Lemma elem_of_store_sort (order : sort_order) (docs : list lean) (x : lean) :
  x ∈ store_sort field order docs ↔ x ∈ docs.
Proof.
  destruct order; simpl; [rewrite elem_of_reverse|]; apply elem_of_sort_descending.
Qed.

Lemma length_insert_descending (doc : lean) (sorted : list lean) :
  List.length (insert_descending field doc sorted) = S (List.length sorted).
Proof.
  induction sorted as [|d rest IH]; simpl; [reflexivity|].
  destruct (sort_key field doc <? sort_key field d)%nat; simpl; congruence.
Qed.

Lemma length_sort_descending (docs : list lean) :
  List.length (sort_descending field docs) = List.length docs.
Proof.
  induction docs as [|doc rest IH]; simpl; [reflexivity|].
  rewrite length_insert_descending. congruence.
Qed.

Lemma length_store_sort (order : sort_order) (docs : list lean) :
  List.length (store_sort field order docs) = List.length docs.
Proof.
  destruct order; simpl; [rewrite length_reverse|]; apply length_sort_descending.
Qed.

(** A record that is older than every record of a sorted list goes to
    its end, and one that is newer to its front. *)
Lemma insert_descending_oldest (doc : lean) (sorted : list lean) :
  Forall (λ d, (sort_key field doc < sort_key field d)%nat) sorted →
  insert_descending field doc sorted = sorted ++ [doc].
Proof.
  induction 1 as [|d rest L F IH]; simpl; [reflexivity|].
  apply Nat.ltb_lt in L. rewrite L, IH. reflexivity.
Qed.

(** Records written at different times, later ones later, are sorted in
    the reverse of their order. *)
Lemma sort_descending_increasing (docs : list lean) :
  StronglySorted (λ a b, (sort_key field a < sort_key field b)%nat) docs →
  sort_descending field docs = reverse docs.
Proof.
  induction 1 as [|doc rest Srt IH F]; simpl; [reflexivity|].
  rewrite IH, reverse_cons. apply insert_descending_oldest.
  apply Forall_forall. intros d Hd. rewrite elem_of_reverse in Hd.
  rewrite List.Forall_forall in F. apply F. exact (proj1 (list_elem_of_In _ _) Hd).
Qed.

Lemma store_sort_increasing (order : sort_order) (docs : list lean) :
  StronglySorted (λ a b, (sort_key field a < sort_key field b)%nat) docs →
  store_sort field order docs
  = match order with Ascending => docs | Descending => reverse docs end.
Proof.
  intros Srt. destruct order; simpl; rewrite (sort_descending_increasing _ Srt);
    [apply reverse_involutive|reflexivity].
Qed.

(** A record newer than all the others is sorted first. *)
Lemma sort_descending_newest (docs : list lean) (r : lean) :
  Forall (λ d, (sort_key field d < sort_key field r)%nat) docs →
  sort_descending field (docs ++ [r]) = r :: sort_descending field docs.
Proof.
  induction 1 as [|doc rest L F IH]; simpl; [reflexivity|].
  rewrite IH. simpl. apply Nat.ltb_lt in L. rewrite L. reflexivity.
Qed.

Lemma StronglySorted_filter {A : Type} (R : A → A → Prop) (p : A → bool) (l : list A) :
  StronglySorted R l → StronglySorted R (List.filter p l).
Proof.
  induction 1 as [|x l Srt IH F]; simpl; [constructor|].
  destruct (p x); [|exact IH]. constructor; [exact IH|].
  rewrite List.Forall_forall in *. intros y Hy.
  apply List.filter_In in Hy as [Hy _]. by apply F.
Qed.
End sorting.

(** ** Projections *)

Lemma keeps_excluded (select : gmap string Z) (k : string) :
  select !! k = Some 0%Z → keeps select k = false.
Proof.
  intros E. unfold keeps, includes, excludes.
  destruct (inclusion_mode select).
  - rewrite E. simpl. destruct (String.eqb_spec k "_id") as [->|]; [|reflexivity].
    rewrite E. reflexivity.
  - rewrite E. reflexivity.
Qed.

Lemma mongo_project_excluded (select : gmap string Z) (doc : lean) (k : string) :
  select !! k = Some 0%Z → mongo_project select doc !! k = None.
Proof.
  intros E. unfold mongo_project. apply map_lookup_filter_None. right.
  intros v _. simpl. rewrite (keeps_excluded _ _ E). discriminate.
Qed.

Lemma matches_lookup (filter doc : lean) (k : string) (v : jsval) :
  matches filter doc = true → filter !! k = Some v → doc !! k = Some v.
Proof.
  unfold matches. intros M E. apply bool_decide_eq_true in M. exact (M k v E).
Qed.

Lemma matches_intro (filter doc : lean) :
  (∀ k v, filter !! k = Some v → doc !! k = Some v) → matches filter doc = true.
Proof. intros M. unfold matches. apply bool_decide_eq_true. exact M. Qed.

Section projections.
Variable pluginOptions : PluginOptions.

Lemma assign_exclusions_lookup (select : gmap string Z) :
  assign_exclusions select !! "_id" = Some 0%Z
  ∧ assign_exclusions select !! "collectionId" = Some 0%Z
  ∧ assign_exclusions select !! "collectionName" = Some 0%Z.
Proof. unfold assign_exclusions. split_and!; by simplify_map_eq. Qed.

(** What [queryHistory] answers is made of records of the collection that
    match the filter, projected when a projection is given. *)
Lemma queryHistory_answer (faults : Faults) (w : World) (method : query_method)
    (options : QueryOptions) (docs : list lean) (d : lean) :
  queryHistory pluginOptions faults w method options = Ok docs → d ∈ docs →
  ∃ stored, stored ∈ histories w
            ∧ matches (default ∅ (q_find options)) stored = true
            ∧ d = match q_select options with
                  | Some select => mongo_project (assign_exclusions select) stored
                  | None => stored
                  end.
Proof.
  unfold queryHistory. intros E In.
  set (found := List.filter _ (histories w)) in E.
  set (sorted := match q_sort options with
                 | Some order => store_sort (timestampFieldName pluginOptions) order found
                 | None => found
                 end) in E.
  set (limited := match q_limit options with
                  | Some (S n) => take (S n) sorted | _ => sorted end) in E.
  set (answer := match method with Find => limited | FindOne => take 1 limited end) in E.
  assert (Ha : ∀ x, x ∈ answer → x ∈ histories w
                     ∧ matches (default ∅ (q_find options)) x = true).
  { intros x Hx.
    assert (x ∈ limited) as Hl.
    { subst answer. destruct method; [exact Hx|].
      exact (subseteq_take _ _ _ Hx). }
    assert (x ∈ sorted) as Hs.
    { subst limited. destruct (q_limit options) as [[|n]|]; try exact Hl.
      exact (subseteq_take _ _ _ Hl). }
    assert (x ∈ found) as Hf.
    { subst sorted. destruct (q_sort options) as [order|]; [|exact Hs].
      by apply elem_of_store_sort in Hs. }
    subst found. apply list_elem_of_In, filter_In in Hf as [Hin Hm].
    split; [by apply list_elem_of_In|exact Hm]. }
  destruct (fail_find faults); [discriminate|].
  destruct (q_select options) as [select|].
  - destruct (projection_valid (assign_exclusions select)); [|discriminate].
    injection E as <-. apply list_elem_of_fmap in In as (stored & -> & Hs).
    destruct (Ha _ Hs). eauto.
  - injection E as <-. destruct (Ha _ In). eauto.
Qed.
End projections.

Lemma getDiff_answer (pluginOptions : PluginOptions) (faults : Faults) (w : World)
    (this : Document) (version : semver) (options : QueryOptions) (d : lean) :
  getDiff pluginOptions faults w this version options = Ok (Some d) →
  ∃ docs find,
    queryHistory pluginOptions faults w FindOne
      {| q_find := Some (<["version" := VVersion version]> find);
         q_select := q_select options;
         q_sort := Some (default Descending (q_sort options));
         q_limit := q_limit options |} = Ok docs
    ∧ find !! "collectionId" = Some (VOid (doc_id this))
    ∧ find !! "collectionName" = Some (VStr (getModelName pluginOptions (doc_model this)))
    ∧ d ∈ docs.
Proof.
  unfold getDiff. intros E.
  match type of E with head <$> ?q = _ => destruct q as [docs|] eqn:Eq end;
    [|discriminate].
  simpl in E. injection E as E.
  eexists docs, _. split_and!; [exact Eq| | |by apply head_elem].
  - by simplify_map_eq.
  - by simplify_map_eq.
Qed.

(** C10.  When the query options of [getDiffs] or [getDiff] carry a
    [select] projection, the projection handed to the store excludes [_id],
    [collectionId] and [collectionName], whatever the caller asked for, and
    no record that is answered has one of these fields.  Without a [select]
    projection the records are answered as they are stored, with the three
    fields. *)
Theorem select_hides_identity (pluginOptions : PluginOptions) (faults : Faults)
    (w : World) (this : Document) (version : semver) (options : QueryOptions) :
  (∀ select, q_select options = Some select →
     (assign_exclusions select !! "_id" = Some 0%Z
      ∧ assign_exclusions select !! "collectionId" = Some 0%Z
      ∧ assign_exclusions select !! "collectionName" = Some 0%Z)
     ∧ (∀ docs d, getDiffs pluginOptions faults w this options = Ok docs → d ∈ docs →
                  hides_identity d)
     ∧ (∀ d, getDiff pluginOptions faults w this version options = Ok (Some d) →
             hides_identity d))
  ∧ (q_select options = None →
     Forall (λ stored : lean, is_Some (stored !! "_id")) (histories w) →
     (∀ docs d, getDiffs pluginOptions faults w this options = Ok docs → d ∈ docs →
                d ∈ histories w ∧ shows_identity pluginOptions this d)
     ∧ (∀ d, getDiff pluginOptions faults w this version options = Ok (Some d) →
             d ∈ histories w ∧ shows_identity pluginOptions this d)).
Proof.
  split.
  - intros select Es. split; [apply assign_exclusions_lookup|].
    destruct (assign_exclusions_lookup select) as (E1 & E2 & E3).
    assert (Hh : ∀ stored, hides_identity (mongo_project (assign_exclusions select) stored)).
    { intros stored. unfold hides_identity. split_and!; by apply mongo_project_excluded. }
    split.
    + intros docs d E In. unfold getDiffs in E.
      destruct (queryHistory_answer _ _ _ _ _ _ _ E In) as (stored & _ & _ & ->).
      simpl. rewrite Es. apply Hh.
    + intros d E. destruct (getDiff_answer _ _ _ _ _ _ _ E) as (docs & find & Eq & _ & _ & In).
      destruct (queryHistory_answer _ _ _ _ _ _ _ Eq In) as (stored & _ & _ & ->).
      simpl. rewrite Es. apply Hh.
  - intros Es Hid. rewrite Forall_forall in Hid. split.
    + intros docs d E In. unfold getDiffs in E.
      destruct (queryHistory_answer _ _ _ _ _ _ _ E In) as (stored & Hs & M & ->).
      simpl in *. rewrite Es. split; [exact Hs|].
      split_and!; [by apply Hid| |];
        (eapply matches_lookup; [exact M|by simplify_map_eq]).
    + intros d E. destruct (getDiff_answer _ _ _ _ _ _ _ E) as (docs & find & Eq & F1 & F2 & In).
      destruct (queryHistory_answer _ _ _ _ _ _ _ Eq In) as (stored & Hs & M & ->).
      simpl in *. rewrite Es. split; [exact Hs|].
      split_and!; [by apply Hid| |];
        (eapply matches_lookup; [exact M|]); rewrite lookup_insert_ne by discriminate;
        assumption.
Qed.

(** With the projection [{diff: 0}] the two records of the changed tank are
    answered with their version and timestamp only. *)
Lemma select_hides_identity_witness :
  ∃ docs,
    getDiffs test_options no_faults tank_changed (tank "large")
      {| q_find := None; q_select := Some {[ "diff" := 0%Z ]}; q_sort := None;
         q_limit := None |} = Ok docs
    ∧ length docs = 2%nat
    ∧ Forall hides_identity docs.
Proof.
  eexists. split; [reflexivity|]. split; [reflexivity|].
  apply Forall_forall. intros d In.
  refine (proj1 (proj2 (proj1 (select_hides_identity test_options no_faults tank_changed
            (tank "large") (SemVer 0 0 0)
            {| q_find := None; q_select := Some {[ "diff" := 0%Z ]}; q_sort := None;
               q_limit := None |}) _ eq_refl)) _ d _ In).
  reflexivity.
Defined.

(** ** Writing a record *)

Lemma distinct_fields_check (pluginOptions : PluginOptions) :
  bool_decide (NoDup (schema_paths pluginOptions)) = true →
  distinct_fields pluginOptions.
Proof. intros E. apply bool_decide_eq_true in E. exact E. Qed.

Ltac fields_ne D :=
  unfold distinct_fields, schema_paths in D;
  repeat match type of D with
         | NoDup (_ :: _) =>
             let N := fresh "N" in apply NoDup_cons in D as [N D]
         end;
  repeat match goal with
         | N : _ ∉ _ :: _ |- _ =>
             let E := fresh "E" in apply not_elem_of_cons in N as [E N]
         end.

Ltac lookup_fields :=
  repeat first
    [ rewrite lookup_insert_eq
    | rewrite lookup_insert_ne by congruence
    | rewrite lookup_empty ].

Section writing.
Context {engine : DiffEngine}.
Variable pluginOptions : PluginOptions.
Hypothesis distinct : distinct_fields pluginOptions.

Lemma lookup_delete_undefined (o : lean) (k : string) :
  delete_undefined o !! k = (o !! k) ≫= persisted.
Proof.
  unfold delete_undefined. destruct (o !! k) as [v|] eqn:E; simpl.
  - destruct (decide (v = VUndefined)) as [->|Hv].
    + apply map_lookup_filter_None. right. intros v' E'. simpl. congruence.
    + transitivity (Some v); [|by destruct v].
      apply map_lookup_filter_Some. split; [exact E|exact Hv].
  - apply map_lookup_filter_None. left. exact E.
Qed.

Lemma history_object_collectionName this currentDiff lastHistory :
  history_object pluginOptions this currentDiff lastHistory !! "collectionName"
  = Some (VStr (getModelName pluginOptions (doc_model this))).
Proof.
  pose proof distinct as D. fields_ne D.
  unfold history_object. rewrite lookup_delete_undefined.
  destruct (doc_history this); lookup_fields; reflexivity.
Qed.

Lemma history_object_collectionId this currentDiff lastHistory :
  history_object pluginOptions this currentDiff lastHistory !! "collectionId"
  = Some (VOid (doc_id this)).
Proof.
  pose proof distinct as D. fields_ne D.
  unfold history_object. rewrite lookup_delete_undefined.
  destruct (doc_history this); lookup_fields; reflexivity.
Qed.

Lemma history_object_diff this currentDiff lastHistory :
  history_object pluginOptions this currentDiff lastHistory !! "diff"
  = Some (VObj (default ∅ currentDiff)).
Proof.
  pose proof distinct as D. fields_ne D.
  unfold history_object. rewrite lookup_delete_undefined.
  destruct (doc_history this); lookup_fields; reflexivity.
Qed.

Lemma version_value_defined (v : semver) : version_value v ≠ VUndefined.
Proof. unfold version_value. destruct (semver_valid v); discriminate. Qed.

Lemma history_object_version this currentDiff lastHistory :
  history_object pluginOptions this currentDiff lastHistory !! "version"
  = Some (default (VVersion (SemVer 0 0 0))
            (last ← lastHistory;
             semver_inc_js (js_get last "version")
               (default Major (doc_history this ≫= hm_type)))).
Proof.
  unfold history_object. rewrite lookup_delete_undefined.
  lookup_fields. simpl.
  destruct lastHistory as [last|]; simpl; [|reflexivity].
  unfold semver_inc_js. destruct (js_get last "version"); try reflexivity.
  simpl. pose proof (version_value_defined
                       (semver_inc v (default Major (doc_history this ≫= hm_type)))) as N.
  destruct (version_value _); simpl; congruence.
Qed.

(** The record that is stored keeps every property of [obj] but [_id] and
    the timestamp. *)
Lemma new_HistoryModel_lookup (w : World) (o : lean) (k : string) :
  k ≠ "_id" → k ≠ timestampFieldName pluginOptions →
  new_HistoryModel pluginOptions w o !! k = o !! k.
Proof.
  intros N1 N2. unfold new_HistoryModel.
  rewrite !lookup_insert_ne by congruence. reflexivity.
Qed.

Lemma new_HistoryModel_id (w : World) (o : lean) :
  new_HistoryModel pluginOptions w o !! "_id"
  = Some (VOid (N.of_nat (List.length (histories w)))).
Proof.
  pose proof distinct as D. fields_ne D. unfold new_HistoryModel.
  lookup_fields. reflexivity.
Qed.
End writing.

(** ** The commit policy *)

Section policy.
Context {engine : DiffEngine}.
Variable pluginOptions : PluginOptions.

Lemma preSave_then_no_faults (forceSave : bool) (w : World) (this : Document)
    (previous : option obj) :
  preSave_then pluginOptions forceSave no_faults w this previous =
  if persists pluginOptions this previous
  then (append_history w (history_of pluginOptions forceSave w this previous), clear_history this, Ok ())
  else (w, this, Ok ()).
Proof.
  unfold preSave_then, persists, history_of, recorded_diff, lastHistory_of.
  unfold find_lastHistory, HistoryModel_save. simpl.
  destruct (saveWithoutDiff pluginOptions this) eqn:S; simpl.
  - rewrite !orb_true_r. destruct forceSave; reflexivity.
  - rewrite !orb_false_r. reflexivity.
Qed.

Lemma getPrevious_no_faults (w : World) (this : Document) :
  ∃ previous, getPrevious pluginOptions no_faults w this = Ok previous.
Proof.
  unfold getPrevious. destruct (embeddedDocument pluginOptions); simpl; eauto.
Qed.

Lemma append_neq (l : list lean) (r : lean) : l ≠ l ++ [r].
Proof.
  intros E. apply (f_equal (@List.length lean)) in E.
  rewrite length_app in E. simpl in E. lia.
Qed.

Lemma find_lastHistory_Ok (faults : Faults) (w : World) (this : Document)
    (lastHistory : option lean) :
  find_lastHistory pluginOptions faults w this = Ok lastHistory →
  lastHistory = lastHistory_of pluginOptions w this.
Proof.
  unfold lastHistory_of, find_lastHistory. simpl.
  destruct (fail_findOne faults); [discriminate|]. by intros [= <-].
Qed.

(** Whatever the store does, a record that [preSave] appends is built by
    [history_object] from the document and the last record of its
    entity. *)
Lemma preSave_appended (forceSave : bool) (faults : Faults) (w w' : World)
    (this this' : Document) (next : result ()) (r : lean) :
  preSave pluginOptions forceSave faults w this = (w', this', next) →
  histories w' = histories w ++ [r] →
  ∃ currentDiff,
    r = new_HistoryModel pluginOptions w
          (history_object pluginOptions this currentDiff (lastHistory_of pluginOptions w this)).
Proof.
  intros E Eh.
  assert (Hno : ∀ x y, (w, x, y) = (w', this', next) → False).
  { intros x y [= <- _ _]. exact (append_neq _ _ Eh). }
  unfold preSave in E.
  destruct (bool_decide (is_Some (doc_history this)) || noEventSave pluginOptions);
    [|exfalso; by eapply Hno].
  destruct (getPrevious pluginOptions faults w this) as [previous|];
    [|exfalso; by eapply Hno].
  unfold preSave_then in E.
  match type of E with (if ?c then _ else _) = _ => destruct c end;
    [|exfalso; by eapply Hno].
  destruct (find_lastHistory pluginOptions faults w this) as [lastHistory|] eqn:Ef;
    [|exfalso; by eapply Hno].
  apply find_lastHistory_Ok in Ef as ->.
  unfold HistoryModel_save in E. destruct (fail_save faults); [exfalso; by eapply Hno|].
  injection E as <- _ _. simpl in Eh. apply app_inj_tail in Eh as [_ <-]. eauto.
Qed.
End policy.


(** ** The no-diff-methods rule on a forced commit *)

(** C7 as stated fails.  With [noDiffSaveOnMethods: ['']] and the method
    tag [''], which is in the list, [method && ...] is false: the deletion
    of the large tank is recorded with the structural diff
    [{size: ['small', 'large']}], not with the stored state. *)
Lemma empty_method_tag_records_diff :
  (λ r : lean, r !! "diff")
    <$> histories
          (preSave (engine := flat_engine) empty_method_options true no_faults tank_saved
             (with_history (tank "large") (method_only ""))).1.1
  = [ Some (VObj {[ "_id" := JArr [JStr "7"]; "size" := JArr [JStr "small"] ]});
      Some (VObj {[ "size" := JArr [JStr "small"; JStr "large"] ]}) ]
  ∧ ¬ records_snapshot (engine := flat_engine) empty_method_options tank_saved
        (with_history (tank "large") (method_only "")).
Proof.
  split; [by_evaluation|].
  intros C.
  destruct (C (method_only "") "" eq_refl eq_refl ltac:(apply list_elem_of_here))
    as (previous & r & Ep & Ew & Ed).
  change (Ok (entities tank_saved !! ("tank", 7%N)) = Ok previous) in Ep.
  injection Ep as <-.
  apply (f_equal histories) in Ew. simpl in Ew.
  assert (Er : default ∅ (last (histories
                 (preSave (engine := flat_engine) empty_method_options true no_faults
                    tank_saved (with_history (tank "large") (method_only ""))).1.1))
               = r).
  { rewrite Ew, last_snoc. reflexivity. }
  subst r. refute Ed.
Qed.

(** C7 (amended).  On a forced commit, when the method tag of the pending
    metadata is a non-empty string of the no-diff-methods list, the record
    that is written has the whole normalized previous state as its diff. *)
Theorem forced_commit_records_snapshot {engine : DiffEngine}
    (pluginOptions : PluginOptions) (w : World) (this : Document)
    (h : HistoryMetadata) (m : string) :
  distinct_fields pluginOptions →
  doc_history this = Some h →
  hm_get h (methodFieldName pluginOptions) = VStr m →
  m ≠ "" →
  m ∈ noDiffSaveOnMethods pluginOptions →
  ∃ previous r,
    getPrevious pluginOptions no_faults w this = Ok previous
    ∧ preSave pluginOptions true no_faults w this
      = (append_history w r, clear_history this, Ok ())
    ∧ r !! "diff" = Some (VObj (normalize pluginOptions (default ∅ previous))).
Proof.
  intros D Eh Em Hm In.
  assert (S : saveWithoutDiff pluginOptions this = true).
  { unfold saveWithoutDiff. rewrite Eh.
    destruct (noDiffSaveOnMethods pluginOptions) as [|x l] eqn:El; [inversion In|].
    rewrite Em. simpl. unfold includes_method. rewrite El.
    rewrite bool_decide_eq_true_2 by exact In.
    destruct (String.eqb_spec m ""); [contradiction|reflexivity]. }
  destruct (getPrevious_no_faults pluginOptions w this) as [previous Ep].
  exists previous, (history_of pluginOptions true w this previous).
  split; [exact Ep|]. split.
  - unfold preSave. rewrite Eh, Ep. simpl. rewrite preSave_then_no_faults.
    unfold persists. rewrite S, orb_true_r. reflexivity.
  - pose proof D as D'. fields_ne D'. unfold history_of.
    rewrite new_HistoryModel_lookup by congruence.
    rewrite history_object_diff by exact D.
    unfold recorded_diff. rewrite S. reflexivity.
Qed.

Lemma forced_commit_records_snapshot_witness :
  ∃ r,
    preSave (engine := flat_engine) test_options true no_faults tank_saved
      (with_history (tank "large") (method_only "delete"))
    = (append_history tank_saved r,
       clear_history (with_history (tank "large") (method_only "delete")), Ok ())
    ∧ r !! "diff" = Some (VObj {[ "_id" := JStr "7"; "size" := JStr "small" ]}).
Proof.
  destruct (forced_commit_records_snapshot (engine := flat_engine) test_options
              tank_saved (with_history (tank "large") (method_only "delete"))
              (method_only "delete") "delete")
    as (previous & r & Ep & Er & Ed).
  - apply distinct_fields_check. reflexivity.
  - reflexivity.
  - reflexivity.
  - discriminate.
  - apply list_elem_of_here.
  - exists r. split; [exact Er|].
    change (Ok (entities tank_saved !! ("tank", 7%N)) = Ok previous) in Ep.
    injection Ep as <-. rewrite Ed. reflexivity.
Defined.

(** ** The metadata of a record *)

(** C8 as stated fails.  The record takes the account of the document
    itself, which comes first in
    [docWithAccount[accountFieldName] || this.__history[accountFieldName]]. *)
Lemma account_of_document_wins :
  (λ r : lean, r !! "account")
    <$> histories
          (preSave (engine := flat_engine) test_options false no_faults empty_world
             tank_of_account).1.1
  = [ Some (VOid 1) ]
  ∧ ¬ metadata_copied (engine := flat_engine) test_options false empty_world
        tank_of_account.
Proof.
  split; [by_evaluation|].
  intros C.
  destruct (preSave (engine := flat_engine) test_options false no_faults empty_world
              tank_of_account) as [[w' this'] next] eqn:E.
  assert (Eh : ∃ r, histories w' = histories empty_world ++ [r]
                    ∧ r !! accountFieldName test_options = Some (VOid 1)).
  { apply (f_equal (λ x, histories x.1.1)) in E. simpl in E. rewrite <- E.
    eexists. split; reflexivity. }
  destruct Eh as (r & Eh & Ea).
  destruct (C _ _ _ _ r eq_refl E Eh) as (_ & _ & _ & _ & Ec & _).
  rewrite Ea in Ec. refute Ec.
Qed.

Section metadata.
Context {engine : DiffEngine}.
Variable pluginOptions : PluginOptions.
Hypothesis distinct : distinct_fields pluginOptions.

Lemma hm_get_event h : hm_get h "event" = from_option VStr VUndefined (hm_event h).
Proof. reflexivity. Qed.

Lemma hm_get_reason h : hm_get h "reason" = from_option VStr VUndefined (hm_reason h).
Proof. reflexivity. Qed.

Lemma hm_get_data h : hm_get h "data" = from_option VObj VUndefined (hm_data h).
Proof. reflexivity. Qed.

Lemma history_object_metadata this h currentDiff lastHistory :
  doc_history this = Some h →
  let o := history_object pluginOptions this currentDiff lastHistory in
  o !! "event" = persisted (hm_get h "event")
  ∧ o !! "reason" = persisted (hm_get h "reason")
  ∧ o !! "data" = persisted (hm_get h "data")
  ∧ o !! userFieldName pluginOptions
    = persisted (hm_get h (userFieldName pluginOptions))
  ∧ o !! accountFieldName pluginOptions
    = persisted (js_or (js_get (doc_props this) (accountFieldName pluginOptions))
                       (hm_get h (accountFieldName pluginOptions)))
  ∧ o !! methodFieldName pluginOptions
    = persisted (hm_get h (methodFieldName pluginOptions)).
Proof.
  intros Eh. pose proof distinct as D. fields_ne D.
  unfold history_object. rewrite Eh.
  rewrite hm_get_event, hm_get_reason, hm_get_data.
  cbv zeta. rewrite !lookup_delete_undefined.
  split_and!; lookup_fields; reflexivity.
Qed.

Lemma new_HistoryModel_defined (w : World) (o : lean) (k : string) :
  new_HistoryModel pluginOptions w (delete_undefined o) !! k ≠ Some VUndefined.
Proof.
  unfold new_HistoryModel.
  destruct (decide (timestampFieldName pluginOptions = k)) as [->|N1].
  { rewrite lookup_insert_eq. discriminate. }
  rewrite lookup_insert_ne by exact N1.
  destruct (decide ("_id" = k)) as [<-|N2].
  { rewrite lookup_insert_eq. discriminate. }
  rewrite lookup_insert_ne by exact N2.
  rewrite lookup_delete_undefined.
  destruct (o !! k) as [[]|]; simpl; discriminate.
Qed.
End metadata.

(** C8 (amended).  When a record is written with pending metadata present,
    its event, reason, data, user and method fields are those of the pending
    metadata, its account field is the account of the document itself or,
    when the document has none, the account of the pending metadata, and a
    field whose value is [undefined] is not a property of the record: no
    property of the record is [undefined]. *)
Theorem record_metadata {engine : DiffEngine} (pluginOptions : PluginOptions)
    (forceSave : bool) (faults : Faults) (w w' : World) (this this' : Document)
    (next : result ()) (h : HistoryMetadata) (r : lean) :
  distinct_fields pluginOptions →
  doc_history this = Some h →
  preSave pluginOptions forceSave faults w this = (w', this', next) →
  histories w' = histories w ++ [r] →
  r !! "event" = persisted (hm_get h "event")
  ∧ r !! "reason" = persisted (hm_get h "reason")
  ∧ r !! "data" = persisted (hm_get h "data")
  ∧ r !! userFieldName pluginOptions = persisted (hm_get h (userFieldName pluginOptions))
  ∧ r !! accountFieldName pluginOptions
    = persisted (js_or (js_get (doc_props this) (accountFieldName pluginOptions))
                       (hm_get h (accountFieldName pluginOptions)))
  ∧ r !! methodFieldName pluginOptions
    = persisted (hm_get h (methodFieldName pluginOptions))
  ∧ ∀ k, r !! k ≠ Some VUndefined.
Proof.
  intros D Eh E Ea.
  destruct (preSave_appended _ _ _ _ _ _ _ _ _ E Ea) as (currentDiff & ->).
  pose proof (history_object_metadata pluginOptions D this h currentDiff
                (lastHistory_of pluginOptions w this) Eh)
    as (M1 & M2 & M3 & M4 & M5 & M6).
  pose proof D as D'. fields_ne D'.
  rewrite !new_HistoryModel_lookup by congruence.
  split_and!; try assumption.
  intros k. unfold history_object. apply new_HistoryModel_defined.
Qed.

Lemma record_metadata_witness :
  ∃ r,
    histories (preSave (engine := flat_engine) test_options false no_faults empty_world
                 tank_of_account).1.1 = [r]
    ∧ r !! "event" = Some (VStr "created")
    ∧ r !! "reason" = None
    ∧ r !! "user" = Some (VOid 9)
    ∧ r !! "account" = Some (VOid 1).
Proof.
  destruct (preSave (engine := flat_engine) test_options false no_faults empty_world
              tank_of_account) as [[w' this'] next] eqn:E.
  assert (Eh : ∃ r, histories w' = histories empty_world ++ [r]).
  { apply (f_equal (λ x, histories x.1.1)) in E. simpl in E. rewrite <- E.
    eexists. reflexivity. }
  destruct Eh as [r Eh]. exists r.
  destruct (record_metadata (engine := flat_engine) test_options false no_faults
              empty_world w' tank_of_account this' next
              {| hm_event := Some "created"; hm_type := None; hm_reason := None;
                 hm_data := None;
                 hm_other := {[ "user" := VOid 9; "account" := VOid 2 ]} |} r)
    as (M1 & M2 & _ & M4 & M5 & _).
  - apply distinct_fields_check. reflexivity.
  - reflexivity.
  - exact E.
  - exact Eh.
  - split; [exact Eh|]. split; [exact M1|]. split; [exact M2|].
    split; [exact M4|exact M5].
Defined.

(** ** A failing look-up of the previous state *)

(** C6 as stated fails.  For a top-level document a rejected [findById]
    reaches [.catch(next)]: the save of the small tank fails and no record is
    written. *)
Lemma findById_failure_is_fatal :
  preSave (engine := flat_engine) test_options false findById_fails empty_world
    (tank "small") = (empty_world, tank "small", Throw StoreError)
  ∧ ¬ lookup_failure_recovered (engine := flat_engine) test_options false
        findById_fails empty_world (tank "small").
Proof.
  split; [reflexivity|].
  intros C. specialize (C eq_refl). refute C.
Qed.

(** C6 (amended).  When the hook attempts a commit: for an embedded
    document a replay of the previous state that throws is taken as the
    previous state [{}], and the hook calls [next()] without an error when
    the later store operations work; for a top-level document a look-up that
    finds no stored document is taken as no previous state, and a look-up
    that is rejected is handed to [next] as its error, nothing being
    written. *)
Theorem previous_lookup_failure {engine : DiffEngine} (pluginOptions : PluginOptions)
    (forceSave : bool) (faults : Faults) (w : World) (this : Document) :
  bool_decide (is_Some (doc_history this)) || noEventSave pluginOptions = true →
  (embeddedDocument pluginOptions = true →
   (∀ e, getVersions pluginOptions faults w this no_query_options true = Throw e →
         preSave pluginOptions forceSave faults w this
         = preSave_then pluginOptions forceSave faults w this (Some ∅))
   ∧ (fail_findOne faults = false → fail_save faults = false →
      (preSave pluginOptions forceSave faults w this).2 = Ok ()))
  ∧ (embeddedDocument pluginOptions = false →
     (fail_findById faults = false →
      entities w !! (doc_model this, doc_id this) = None →
      preSave pluginOptions forceSave faults w this
      = preSave_then pluginOptions forceSave faults w this None)
     ∧ (fail_findById faults = true →
        preSave pluginOptions forceSave faults w this = (w, this, Throw StoreError))).
Proof.
  intros G. unfold preSave. rewrite G. unfold getPrevious. split; intros ->.
  - split.
    + intros e ->. reflexivity.
    + intros F1 F2. simpl. unfold preSave_then.
      match goal with |- (if ?c then _ else _).2 = _ => destruct c end; [|reflexivity].
      unfold find_lastHistory, HistoryModel_save. rewrite F1, F2. reflexivity.
  - split.
    + intros -> ->. reflexivity.
    + intros ->. reflexivity.
Qed.

Lemma previous_lookup_failure_witness :
  preSave (engine := flat_engine) embedded_options false find_fails tank_saved
    (tank "large")
  = preSave_then (engine := flat_engine) embedded_options false find_fails tank_saved
      (tank "large") (Some ∅)
  ∧ (preSave (engine := flat_engine) embedded_options false find_fails tank_saved
       (tank "large")).2 = Ok ().
Proof.
  destruct (proj1 (previous_lookup_failure (engine := flat_engine) embedded_options false
                     find_fails tank_saved (tank "large") eq_refl) eq_refl) as [P1 P2].
  split.
  - apply (P1 StoreError). reflexivity.
  - apply P2; reflexivity.
Defined.

(** ** The records of one entity *)

Section records.
Context {engine : DiffEngine}.
Variable pluginOptions : PluginOptions.
Hypothesis distinct : distinct_fields pluginOptions.

(** The answer of [getDiffs] without filter, projection and limit. *)
Lemma getDiffs_sorted (w : World) (this : Document) (order : sort_order) :
  getDiffs pluginOptions no_faults w this
    {| q_find := None; q_select := None; q_sort := Some order; q_limit := None |}
  = Ok (store_sort (timestampFieldName pluginOptions) order
          (entity_records pluginOptions w this)).
Proof. reflexivity. Qed.

(** Where the records carry different dates in the order of the
    collection, the sorts are that order and its reverse. *)
Lemma entity_records_stamps (w : World) (this : Document) :
  distinct_stamps pluginOptions w →
  StronglySorted
    (λ a b : lean,
       (sort_key (timestampFieldName pluginOptions) a
        < sort_key (timestampFieldName pluginOptions) b)%nat)
    (entity_records pluginOptions w this).
Proof. intros Srt. unfold entity_records. by apply StronglySorted_filter. Qed.

Lemma newest_first_records (w : World) (this : Document) :
  distinct_stamps pluginOptions w →
  sort_descending (timestampFieldName pluginOptions) (entity_records pluginOptions w this)
  = reverse (entity_records pluginOptions w this).
Proof. intros Srt. apply sort_descending_increasing. by apply entity_records_stamps. Qed.

Lemma oldest_first_records (w : World) (this : Document) :
  distinct_stamps pluginOptions w →
  store_sort (timestampFieldName pluginOptions) Ascending
    (entity_records pluginOptions w this)
  = entity_records pluginOptions w this.
Proof.
  intros Srt. simpl. rewrite (newest_first_records _ _ Srt). apply reverse_involutive.
Qed.

Lemma getDiffs_oldest_first (w : World) (this : Document) :
  distinct_stamps pluginOptions w →
  getDiffs pluginOptions no_faults w this oldest_first
  = Ok (entity_records pluginOptions w this).
Proof.
  intros Srt. unfold oldest_first. rewrite getDiffs_sorted.
  by rewrite oldest_first_records.
Qed.

Lemma matches_entity_filter (this : Document) (d : lean) :
  matches (entity_filter pluginOptions this) d = true ↔
  d !! "collectionName" = Some (VStr (getModelName pluginOptions (doc_model this)))
  ∧ d !! "collectionId" = Some (VOid (doc_id this)).
Proof.
  split.
  - intros M. unfold entity_filter in M. split.
    + apply (matches_lookup _ _ "collectionName" _ M).
      rewrite lookup_insert_ne by discriminate. apply lookup_insert_eq.
    + apply (matches_lookup _ _ "collectionId" _ M). apply lookup_insert_eq.
  - intros [E1 E2]. apply matches_intro. intros k v. unfold entity_filter.
    intros E. apply lookup_insert_Some in E as [[<- <-]|[_ E]]; [exact E2|].
    apply lookup_insert_Some in E as [[<- <-]|[_ E]]; [exact E1|].
    rewrite lookup_empty in E. discriminate.
Qed.

Lemma entity_records_append (w : World) (r : lean) (this : Document) :
  entity_records pluginOptions (append_history w r) this
  = entity_records pluginOptions w this
    ++ (if matches (entity_filter pluginOptions this) r then [r] else []).
Proof. unfold entity_records. simpl. rewrite List.filter_app. reflexivity. Qed.

(** The record written for a document belongs to it and to no other
    entity. *)
Lemma history_of_matches (forceSave : bool) (w : World) (this that : Document)
    (previous : option obj) :
  matches (entity_filter pluginOptions that)
          (history_of pluginOptions forceSave w this previous)
  = bool_decide (same_entity pluginOptions this that).
Proof.
  pose proof distinct as D. fields_ne D.
  assert (Hname : history_of pluginOptions forceSave w this previous !! "collectionName"
               = Some (VStr (getModelName pluginOptions (doc_model this)))).
  { unfold history_of. rewrite new_HistoryModel_lookup by congruence.
    by apply history_object_collectionName. }
  assert (Hid : history_of pluginOptions forceSave w this previous !! "collectionId"
               = Some (VOid (doc_id this))).
  { unfold history_of. rewrite new_HistoryModel_lookup by congruence.
    by apply history_object_collectionId. }
  destruct (bool_decide (same_entity pluginOptions this that)) eqn:B.
  - apply bool_decide_eq_true in B as [B1 B2].
    apply matches_entity_filter. rewrite Hname, Hid, B1, B2. done.
  - apply bool_decide_eq_false in B.
    destruct (matches _ _) eqn:M; [|reflexivity].
    apply matches_entity_filter in M as [M1 M2]. exfalso. apply B.
    rewrite Hname in M1. rewrite Hid in M2. split; congruence.
Qed.

Lemma history_of_diff (forceSave : bool) (w : World) (this : Document)
    (previous : option obj) :
  history_of pluginOptions forceSave w this previous !! "diff"
  = Some (VObj (default ∅ (recorded_diff pluginOptions forceSave this previous))).
Proof.
  pose proof distinct as D. fields_ne D. unfold history_of.
  rewrite new_HistoryModel_lookup by congruence. by apply history_object_diff.
Qed.

Lemma history_of_version (forceSave : bool) (w : World) (this : Document)
    (previous : option obj) :
  history_of pluginOptions forceSave w this previous !! "version"
  = Some (default (VVersion (SemVer 0 0 0))
            (last ← lastHistory_of pluginOptions w this;
             semver_inc_js (js_get last "version")
               (default Major (doc_history this ≫= hm_type)))).
Proof.
  pose proof distinct as D. fields_ne D. unfold history_of.
  rewrite new_HistoryModel_lookup by congruence. by apply history_object_version.
Qed.

(** The record is stamped with the time of the save. *)
Lemma history_of_stamp (forceSave : bool) (w : World) (this : Document)
    (previous : option obj) :
  sort_key (timestampFieldName pluginOptions)
           (history_of pluginOptions forceSave w this previous)
  = S (clock w).
Proof.
  unfold sort_key, history_of, new_HistoryModel. rewrite lookup_insert_eq. reflexivity.
Qed.

(** The last record is looked up with the projection [{version: 1}],
    which keeps the version; it is the first record of the descending
    sort. *)
Lemma lastHistory_of_version (w : World) (this : Document) :
  lastHistory_of pluginOptions w this ≫= (λ last, Some (js_get last "version"))
  = head (sort_descending (timestampFieldName pluginOptions)
            (entity_records pluginOptions w this))
    ≫= (λ l, Some (js_get l "version")).
Proof.
  unfold lastHistory_of, find_lastHistory. simpl.
  fold (entity_filter pluginOptions this). fold (entity_records pluginOptions w this).
  destruct (head _) as [l|]; [|reflexivity].
  simpl. f_equal. unfold js_get, mongo_project. f_equal.
  destruct (l !! "version") as [v|] eqn:E.
  - apply map_lookup_filter_Some. split; [exact E|]. reflexivity.
  - apply map_lookup_filter_None. left. exact E.
Qed.
End records.

(** ** Replays *)

Section replaying.
Context {engine : DiffEngine}.
Variable pluginOptions : PluginOptions.

Lemma object_or_empty_attach (item : lean) (o : obj) :
  object_or_empty (attach_object item o) = o.
Proof.
  unfold object_or_empty, attach_object. rewrite lookup_delete_ne by discriminate.
  rewrite lookup_insert_eq. reflexivity.
Qed.

(** The loop of [getVersions] answers when the replay does, each record
    with the state after it. *)
Lemma getVersions_loop_replay (histories : list lean) (cur : obj) :
  getVersions_loop cur histories
  = (λ states, zip_with attach_object histories states) <$> replay_states cur histories.
Proof.
  revert cur. induction histories as [|item rest IH]; intros cur; simpl; [reflexivity|].
  destruct (patch_item cur item) as [state|e]; simpl; [|reflexivity].
  rewrite IH. destruct (replay_states state rest); reflexivity.
Qed.

Lemma replay_states_length (cur : obj) (histories : list lean) (states : list obj) :
  replay_states cur histories = Ok states → List.length states = List.length histories.
Proof.
  revert cur states. induction histories as [|item rest IH]; intros cur states; simpl.
  - intros [= <-]. reflexivity.
  - destruct (patch_item cur item) as [state|]; simpl; [|discriminate].
    destruct (replay_states state rest) as [states'|] eqn:E; simpl; [|discriminate].
    intros [= <-]. simpl. f_equal. by eapply IH.
Qed.

Lemma replay_last (cur : obj) (histories : list lean) :
  replay cur histories
  = (λ states, default cur (last states)) <$> replay_states cur histories.
Proof.
  revert cur. induction histories as [|item rest IH]; intros cur; simpl; [reflexivity|].
  destruct (patch_item cur item) as [state|e]; simpl; [|reflexivity].
  rewrite IH. destruct (replay_states state rest) as [states|]; simpl; [|reflexivity].
  rewrite last_cons. destruct (last states); reflexivity.
Qed.

Lemma replay_states_snoc (cur : obj) (histories : list lean) (item : lean) :
  replay_states cur (histories ++ [item])
  = (states ← replay_states cur histories;
     state ← patch_item (default cur (last states)) item;
     Ok (states ++ [state])).
Proof.
  revert cur. induction histories as [|x rest IH]; intros cur; simpl.
  - destruct (patch_item cur item); reflexivity.
  - destruct (patch_item cur x) as [state|e]; simpl; [|reflexivity].
    rewrite IH. destruct (replay_states state rest) as [states|]; simpl; [|reflexivity].
    rewrite last_cons.
    replace (default cur match last states with Some y => Some y | None => Some state end)
      with (default state (last states)) by (destruct (last states); reflexivity).
    destruct (patch_item _ item); reflexivity.
Qed.

(** The state after the record at position [i] is the replay of the
    records up to it. *)
Lemma replay_states_lookup (cur : obj) (histories : list lean) (states : list obj)
    (i : nat) (state : obj) :
  replay_states cur histories = Ok states → states !! i = Some state →
  replay cur (take (S i) histories) = Ok state.
Proof.
  revert cur states i. induction histories as [|item rest IH]; intros cur states i.
  - intros [= <-]. discriminate.
  - change (replay_states cur (item :: rest))
      with (first ← patch_item cur item; states ← replay_states first rest;
            Ok (first :: states)).
    change (replay cur (take (S i) (item :: rest)))
      with (first ← patch_item cur item; replay first (take i rest)).
    destruct (patch_item cur item) as [first|]; [|discriminate].
    change (match replay_states first rest with
            | Ok states' => Ok (first :: states')
            | Throw e => Throw e
            end = Ok states → states !! i = Some state →
            replay first (take i rest) = Ok state).
    destruct (replay_states first rest) as [states'|] eqn:E; [|discriminate].
    intros [= <-]. destruct i as [|i].
    + intros [= <-]. reflexivity.
    + intros Ei. by eapply IH.
Qed.

Lemma objects_of_attach (histories : list lean) (states : list obj) :
  List.length states = List.length histories →
  objects_of (zip_with attach_object histories states)
  = (λ o, Some (VObj o)) <$> states.
Proof.
  revert states. induction histories as [|item rest IH]; intros [|state states]; simpl;
    try discriminate; [reflexivity|].
  intros [= L]. unfold objects_of in *. simpl. rewrite (IH _ L). f_equal.
  unfold attach_object. rewrite lookup_delete_ne by discriminate. apply lookup_insert_eq.
Qed.

Lemma last_attach (cur : obj) (histories : list lean) (states : list obj) :
  List.length states = List.length histories →
  match last (zip_with attach_object histories states) with
  | Some v => object_or_empty v
  | None => cur
  end = default cur (last states).
Proof.
  revert cur states. induction histories as [|item rest IH]; intros cur [|state states];
    simpl; try discriminate; [reflexivity|].
  intros [= L]. rewrite !last_cons. specialize (IH state states L).
  destruct (last (zip_with attach_object rest states)) as [v|] eqn:E1,
    (last states) as [s|] eqn:E2; simpl in *; try exact IH.
  - apply last_None in E1. destruct rest, states; discriminate.
  - apply object_or_empty_attach.
Qed.

Lemma getVersions_default (w : World) (this : Document) :
  distinct_stamps pluginOptions w →
  getVersions pluginOptions no_faults w this no_query_options true
  = getVersions_loop ∅ (entity_records pluginOptions w this).
Proof.
  intros Srt.
  transitivity (histories ← getDiffs pluginOptions no_faults w this oldest_first;
                getVersions_loop ∅ histories); [reflexivity|].
  rewrite (getDiffs_oldest_first pluginOptions w this Srt). reflexivity.
Qed.

(** *** Normalization *)

Lemma lookup_foldl_delete (fields : list string) (o : obj) (k : string) :
  foldl (λ acc field, delete field acc) o fields !! k
  = if bool_decide (k ∈ fields) then None else o !! k.
Proof.
  revert o. induction fields as [|f fields IH]; intros o; simpl.
  - reflexivity.
  - rewrite IH. destruct (decide (k = f)) as [->|N].
    + rewrite lookup_delete_eq.
      rewrite (bool_decide_eq_true_2 (f ∈ f :: fields)) by apply list_elem_of_here.
      destruct (bool_decide (f ∈ fields)); reflexivity.
    + rewrite lookup_delete_ne by congruence.
      destruct (bool_decide (k ∈ fields)) eqn:B.
      * apply bool_decide_eq_true in B.
        rewrite bool_decide_eq_true_2; [reflexivity|]. by apply list_elem_of_further.
      * apply bool_decide_eq_false in B.
        rewrite bool_decide_eq_false_2; [reflexivity|].
        intros In. apply elem_of_cons in In as [?|?]; contradiction.
Qed.

Lemma lookup_normalize (o : obj) (k : string) :
  normalize pluginOptions o !! k
  = if bool_decide (k ∈ "__history" :: "__v" :: ignore pluginOptions)
    then None else o !! k.
Proof.
  unfold normalize.
  change (delete "__v" (delete "__history" o))
    with (foldl (λ acc field, delete field acc) o ["__history"; "__v"]).
  rewrite <- foldl_app. apply lookup_foldl_delete.
Qed.

Lemma normalize_idemp (o : obj) :
  normalize pluginOptions (normalize pluginOptions o) = normalize pluginOptions o.
Proof.
  apply map_eq. intros k. rewrite !lookup_normalize.
  destruct (bool_decide _); reflexivity.
Qed.

Lemma normalize_empty : normalize pluginOptions ∅ = ∅.
Proof.
  apply map_eq. intros k. rewrite lookup_normalize, lookup_empty.
  destruct (bool_decide _); reflexivity.
Qed.

(** *** The effect of one save *)

Lemma previous_of_top_level (w : World) (this : Document) :
  embeddedDocument pluginOptions = false →
  previous_of pluginOptions w this = entities w !! (doc_model this, doc_id this).
Proof. intros E. unfold previous_of, getPrevious. rewrite E. reflexivity. Qed.

(** The previous state of an embedded document is the last state of the
    replay of its records, and [{}] when the replay throws. *)
Lemma previous_of_embedded (w : World) (this : Document) :
  embeddedDocument pluginOptions = true →
  distinct_stamps pluginOptions w →
  previous_of pluginOptions w this
  = Some match replay_states ∅ (entity_records pluginOptions w this) with
         | Ok states => default ∅ (last states)
         | Throw _ => ∅
         end.
Proof.
  intros E Srt. unfold previous_of, getPrevious.
  rewrite E, (getVersions_default _ _ Srt), getVersions_loop_replay.
  destruct (replay_states ∅ (entity_records pluginOptions w this)) as [states|] eqn:R;
    simpl; [|reflexivity].
  rewrite last_attach; [reflexivity|]. by eapply replay_states_length.
Qed.

Lemma getPrevious_previous_of (w : World) (this : Document) :
  getPrevious pluginOptions no_faults w this = Ok (previous_of pluginOptions w this).
Proof.
  unfold previous_of.
  destruct (getPrevious_no_faults pluginOptions w this) as [p ->]. reflexivity.
Qed.

Lemma save_world (w : World) (this : Document) :
  (save pluginOptions no_faults w this).1.1
  = let w' :=
      if commits pluginOptions w this
      then append_history w
             (history_of pluginOptions false w this (previous_of pluginOptions w this))
      else w in
    {| histories := histories w';
       entities := <[(doc_model this, doc_id this) := doc_json this]> (entities w');
       clock := clock w' |}.
Proof.
  unfold save, preSave, commits. rewrite getPrevious_previous_of.
  destruct (bool_decide (is_Some (doc_history this)) || noEventSave pluginOptions);
    simpl; [|reflexivity].
  rewrite preSave_then_no_faults.
  destruct (persists pluginOptions this (previous_of pluginOptions w this)); reflexivity.
Qed.

Lemma save_histories (w : World) (this : Document) :
  histories (save pluginOptions no_faults w this).1.1
  = histories w
    ++ (if commits pluginOptions w this
        then [history_of pluginOptions false w this (previous_of pluginOptions w this)]
        else []).
Proof.
  rewrite save_world. simpl.
  destruct (commits pluginOptions w this); simpl; [reflexivity|].
  rewrite app_nil_r. reflexivity.
Qed.

Lemma save_entities (w : World) (this : Document) :
  entities (save pluginOptions no_faults w this).1.1
  = <[(doc_model this, doc_id this) := doc_json this]> (entities w).
Proof.
  rewrite save_world. simpl. destruct (commits pluginOptions w this); reflexivity.
Qed.

Lemma save_clock (w : World) (this : Document) :
  clock (save pluginOptions no_faults w this).1.1 = clock w.
Proof.
  rewrite save_world. simpl. destruct (commits pluginOptions w this); reflexivity.
Qed.

Lemma entity_records_same (w : World) (this that : Document) :
  same_entity pluginOptions this that →
  entity_records pluginOptions w this = entity_records pluginOptions w that.
Proof.
  intros [E1 E2]. unfold entity_records, entity_filter. rewrite E1, E2. reflexivity.
Qed.
End replaying.

(** ** The order of the timestamps *)

Section stamps.
Context {engine : DiffEngine}.
Variable pluginOptions : PluginOptions.

Lemma StronglySorted_snoc {A : Type} (R : A → A → Prop) (l : list A) (x : A) :
  StronglySorted R l → Forall (λ y, R y x) l → StronglySorted R (l ++ [x]).
Proof.
  induction 1 as [|a l Srt IH F]; intros L; simpl.
  - repeat constructor.
  - apply Forall_cons in L as [La L]. constructor; [by apply IH|].
    apply List.Forall_app. split; [exact F|]. by repeat constructor.
Qed.

(** A save at a time later than every record keeps the dates different. *)
Lemma distinct_stamps_save (w : World) (this : Document) :
  stamped_in_order pluginOptions w →
  distinct_stamps pluginOptions (save pluginOptions no_faults w this).1.1.
Proof.
  intros [Srt B]. unfold distinct_stamps. rewrite save_histories.
  destruct (commits pluginOptions w this); [|by rewrite app_nil_r].
  apply StronglySorted_snoc; [exact Srt|].
  eapply Forall_impl; [exact B|]. intros r L. simpl in L.
  rewrite history_of_stamp. lia.
Qed.

Lemma stamped_in_order_save (w : World) (this : Document) :
  stamped_in_order pluginOptions w →
  stamped_in_order pluginOptions (tick (save pluginOptions no_faults w this).1.1).
Proof.
  intros I. split; [exact (distinct_stamps_save w this I)|].
  destruct I as [_ B]. simpl. rewrite save_histories, save_clock.
  apply Forall_app. split.
  - eapply Forall_impl; [exact B|]. intros r L. simpl in L. lia.
  - destruct (commits pluginOptions w this); [|constructor].
    constructor; [|constructor]. rewrite history_of_stamp. lia.
Qed.

(** After any sequence of saves from the empty store the records are in the
    order of their timestamps. *)
Lemma stamped_in_order_save_all (docs : list Document) (w : World) :
  stamped_in_order pluginOptions w →
  stamped_in_order pluginOptions (save_all pluginOptions w docs).
Proof.
  revert w. induction docs as [|this rest IH]; intros w I; simpl; [exact I|].
  apply IH. by apply stamped_in_order_save.
Qed.

Lemma stamped_in_order_empty : stamped_in_order pluginOptions empty_world.
Proof. split; constructor. Qed.
End stamps.

(** ** Version allocation *)

Section allocation.
Context {engine : DiffEngine}.
Variable pluginOptions : PluginOptions.
Hypothesis distinct : distinct_fields pluginOptions.

(** The version of the record [preSave] writes, from the record that comes
    first when the entity's records are sorted by timestamp, the most
    recent first. *)
Lemma history_of_recent_version (forceSave : bool) (w : World) (this : Document)
    (previous : option obj) :
  history_of pluginOptions forceSave w this previous !! "version"
  = Some (default (VVersion (SemVer 0 0 0))
            (prior ← head (sort_descending (timestampFieldName pluginOptions)
                             (entity_records pluginOptions w this));
             semver_inc_js (js_get prior "version")
               (default Major (doc_history this ≫= hm_type)))).
Proof.
  rewrite (history_of_version pluginOptions distinct). do 2 f_equal.
  pose proof (lastHistory_of_version pluginOptions w this) as L.
  destruct (lastHistory_of pluginOptions w this) as [lh|],
    (head (sort_descending _ (entity_records pluginOptions w this))) as [prior|];
    simpl in *; congruence.
Qed.

(** Where the dates differ that record is the last one of the entity. *)
Lemma history_of_prior_version (forceSave : bool) (w : World) (this : Document)
    (previous : option obj) :
  distinct_stamps pluginOptions w →
  history_of pluginOptions forceSave w this previous !! "version"
  = Some (default (VVersion (SemVer 0 0 0))
            (prior ← last (entity_records pluginOptions w this);
             semver_inc_js (js_get prior "version")
               (default Major (doc_history this ≫= hm_type)))).
Proof.
  intros Srt.
  rewrite history_of_recent_version, (newest_first_records _ _ _ Srt), head_reverse.
  reflexivity.
Qed.

Lemma version_value_valid (v : semver) :
  semver_valid v = true → version_value v = VVersion v.
Proof. unfold version_value. by intros ->. Qed.

Lemma semver_valid_below (n : N) (v : semver) :
  version_below n v → (n ≤ max_safe_integer)%N → semver_valid v = true.
Proof.
  destruct v as [major minor patch pre]. unfold version_below, semver_valid. simpl.
  intros (-> & ? & ? & ?) ?. simpl.
  rewrite !(proj2 (N.leb_le _ _)) by lia. reflexivity.
Qed.

Lemma version_below_mono (n m : N) (v : semver) :
  (n ≤ m)%N → version_below n v → version_below m v.
Proof. unfold version_below. intros ? (? & ? & ? & ?). repeat split; [done|lia..]. Qed.

Lemma semver_inc_below (n : N) (v : semver) (release : release_type) :
  version_below n v → version_below (n + 1) (semver_inc v release).
Proof.
  destruct v as [major minor patch pre]. unfold version_below. simpl.
  intros (-> & ? & ? & ?). unfold semver_inc. simpl.
  rewrite ?andb_false_r.
  destruct release; simpl; repeat split; lia.
Qed.

(** While the numbers stay safe integers the record carries a version,
    the increment of the version of the entity's last record. *)
Lemma history_of_next_version (forceSave : bool) (w : World) (this : Document)
    (previous : option obj) :
  distinct_stamps pluginOptions w → room_for 1 w → counted_versions w →
  ∃ v,
    history_of pluginOptions forceSave w this previous !! "version" = Some (VVersion v)
    ∧ version_below (N.of_nat (List.length (histories w)) + 1) v
    ∧ ∀ prior vp,
        last (entity_records pluginOptions w this) = Some prior →
        prior !! "version" = Some (VVersion vp) →
        v = semver_inc vp (default Major (doc_history this ≫= hm_type)).
Proof.
  intros Srt Room C. rewrite (history_of_prior_version _ _ _ _ Srt).
  unfold room_for in Room. rewrite Nat2N.inj_add in Room. simpl in Room.
  destruct (last (entity_records pluginOptions w this)) as [prior|] eqn:Ep; simpl.
  - assert (In : prior ∈ histories w).
    { apply last_elem in Ep. unfold entity_records in Ep.
      apply list_elem_of_In, filter_In in Ep as [Ep _]. by apply list_elem_of_In. }
    unfold counted_versions in C. rewrite Forall_forall in C.
    destruct (C _ In) as (vp & Evp & B).
    unfold js_get. rewrite Evp. simpl.
    pose proof (semver_inc_below _ _ (default Major (doc_history this ≫= hm_type)) B)
      as B'.
    rewrite (version_value_valid _ (semver_valid_below _ _ B' Room)).
    eexists. split; [reflexivity|]. split; [exact B'|].
    intros prior' vp' [= <-] E'. congruence.
  - exists (SemVer 0 0 0). split; [reflexivity|]. split.
    + unfold version_below. simpl. repeat split; lia.
    + intros prior vp [=].
Qed.


Lemma records_after_save (w : World) (this that : Document) :
  entity_records pluginOptions (save pluginOptions no_faults w this).1.1 that
  = entity_records pluginOptions w that
    ++ (if commits pluginOptions w this
           && bool_decide (same_entity pluginOptions this that)
        then [history_of pluginOptions false w this (previous_of pluginOptions w this)]
        else []).
Proof.
  unfold entity_records. rewrite save_histories, List.filter_app. f_equal.
  destruct (commits pluginOptions w this); simpl; [|reflexivity].
  rewrite (history_of_matches pluginOptions distinct).
  destruct (bool_decide (same_entity pluginOptions this that)); reflexivity.
Qed.



End allocation.

Section ordering.
Context {engine : DiffEngine}.
Variable pluginOptions : PluginOptions.
Hypothesis distinct : distinct_fields pluginOptions.

Lemma Sorted_snoc {A : Type} (R : A → A → Prop) (l : list A) (x : A) :
  Sorted R l → (∀ y, last l = Some y → R y x) → Sorted R (l ++ [x]).
Proof.
  induction 1 as [|a l Srt IH Hd]; intros L; simpl.
  - repeat constructor.
  - constructor.
    + apply IH. intros y Ey. apply L. rewrite last_cons, Ey. reflexivity.
    + destruct Hd as [|b l' Rab]; simpl; constructor; [|exact Rab].
      apply L. reflexivity.
Qed.

Lemma entity_records_well_formed (w : World) (that : Document) :
  Forall (λ item, well_formed item = true) (histories w) →
  Forall (λ item, well_formed item = true) (entity_records pluginOptions w that).
Proof.
  intros W. unfold entity_records. apply Forall_forall. intros x In.
  apply list_elem_of_In, filter_In in In as [In _].
  rewrite Forall_forall in W. apply W. by apply list_elem_of_In.
Qed.

Lemma counted_versions_save (w : World) (this : Document) :
  distinct_stamps pluginOptions w → room_for 1 w → counted_versions w →
  counted_versions (save pluginOptions no_faults w this).1.1.
Proof.
  intros Srt Room C. unfold counted_versions. rewrite save_histories.
  destruct (commits pluginOptions w this); [|by rewrite app_nil_r].
  rewrite length_app. simpl. rewrite Nat2N.inj_add. simpl.
  apply Forall_app. split.
  - eapply Forall_impl; [exact C|]. intros r (v & Ev & B). exists v.
    split; [exact Ev|]. eapply version_below_mono; [|exact B]. lia.
  - constructor; [|constructor].
    destruct (history_of_next_version pluginOptions distinct false w this
                (previous_of pluginOptions w this) Srt Room C) as (v & Ev & B & _).
    eauto.
Qed.

Lemma ascending_versions_save (w : World) (this : Document) :
  distinct_stamps pluginOptions w → room_for 1 w → counted_versions w →
  ascending_versions pluginOptions w →
  ascending_versions pluginOptions (save pluginOptions no_faults w this).1.1.
Proof.
  intros Srt Room C [W A].
  destruct (history_of_next_version pluginOptions distinct false w this
              (previous_of pluginOptions w this) Srt Room C) as (v & Ev & _ & Next).
  split.
  { rewrite save_histories. apply Forall_app. split; [exact W|].
    destruct (commits pluginOptions w this); [|constructor].
    constructor; [|constructor]. unfold well_formed.
    rewrite Ev, (history_of_diff pluginOptions distinct). reflexivity. }
  intros that. rewrite (records_after_save pluginOptions distinct).
  destruct (commits pluginOptions w this
            && bool_decide (same_entity pluginOptions this that)) eqn:Cm;
    [|rewrite app_nil_r; apply A].
  apply andb_prop in Cm as [_ Same]. apply bool_decide_eq_true in Same.
  apply Sorted_snoc; [apply A|]. intros prior Ep.
  rewrite <- (entity_records_same pluginOptions w this that Same) in Ep.
  pose proof (entity_records_well_formed w this W) as Wr.
  rewrite Forall_forall in Wr.
  destruct (well_formed_inv prior (Wr _ (last_elem _ _ Ep))) as (vp & _ & Evp & _).
  exists vp, v. split; [exact Evp|]. split; [exact Ev|].
  rewrite (Next _ _ Ep Evp), <- semver_gt_lt. apply semver_inc_gt.
Qed.

Lemma ascending_versions_save_all (docs : list Document) (w : World) :
  stamped_in_order pluginOptions w → room_for (List.length docs) w →
  counted_versions w → ascending_versions pluginOptions w →
  ascending_versions pluginOptions (save_all pluginOptions w docs).
Proof.
  revert w. induction docs as [|this rest IH]; intros w I Room C A; simpl; [exact A|].
  pose proof (save_histories pluginOptions w this) as Eh.
  assert (Room1 : room_for 1 w) by (unfold room_for in *; simpl in *; lia).
  apply IH.
  - by apply stamped_in_order_save.
  - unfold room_for in *. simpl in *. rewrite Eh, length_app.
    destruct (commits pluginOptions w this); simpl; lia.
  - apply (counted_versions_save w this); [by destruct I|done..].
  - apply (ascending_versions_save w this); [by destruct I|done..].
Qed.

Lemma ascending_versions_empty : ascending_versions pluginOptions empty_world.
Proof. split; [constructor|]. intros that. constructor. Qed.
End ordering.




(** ** Replay reproduces the recorded states *)

Section reproduction.
Context {engine : DiffEngine}.
Variable pluginOptions : PluginOptions.
Hypothesis distinct : distinct_fields pluginOptions.
Hypothesis every_save_attempted :
  noEventSave pluginOptions = true ∨ embeddedDocument pluginOptions = true.

(** The record of a save with a diff patches the normalized previous state
    into the normalized state of the document. *)
Lemma commit_patch (w : World) (this : Document) (previous : option obj) (d : obj) :
  jdf_diff (normalize pluginOptions (default ∅ previous))
           (normalize pluginOptions (doc_json this)) = Some d →
  patch_item (normalize pluginOptions (default ∅ previous))
             (history_of pluginOptions false w this previous)
  = Ok (normalize pluginOptions (doc_json this)).
Proof.
  intros E. unfold patch_item. rewrite (history_of_diff pluginOptions distinct).
  unfold recorded_diff. rewrite andb_false_r, E. simpl.
  by rewrite (jdf_patch_diff _ _ _ E).
Qed.

(** The record of a save without a diff carries the diff [{}], on which the
    engine throws. *)
Lemma commit_patch_throws (w : World) (this : Document) (previous : option obj) :
  jdf_diff (normalize pluginOptions (default ∅ previous))
           (normalize pluginOptions (doc_json this)) = None →
  ∀ cur, patch_item cur (history_of pluginOptions false w this previous)
         = Throw TypeError.
Proof.
  intros E cur. unfold patch_item. rewrite (history_of_diff pluginOptions distinct).
  unfold recorded_diff. rewrite andb_false_r, E. simpl.
  by rewrite jdf_patch_empty.
Qed.

(** Whenever the record of a save patches, the patch is the normalized
    state of the document. *)
Lemma commit_patch_inv (w : World) (this : Document) (previous : option obj)
    (state : obj) :
  patch_item (normalize pluginOptions (default ∅ previous))
             (history_of pluginOptions false w this previous) = Ok state →
  state = normalize pluginOptions (doc_json this).
Proof.
  destruct (jdf_diff (normalize pluginOptions (default ∅ previous))
                     (normalize pluginOptions (doc_json this))) as [d|] eqn:E.
  - rewrite (commit_patch w this previous d E). congruence.
  - rewrite (commit_patch_throws w this previous E). discriminate.
Qed.

Lemma not_persists (this : Document) (previous : option obj) :
  persists pluginOptions this previous = false →
  normalize pluginOptions (default ∅ previous) = normalize pluginOptions (doc_json this).
Proof.
  unfold persists. intros E.
  apply orb_false_elim in E as [E _]. apply orb_false_elim in E as [E _].
  apply bool_decide_eq_false in E. apply jdf_diff_None.
  destruct (jdf_diff _ _); [|reflexivity]. exfalso. apply E. eauto.
Qed.

(** A commit of a save that is not forced by the configuration has a
    diff. *)
Lemma commits_diff (w : World) (this : Document) :
  noDiffSave pluginOptions = false → saveWithoutDiff pluginOptions this = false →
  commits pluginOptions w this = true →
  ∃ d, jdf_diff (normalize pluginOptions (default ∅ (previous_of pluginOptions w this)))
                (normalize pluginOptions (doc_json this)) = Some d.
Proof.
  intros N1 N2 C. unfold commits in C. apply andb_prop in C as [_ P].
  unfold persists in P. rewrite N1, N2, !orb_false_r in P.
  apply bool_decide_eq_true in P as [d P]. eauto.
Qed.

Lemma same_entity_key (this that : Document) :
  embeddedDocument pluginOptions = false →
  same_entity pluginOptions this that
  ↔ (doc_model this, doc_id this) = (doc_model that, doc_id that).
Proof.
  intros E. unfold same_entity, getModelName. rewrite E.
  split; [intros [-> ->]; reflexivity|intros [= -> ->]; done].
Qed.

Lemma replay_invariant_empty : replay_invariant pluginOptions empty_world.
Proof.
  intros that states.
  change (entity_records pluginOptions empty_world that) with (@nil lean).
  simpl. intros [= <-]. simpl.
  destruct (embeddedDocument pluginOptions) eqn:E.
  - rewrite previous_of_embedded by (exact E || constructor).
    apply normalize_empty.
  - rewrite previous_of_top_level by exact E. simpl. rewrite lookup_empty.
    apply normalize_empty.
Qed.

(** The time does not matter to the previous state or to the replay. *)
Lemma replay_invariant_tick (w : World) :
  replay_invariant pluginOptions w → replay_invariant pluginOptions (tick w).
Proof. intros I. exact I. Qed.

(** The states replayed for an entity after a save, when they replay: the
    states replayed before, and the normalized state of the document when
    the save wrote a record for the entity. *)
Lemma replay_states_after_save_inv (w : World) (this that : Document)
    (states' : list obj) :
  replay_invariant pluginOptions w →
  replay_states ∅
    (entity_records pluginOptions (save pluginOptions no_faults w this).1.1 that)
  = Ok states' →
  ∃ states,
    replay_states ∅ (entity_records pluginOptions w that) = Ok states
    ∧ states'
      = states ++ (if commits pluginOptions w this
                      && bool_decide (same_entity pluginOptions this that)
                   then [normalize pluginOptions (doc_json this)] else []).
Proof.
  intros R. rewrite (records_after_save pluginOptions distinct).
  destruct (commits pluginOptions w this
            && bool_decide (same_entity pluginOptions this that)) eqn:C.
  2: { rewrite app_nil_r. intros E. exists states'. by rewrite app_nil_r. }
  apply andb_prop in C as [_ Same]. apply bool_decide_eq_true in Same.
  rewrite <- (entity_records_same pluginOptions w this that Same).
  rewrite replay_states_snoc.
  destruct (replay_states ∅ (entity_records pluginOptions w this)) as [states|] eqn:E;
    simpl; [|discriminate].
  rewrite <- (R this states E).
  destruct (patch_item _ _) as [state|] eqn:P; simpl; [|discriminate].
  intros [= <-]. exists states. split; [reflexivity|]. do 2 f_equal.
  by apply commit_patch_inv in P.
Qed.

Lemma replay_invariant_save (w : World) (this : Document) :
  stamped_in_order pluginOptions w →
  replay_invariant pluginOptions w →
  replay_invariant pluginOptions (save pluginOptions no_faults w this).1.1.
Proof.
  intros Stamps R that states' E'.
  pose proof (distinct_stamps_save pluginOptions w this Stamps) as Srt'.
  destruct Stamps as [Srt _].
  destruct (replay_states_after_save_inv w this that states' R E')
    as (states & E & ->).
  destruct (embeddedDocument pluginOptions) eqn:Emb.
  - rewrite (previous_of_embedded _ _ _ Emb Srt'), E'. simpl.
    destruct (commits pluginOptions w this
              && bool_decide (same_entity pluginOptions this that)).
    + rewrite last_snoc. simpl. apply normalize_idemp.
    + rewrite app_nil_r. pose proof (R that states E) as Rt.
      rewrite (previous_of_embedded _ _ _ Emb Srt), E in Rt. exact Rt.
  - destruct every_save_attempted as [A|A]; [|congruence].
    rewrite previous_of_top_level by exact Emb. rewrite save_entities.
    destruct (bool_decide (same_entity pluginOptions this that)) eqn:Same.
    + apply bool_decide_eq_true in Same.
      pose proof (proj1 (same_entity_key this that Emb) Same) as K.
      rewrite <- K, lookup_insert_eq. simpl.
      rewrite andb_true_r.
      destruct (commits pluginOptions w this) eqn:C.
      * rewrite last_snoc. reflexivity.
      * rewrite app_nil_r.
        unfold commits in C. rewrite A, orb_true_r in C. simpl in C.
        rewrite <- (not_persists _ _ C).
        rewrite <- (entity_records_same pluginOptions w this that Same) in E.
        exact (R this states E).
    + apply bool_decide_eq_false in Same. rewrite andb_false_r, app_nil_r.
      rewrite lookup_insert_ne.
      * rewrite <- (R that states E), previous_of_top_level by exact Emb. reflexivity.
      * intros K. apply Same. by apply same_entity_key.
Qed.

(** A save that stores its diff keeps the records replayable. *)
Lemma replay_states_after_save (w : World) (this that : Document) (states : list obj) :
  noDiffSave pluginOptions = false → saveWithoutDiff pluginOptions this = false →
  replay_invariant pluginOptions w →
  replay_states ∅ (entity_records pluginOptions w that) = Ok states →
  replay_states ∅
    (entity_records pluginOptions (save pluginOptions no_faults w this).1.1 that)
  = Ok (states ++ (if commits pluginOptions w this
                      && bool_decide (same_entity pluginOptions this that)
                   then [normalize pluginOptions (doc_json this)] else [])).
Proof.
  intros N1 N2 R E. rewrite (records_after_save pluginOptions distinct).
  destruct (commits pluginOptions w this) eqn:C; simpl;
    [|by rewrite !app_nil_r].
  destruct (bool_decide (same_entity pluginOptions this that)) eqn:Same;
    [|by rewrite !app_nil_r].
  apply bool_decide_eq_true in Same.
  rewrite <- (entity_records_same pluginOptions w this that Same) in E |- *.
  rewrite replay_states_snoc, E. simpl.
  rewrite <- (R this states E).
  destruct (commits_diff w this N1 N2 C) as [d Ed].
  rewrite (commit_patch w this _ d Ed). reflexivity.
Qed.
End reproduction.

Section trace.
Context {engine : DiffEngine}.
Variable pluginOptions : PluginOptions.
Hypothesis distinct : distinct_fields pluginOptions.
Hypothesis every_save_attempted :
  noEventSave pluginOptions = true ∨ embeddedDocument pluginOptions = true.

Lemma commit_log_cons (w : World) (this : Document) (rest : list Document) :
  commit_log pluginOptions w (this :: rest)
  = (if commits pluginOptions w this
     then [(this, normalize pluginOptions (doc_json this))] else [])
    ++ commit_log pluginOptions (tick (save pluginOptions no_faults w this).1.1) rest.
Proof.
  simpl. f_equal. rewrite save_histories, length_app.
  destruct (commits pluginOptions w this); simpl;
    destruct (decide _) as [L|L]; try reflexivity; lia.
Qed.

Lemma states_of_app (that : Document) (l1 l2 : list (Document * obj)) :
  states_of pluginOptions that (l1 ++ l2)
  = states_of pluginOptions that l1 ++ states_of pluginOptions that l2.
Proof. unfold states_of. rewrite List.filter_app, fmap_app. reflexivity. Qed.

Lemma states_of_commit (w : World) (this that : Document) :
  states_of pluginOptions that
    (if commits pluginOptions w this
     then [(this, normalize pluginOptions (doc_json this))] else [])
  = if commits pluginOptions w this
       && bool_decide (same_entity pluginOptions this that)
    then [normalize pluginOptions (doc_json this)] else [].
Proof.
  unfold states_of.
  destruct (commits pluginOptions w this); simpl; [|reflexivity].
  destruct (bool_decide (same_entity pluginOptions this that)); reflexivity.
Qed.

Lemma replay_invariant_save_all (docs : list Document) (w : World) :
  stamped_in_order pluginOptions w →
  replay_invariant pluginOptions w →
  replay_invariant pluginOptions (save_all pluginOptions w docs).
Proof.
  revert w. induction docs as [|this rest IH]; intros w Stamps I; simpl; [exact I|].
  apply IH; [by apply stamped_in_order_save|].
  apply replay_invariant_tick. by apply replay_invariant_save.
Qed.

(** The states replayed after a sequence of saves, when they replay, are
    the states replayed before it followed by the logged states of the
    entity. *)
Lemma replay_states_save_all_inv (docs : list Document) (w : World) (that : Document)
    (states' : list obj) :
  stamped_in_order pluginOptions w →
  replay_invariant pluginOptions w →
  replay_states ∅ (entity_records pluginOptions (save_all pluginOptions w docs) that)
  = Ok states' →
  ∃ states,
    replay_states ∅ (entity_records pluginOptions w that) = Ok states
    ∧ states' = states ++ states_of pluginOptions that (commit_log pluginOptions w docs).
Proof.
  revert w. induction docs as [|this rest IH]; intros w Stamps I E'.
  - exists states'. split; [exact E'|]. unfold states_of. simpl. by rewrite app_nil_r.
  - rewrite commit_log_cons, states_of_app, states_of_commit.
    simpl in E'.
    destruct (IH _ (stamped_in_order_save pluginOptions w this Stamps)
                (replay_invariant_tick _ _
                   (replay_invariant_save pluginOptions distinct every_save_attempted
                      w this Stamps I)) E')
      as (states1 & E1 & ->).
    destruct (replay_states_after_save_inv pluginOptions distinct w this that states1 I E1)
      as (states & E & ->).
    exists states. split; [exact E|]. by rewrite <- app_assoc.
Qed.

(** Saves that store their diffs keep the records replayable. *)
Lemma replay_states_save_all (docs : list Document) (w : World) (that : Document)
    (states : list obj) :
  noDiffSave pluginOptions = false →
  Forall (λ this, saveWithoutDiff pluginOptions this = false) docs →
  stamped_in_order pluginOptions w →
  replay_invariant pluginOptions w →
  replay_states ∅ (entity_records pluginOptions w that) = Ok states →
  replay_states ∅ (entity_records pluginOptions (save_all pluginOptions w docs) that)
  = Ok (states ++ states_of pluginOptions that (commit_log pluginOptions w docs)).
Proof.
  intros N1 F. revert w states.
  induction F as [|this rest N2 _ IH]; intros w states Stamps I E.
  - simpl. unfold states_of. simpl. by rewrite app_nil_r.
  - rewrite commit_log_cons, states_of_app, states_of_commit, app_assoc.
    simpl. apply IH.
    + by apply stamped_in_order_save.
    + apply replay_invariant_tick. by apply replay_invariant_save.
    + by apply (replay_states_after_save pluginOptions distinct).
Qed.
End trace.

(** C1 as stated fails.  With [noEventSave: false] the save without metadata
    writes no record: version 1.0.0 is recorded when the tank is large, and
    replays as a small tank. *)
Lemma unrecorded_save_breaks_replay :
  answer_objects
    (getVersions (engine := flat_engine) only_events_options no_faults
       (save_all (engine := flat_engine) only_events_options empty_world unrecorded_change)
       named_tank no_query_options true)
  = Some [ Some (VObj {[ "_id" := JStr "7"; "size" := JStr "small" ]});
           Some (VObj {[ "_id" := JStr "7"; "size" := JStr "small"; "name" := JStr "t" ]}) ]
  ∧ states_of only_events_options named_tank
      (commit_log (engine := flat_engine) only_events_options empty_world unrecorded_change)
    = [ {[ "_id" := JStr "7"; "size" := JStr "small" ]};
        {[ "_id" := JStr "7"; "size" := JStr "large"; "name" := JStr "t" ]} ]
  ∧ ¬ replay_reproduces (engine := flat_engine) only_events_options unrecorded_change.
Proof.
  split_and!.
  - by_evaluation.
  - by_evaluation.
  - intros C. destruct (C named_tank) as (versions & Ev & Eo).
    apply (f_equal answer_objects) in Ev.
    change (answer_objects (Ok versions)) with (Some (objects_of versions)) in Ev.
    rewrite Eo in Ev. refute Ev.
Qed.

(** A record without a diff does not replay: with [noDiffSave] the second
    save of an unchanged tank writes the diff [{}], and [getVersions]
    throws. *)
Lemma empty_diff_breaks_replay :
  getVersions (engine := flat_engine) noDiffSave_options no_faults
    (save_all (engine := flat_engine) noDiffSave_options empty_world
       [tank "small"; tank "small"])
    (tank "small") no_query_options true
  = Throw TypeError.
Proof. by_evaluation. Qed.

(** Two records of one millisecond are replayed in the other order: the
    answer of [getVersions] is not the sequence of the saved states. *)
Lemma same_millisecond_breaks_replay :
  answer_objects
    (getVersions (engine := flat_engine) test_options no_faults
       (save_at_once (engine := flat_engine) test_options empty_world
          [tank "small"; tank "large"])
       (tank "small") no_query_options true)
  ≠ Some [ Some (VObj {[ "_id" := JStr "7"; "size" := JStr "small" ]});
           Some (VObj {[ "_id" := JStr "7"; "size" := JStr "large" ]}) ].
Proof. intros E. refute E. Qed.

(** C1 (amended).  Let every save attempt a commit ([noEventSave] is set)
    or the documents be embedded ones, let no save write a record without a
    diff ([noDiffSave] is off and no pending method tag is one of
    [noDiffSaveOnMethods]), and let no two saves happen in the same
    millisecond.  Then after any sequence of saves from the empty store and
    for every entity, [getVersions] answers, and the objects it obtains by
    patching the stored diffs in the order of the records, starting from
    [{}], are the normalized states (without [__history], [__v] and the
    ignored fields) the entity had at each recorded version; and while the
    version numbers are safe integers the versions of the records strictly
    increase in that order. *)
Theorem replay_reproduces_states {engine : DiffEngine} (pluginOptions : PluginOptions)
    (docs : list Document) :
  distinct_fields pluginOptions →
  noEventSave pluginOptions = true ∨ embeddedDocument pluginOptions = true →
  noDiffSave pluginOptions = false →
  Forall (λ this, saveWithoutDiff pluginOptions this = false) docs →
  ((N.of_nat (List.length docs) ≤ max_safe_integer)%N →
   ascending_versions pluginOptions (save_all pluginOptions empty_world docs))
  ∧ replay_reproduces pluginOptions docs.
Proof.
  intros D M N1 F. split.
  { intros Room.
    apply (ascending_versions_save_all pluginOptions D).
    - apply stamped_in_order_empty.
    - exact Room.
    - constructor.
    - apply ascending_versions_empty. }
  intros this.
  pose proof (stamped_in_order_save_all pluginOptions docs empty_world
                (stamped_in_order_empty pluginOptions)) as [Srt _].
  rewrite (getVersions_default _ _ _ Srt), getVersions_loop_replay.
  rewrite (replay_states_save_all pluginOptions D M docs empty_world this [] N1 F
             (stamped_in_order_empty pluginOptions)
             (replay_invariant_empty pluginOptions M)
             eq_refl).
  simpl. eexists. split; [reflexivity|].
  apply objects_of_attach.
  eapply replay_states_length.
  apply (replay_states_save_all pluginOptions D M docs empty_world this [] N1 F
           (stamped_in_order_empty pluginOptions)
           (replay_invariant_empty pluginOptions M)
           eq_refl).
Qed.

Lemma replay_reproduces_states_witness :
  replay_reproduces (engine := flat_engine) test_options [tank "small"; tank "large"]
  ∧ replay_reproduces (engine := flat_engine) embedded_options
      [embedded_tank "small"; embedded_tank "large"].
Proof.
  split.
  - apply replay_reproduces_states.
    + apply distinct_fields_check. reflexivity.
    + left. reflexivity.
    + reflexivity.
    + repeat constructor.
  - apply replay_reproduces_states.
    + apply distinct_fields_check. reflexivity.
    + right. reflexivity.
    + reflexivity.
    + repeat constructor.
Defined.

(** * Further properties of the plugin *)

(** ** Queries *)

(** X1.  Without a [sort] option and without a limit, [getDiffs] answers the
    records newest first: its answer is the reverse of the answer sorted
    ascending by timestamp, the order in which [getVersions] and
    [getVersion] replay. *)
Theorem getDiffs_newest_first (pluginOptions : PluginOptions) (faults : Faults)
    (w : World) (this : Document) (options : QueryOptions) :
  q_sort options = None →
  q_limit options = None ∨ q_limit options = Some 0%nat →
  getDiffs pluginOptions faults w this options
  = answer_map reverse
      (getDiffs pluginOptions faults w this (with_sort options (Some Ascending))).
Proof.
  intros Es El. unfold getDiffs, queryHistory, with_sort. simpl. rewrite Es. simpl.
  assert (L : ∀ l : list lean,
             match q_limit options with Some (S n) => take (S n) l | _ => l end = l).
  { intros l. destruct El as [-> | ->]; reflexivity. }
  rewrite !L. destruct (fail_find faults); [reflexivity|].
  destruct (q_select options) as [select|]; [|simpl; by rewrite reverse_involutive].
  destruct (projection_valid (assign_exclusions select)); [|reflexivity].
  simpl. rewrite <- fmap_reverse, reverse_involutive. reflexivity.
Qed.

Lemma getDiffs_newest_first_witness :
  getDiffs test_options no_faults tank_changed (tank "large") no_query_options
  = answer_map reverse
      (getDiffs test_options no_faults tank_changed (tank "large") oldest_first).
Proof.
  apply (getDiffs_newest_first test_options no_faults tank_changed (tank "large")
           no_query_options).
  - reflexivity.
  - left. reflexivity.
Defined.

(** X2.  A limit [n > 0] keeps the first [n] records of the sorted answer;
    the limit [0] is no limit. *)
Theorem getDiffs_limit (pluginOptions : PluginOptions) (faults : Faults)
    (w : World) (this : Document) (options : QueryOptions) (n : nat) :
  getDiffs pluginOptions faults w this (with_limit options (Some (S n)))
  = answer_map (take (S n))
      (getDiffs pluginOptions faults w this (with_limit options None))
  ∧ getDiffs pluginOptions faults w this (with_limit options (Some 0%nat))
    = getDiffs pluginOptions faults w this (with_limit options None).
Proof.
  split; [|reflexivity].
  unfold getDiffs, queryHistory, with_limit. simpl.
  destruct (fail_find faults); [reflexivity|].
  destruct (q_select options) as [select|]; [|reflexivity].
  destruct (projection_valid (assign_exclusions select)); [|reflexivity].
  simpl. rewrite fmap_take. reflexivity.
Qed.

Lemma matches_insert (filter doc : lean) (k : string) (x : jsval) :
  filter !! k = None →
  matches (<[k := x]> filter) doc
  = bool_decide (doc !! k = Some x) && matches filter doc.
Proof.
  intros Ek. unfold matches.
  destruct (bool_decide (doc !! k = Some x)) eqn:B1; simpl.
  - apply bool_decide_eq_true in B1.
    destruct (bool_decide (map_Forall (λ k v, doc !! k = Some v) filter)) eqn:B2.
    + apply bool_decide_eq_true in B2. apply bool_decide_eq_true.
      by apply map_Forall_insert.
    + apply bool_decide_eq_false in B2. apply bool_decide_eq_false.
      intros F. apply B2. by apply (map_Forall_insert _ _ _ _ Ek) in F as [_ F].
  - apply bool_decide_eq_false in B1. apply bool_decide_eq_false.
    intros F. apply B1. by apply (map_Forall_insert _ _ _ _ Ek) in F as [F _].
Qed.

Lemma filter_andb {A : Type} (p q : A → bool) (l : list A) :
  List.filter (λ x, p x && q x) l = List.filter p (List.filter q l).
Proof.
  induction l as [|x l IH]; simpl; [reflexivity|].
  destruct (q x); simpl; [destruct (p x)|rewrite andb_false_r]; simpl; congruence.
Qed.

Lemma head_take_1 {A : Type} (l : list A) : head (take 1 l) = head l.
Proof. destruct l; reflexivity. Qed.

Lemma find_history_with_version (t : semver) (histories : list lean) :
  find_history t histories = last (with_version t histories).
Proof.
  induction histories as [|x rest IH] using rev_ind; [reflexivity|].
  rewrite find_history_snoc. unfold with_version in *.
  rewrite List.filter_app. simpl.
  destruct (decide (x !! "version" = Some (VVersion t))) as [E|E].
  - rewrite bool_decide_eq_true_2 by exact E. rewrite last_snoc. reflexivity.
  - rewrite bool_decide_eq_false_2 by exact E. rewrite app_nil_r. exact IH.
Qed.

Lemma getDiff_default (pluginOptions : PluginOptions) (w : World)
    (this : Document) (version : semver) :
  getDiff pluginOptions no_faults w this version no_query_options
  = Ok (head (sort_descending (timestampFieldName pluginOptions)
                (with_version version (entity_records pluginOptions w this)))).
Proof.
  unfold getDiff, queryHistory. simpl.
  rewrite head_take_1. do 3 f_equal.
  unfold with_version, entity_records. rewrite <- filter_andb.
  apply List.filter_ext. intros d.
  fold (entity_filter pluginOptions this). apply matches_insert.
  unfold entity_filter. rewrite !lookup_insert_ne by discriminate. apply lookup_empty.
Qed.

(** X3.  With [includeObject] false and at least one record, [getVersion]
    does not throw: it answers the last record that carries the clamped
    target, as it is stored, and [undefined] exactly when no record carries
    it. *)
Theorem getVersion_without_object {engine : DiffEngine} (pluginOptions : PluginOptions)
    (faults : Faults) (w : World) (this : Document) (histories : list lean)
    (firstVersion lastVersion : lean) (firstv lastv v : semver) :
  getDiffs pluginOptions faults w this oldest_first = Ok histories →
  head histories = Some firstVersion → lean_version firstVersion = Ok firstv →
  last histories = Some lastVersion → lean_version lastVersion = Ok lastv →
  getVersion pluginOptions faults w this v false
  = Ok (last (with_version (clamp firstv lastv v) histories)).
Proof.
  intros Eq Eh Ef El Ell.
  rewrite (getVersion_unfold pluginOptions _ _ _ _ _ _ Eq).
  rewrite (getVersion_then_clamp _ _ _ _ _ _ _ Eh El Ef Ell). simpl. f_equal.
  apply find_history_with_version.
Qed.

Lemma getVersion_without_object_witness :
  getVersion (engine := flat_engine) test_options no_faults tank_changed (tank "large")
    (SemVer 0 5 0) false = Ok None
  ∧ getVersion (engine := flat_engine) test_options no_faults tank_changed (tank "large")
      (SemVer 7 0 0) false
    = Ok (last (histories tank_changed)).
Proof.
  split.
  - rewrite (getVersion_without_object (engine := flat_engine) test_options no_faults
               tank_changed (tank "large") (histories tank_changed)
               (default ∅ (head (histories tank_changed)))
               (default ∅ (last (histories tank_changed)))
               (SemVer 0 0 0) (SemVer 1 0 0) (SemVer 0 5 0));
      reflexivity.
  - rewrite (getVersion_without_object (engine := flat_engine) test_options no_faults
               tank_changed (tank "large") (histories tank_changed)
               (default ∅ (head (histories tank_changed)))
               (default ∅ (last (histories tank_changed)))
               (SemVer 0 0 0) (SemVer 1 0 0) (SemVer 7 0 0));
      reflexivity.
Defined.

Lemma matches_insert_delete (filter doc : lean) (k : string) (x : jsval) :
  matches (<[k := x]> filter) doc
  = bool_decide (doc !! k = Some x) && matches (delete k filter) doc.
Proof.
  rewrite <- (insert_delete_eq filter). apply matches_insert. apply lookup_delete_eq.
Qed.

Lemma matches_empty (doc : lean) : matches ∅ doc = true.
Proof. apply bool_decide_eq_true. apply map_Forall_empty. Qed.

(** Records of one millisecond are answered in the order of insertion,
    also by the descending sort: the default answer of [getDiffs] is then
    not the reverse of the collection. *)
Lemma getDiffs_same_millisecond :
  getDiffs test_options no_faults
    (save_at_once (engine := flat_engine) test_options empty_world
       [tank "small"; tank "large"])
    (tank "small") no_query_options
  = Ok (histories
          (save_at_once (engine := flat_engine) test_options empty_world
             [tank "small"; tank "large"])).
Proof. reflexivity. Qed.

(** X4.  The [find] filter of the caller narrows the answer of [getDiffs]
    within the records of the document and cannot widen it: a
    [collectionName] or [collectionId] of the caller is overwritten, the
    other keys select among the records of the document, and the selected
    records are answered sorted by timestamp, newest first unless the
    caller asks for the ascending order.  Where the records carry different
    timestamps in the order of the collection, that is the order of the
    collection or its reverse. *)
Theorem getDiffs_narrows (pluginOptions : PluginOptions) (w : World) (this : Document)
    (options : QueryOptions) (find : lean) :
  q_find options = Some find → q_select options = None → q_limit options = None →
  getDiffs pluginOptions no_faults w this options
  = Ok (store_sort (timestampFieldName pluginOptions)
          (default Descending (q_sort options))
          (List.filter
             (λ d, matches (delete "collectionName" (delete "collectionId" find)) d)
             (entity_records pluginOptions w this)))
  ∧ (distinct_stamps pluginOptions w →
     getDiffs pluginOptions no_faults w this options
     = Ok (let own :=
             List.filter
               (λ d, matches (delete "collectionName" (delete "collectionId" find)) d)
               (entity_records pluginOptions w this) in
           match q_sort options with
           | Some Ascending => own
           | _ => reverse own
           end)).
Proof.
  intros Ef Es El.
  assert (G : getDiffs pluginOptions no_faults w this options
              = Ok (store_sort (timestampFieldName pluginOptions)
                      (default Descending (q_sort options))
                      (List.filter
                         (λ d, matches
                                 (delete "collectionName" (delete "collectionId" find)) d)
                         (entity_records pluginOptions w this)))).
  { unfold getDiffs, queryHistory. simpl. rewrite Ef, Es, El. simpl.
    do 2 f_equal.
    unfold entity_records. rewrite <- filter_andb. apply List.filter_ext. intros d.
    unfold entity_filter.
    rewrite !(matches_insert_delete _ d "collectionId").
    rewrite !delete_insert_ne by discriminate.
    rewrite !(matches_insert_delete _ d "collectionName").
    rewrite !delete_empty, matches_empty.
    destruct (bool_decide (d !! "collectionId" = _)),
      (bool_decide (d !! "collectionName" = _)),
      (matches (delete "collectionName" (delete "collectionId" find)) d); reflexivity. }
  split; [exact G|]. intros Srt. rewrite G, store_sort_increasing.
  - cbv zeta. destruct (q_sort options) as [[|]|]; reflexivity.
  - apply StronglySorted_filter. by apply entity_records_stamps.
Qed.

Lemma getDiffs_narrows_witness :
  getDiffs test_options no_faults tank_changed (tank "large")
    {| q_find := Some {[ "collectionId" := VOid 8; "version" := VVersion (SemVer 1 0 0) ]};
       q_select := None; q_sort := None; q_limit := None |}
  = Ok (with_version (SemVer 1 0 0) (entity_records test_options tank_changed (tank "large"))).
Proof.
  destruct (getDiffs_narrows test_options tank_changed (tank "large")
              {| q_find := Some {[ "collectionId" := VOid 8;
                                   "version" := VVersion (SemVer 1 0 0) ]};
                 q_select := None; q_sort := None; q_limit := None |}
              {[ "collectionId" := VOid 8; "version" := VVersion (SemVer 1 0 0) ]})
    as [E _]; [reflexivity..|].
  rewrite E. reflexivity.
Defined.

(** ** Histories with ascending versions *)

Section ascending.
Context {engine : DiffEngine}.

Lemma version_lt_trans (a b c : lean) : version_lt a b → version_lt b c → version_lt a c.
Proof.
  intros (va & vb & Ea & Eb & L1) (vb' & vc & Eb' & Ec & L2).
  rewrite Eb in Eb'. injection Eb' as <-.
  exists va, vc. eauto using semver_lt_trans.
Qed.

Lemma version_lt_semver (a b : lean) (va vb : semver) :
  a !! "version" = Some (VVersion va) → b !! "version" = Some (VVersion vb) →
  version_lt a b → semver_lt va vb = true.
Proof.
  intros Ea Eb (va' & vb' & Ea' & Eb' & L).
  rewrite Ea in Ea'. rewrite Eb in Eb'. injection Ea' as <-. injection Eb' as <-. exact L.
Qed.

Lemma Sorted_version_lt (hs : list lean) :
  Sorted version_lt hs → StronglySorted version_lt hs.
Proof. apply Sorted_StronglySorted. intros a b c. apply version_lt_trans. Qed.

Lemma sorted_lookup_lt (hs : list lean) (i j : nat) (a b : lean) :
  StronglySorted version_lt hs → hs !! i = Some a → hs !! j = Some b → (i < j)%nat →
  version_lt a b.
Proof.
  intros Srt. revert i j. induction Srt as [|x hs Srt IH F]; intros i j Ei Ej L.
  - discriminate.
  - destruct j as [|j]; [lia|]. destruct i as [|i]; simpl in Ei, Ej.
    + injection Ei as <-. rewrite List.Forall_forall in F. apply F.
      apply list_elem_of_In. by eapply list_elem_of_lookup_2.
    + apply (IH i j Ei Ej). lia.
Qed.

Lemma sorted_unique (hs : list lean) (i j : nat) (a b : lean) (v : semver) :
  StronglySorted version_lt hs → hs !! i = Some a → hs !! j = Some b →
  a !! "version" = Some (VVersion v) → b !! "version" = Some (VVersion v) → i = j.
Proof.
  intros Srt Ei Ej Ea Eb.
  destruct (Nat.lt_trichotomy i j) as [L|[L|L]]; [|exact L|].
  - pose proof (version_lt_semver _ _ _ _ Ea Eb (sorted_lookup_lt _ _ _ _ _ Srt Ei Ej L)) as T.
    rewrite semver_lt_irrefl in T. discriminate.
  - pose proof (version_lt_semver _ _ _ _ Eb Ea (sorted_lookup_lt _ _ _ _ _ Srt Ej Ei L)) as T.
    rewrite semver_lt_irrefl in T. discriminate.
Qed.

Lemma clamp_within (firstv lastv v : semver) :
  semver_lt v firstv = false → semver_lt lastv v = false → clamp firstv lastv v = v.
Proof. intros E1 E2. unfold clamp. rewrite semver_gt_lt, E2, E1. reflexivity. Qed.

Lemma sorted_clamp (hs : list lean) (i : nat) (item firstVersion lastVersion : lean)
    (firstv lastv v : semver) :
  StronglySorted version_lt hs →
  hs !! i = Some item → item !! "version" = Some (VVersion v) →
  head hs = Some firstVersion → lean_version firstVersion = Ok firstv →
  last hs = Some lastVersion → lean_version lastVersion = Ok lastv →
  clamp firstv lastv v = v.
Proof.
  intros Srt Ei Ev Eh Ef El Ell.
  apply lean_version_inv in Ef. apply lean_version_inv in Ell.
  rewrite head_lookup in Eh. rewrite last_lookup in El.
  pose proof (lookup_lt_Some _ _ _ Ei) as Li.
  apply clamp_within.
  - destruct i as [|i].
    + rewrite Ei in Eh. injection Eh as <-. rewrite Ev in Ef. injection Ef as <-.
      apply semver_lt_irrefl.
    + apply semver_lt_asym.
      apply (version_lt_semver _ _ _ _ Ef Ev).
      apply (sorted_lookup_lt hs 0 (S i) _ _ Srt Eh Ei). lia.
  - destruct (decide (i = pred (List.length hs))) as [->|N].
    + rewrite Ei in El. injection El as <-. rewrite Ev in Ell. injection Ell as <-.
      apply semver_lt_irrefl.
    + apply semver_lt_asym.
      apply (version_lt_semver _ _ _ _ Ev Ell).
      apply (sorted_lookup_lt hs i (pred (List.length hs)) _ _ Srt Ei El). lia.
Qed.

Lemma sorted_find_history (hs : list lean) (i : nat) (item : lean) (v : semver) :
  StronglySorted version_lt hs →
  hs !! i = Some item → item !! "version" = Some (VVersion v) →
  find_history v hs = Some item.
Proof.
  intros Srt Ei Ev.
  destruct (find_history_Some v hs item) as (r & Er & Hr & Evr);
    [by eapply list_elem_of_lookup_2|exact Ev|].
  rewrite Er. apply list_elem_of_lookup_1 in Hr as [j Ej].
  pose proof (sorted_unique hs i j item r v Srt Ei Ej Ev Evr) as <-.
  congruence.
Qed.

Lemma replay_to_above (v : semver) (cur : obj) (rest : list lean) :
  Forall (λ x : lean, ∃ vx, x !! "version" = Some (VVersion vx) ∧ semver_lt v vx = true)
         rest →
  replay_to v cur rest = Ok cur.
Proof.
  induction 1 as [|x rest (vx & Ex & L) F IH]; [reflexivity|].
  simpl. unfold lean_version. rewrite Ex. simpl.
  rewrite (semver_lt_asym _ _ L). simpl.
  rewrite bool_decide_eq_false_2; [exact IH|].
  intros ->. rewrite semver_lt_irrefl in L. discriminate.
Qed.

Lemma replay_to_sorted (hs : list lean) (i : nat) (item : lean) (v : semver) (cur : obj) :
  StronglySorted version_lt hs →
  hs !! i = Some item → item !! "version" = Some (VVersion v) →
  replay_to v cur hs = replay cur (take (S i) hs).
Proof.
  intros Srt. revert i cur. induction Srt as [|x hs Srt IH F]; intros i cur Ei Ev.
  - discriminate.
  - destruct i as [|i]; simpl in Ei.
    + injection Ei as ->.
      change (replay cur (take 1 (item :: hs)))
        with (state ← patch_item cur item; replay state []).
      simpl. unfold lean_version. rewrite Ev. simpl.
      rewrite semver_lt_irrefl, bool_decide_eq_true_2 by reflexivity. simpl.
      destruct (patch_item cur item) as [state|]; simpl; [|reflexivity].
      apply replay_to_above.
      rewrite List.Forall_forall in F. apply Forall_forall. intros y Hy.
      destruct (F y (proj1 (list_elem_of_In _ _) Hy)) as (vi & vy & Ei' & Ey & L).
      rewrite Ev in Ei'. injection Ei' as <-. eauto.
    + assert (L : version_lt x item).
      { rewrite List.Forall_forall in F. apply F. apply list_elem_of_In.
        by eapply list_elem_of_lookup_2. }
      destruct L as (vx & vi & Ex & Ei' & L). rewrite Ev in Ei'. injection Ei' as <-.
      change (replay cur (take (S (S i)) (x :: hs)))
        with (state ← patch_item cur x; replay state (take (S i) hs)).
      simpl. unfold lean_version at 1. rewrite Ex. simpl. rewrite L. simpl.
      destruct (patch_item cur x) as [state|]; simpl; [|reflexivity].
      apply (IH i _ Ei Ev).
Qed.

(** The answers of the loop of [getVersions], position by position. *)
Lemma getVersions_loop_lookup (hs : list lean) (cur : obj) (versions : list lean) :
  getVersions_loop cur hs = Ok versions →
  List.length versions = List.length hs
  ∧ ∀ i item, hs !! i = Some item →
      ∃ state,
        replay cur (take (S i) hs) = Ok state
        ∧ versions !! i = Some (attach_object item state).
Proof.
  rewrite getVersions_loop_replay.
  destruct (replay_states cur hs) as [states|] eqn:E; simpl; [|discriminate].
  intros [= <-]. pose proof (replay_states_length _ _ _ E) as L. split.
  - by rewrite length_zip_with_l_eq.
  - intros i item Ei.
    destruct (lookup_lt_is_Some_2 states i) as [state Es].
    { rewrite L. by eapply lookup_lt_Some. }
    exists state. split; [by eapply replay_states_lookup|].
    rewrite lookup_zip_with, Ei, Es. reflexivity.
Qed.

(** The first record of the descending sort is one of the latest. *)
Lemma sort_descending_head (field : string) (docs : list lean) (r : lean) :
  head (sort_descending field docs) = Some r →
  r ∈ docs ∧ Forall (λ d, (sort_key field d ≤ sort_key field r)%nat) docs.
Proof.
  intros E. split.
  { apply (elem_of_sort_descending field). by apply head_elem. }
  revert r E. induction docs as [|doc rest IH]; intros r E; [constructor|].
  simpl in E.
  destruct (sort_descending field rest) as [|d sorted] eqn:Es; simpl in E.
  - injection E as <-.
    apply (f_equal List.length) in Es. rewrite length_sort_descending in Es.
    destruct rest; [|discriminate]. repeat constructor.
  - specialize (IH d eq_refl).
    destruct (sort_key field doc <? sort_key field d)%nat eqn:Lt; simpl in E;
      injection E as <-.
    + apply Nat.ltb_lt in Lt. constructor; [lia|exact IH].
    + apply Nat.ltb_ge in Lt. constructor; [lia|].
      eapply Forall_impl; [exact IH|]. intros y Hy. simpl in Hy. lia.
Qed.
End ascending.

(** X5.  [getDiff(version)] does not clamp and does not throw: it answers
    the first record, in the descending order of the timestamps, among the
    records of the document whose version is exactly [version], a record
    none of which is later; and it answers [null] exactly when no record of
    the document carries that version. *)
Theorem getDiff_newest_with_version (pluginOptions : PluginOptions) (w : World)
    (this : Document) (version : semver) :
  getDiff pluginOptions no_faults w this version no_query_options
  = Ok (head (sort_descending (timestampFieldName pluginOptions)
                (with_version version (entity_records pluginOptions w this))))
  ∧ (getDiff pluginOptions no_faults w this version no_query_options = Ok None
     ↔ with_version version (entity_records pluginOptions w this) = [])
  ∧ (∀ r,
       getDiff pluginOptions no_faults w this version no_query_options = Ok (Some r) →
       r ∈ entity_records pluginOptions w this
       ∧ r !! "version" = Some (VVersion version)
       ∧ Forall (λ d, (sort_key (timestampFieldName pluginOptions) d
                       ≤ sort_key (timestampFieldName pluginOptions) r)%nat)
                (with_version version (entity_records pluginOptions w this))).
Proof.
  rewrite getDiff_default. split_and!.
  - reflexivity.
  - split.
    + intros [= E]. apply head_None in E.
      apply (f_equal List.length) in E. rewrite length_sort_descending in E.
      by destruct (with_version _ _).
    + intros ->. reflexivity.
  - intros r [= E]. apply sort_descending_head in E as [In F].
    unfold with_version in In.
    apply list_elem_of_In, filter_In in In as [In B].
    apply bool_decide_eq_true in B. split_and!; [by apply list_elem_of_In|done..].
Qed.

Lemma getDiff_newest_with_version_witness :
  getDiff test_options no_faults tank_changed (tank "large") (SemVer 1 0 0) no_query_options
  = Ok (last (histories tank_changed))
  ∧ getDiff test_options no_faults tank_changed (tank "large") (SemVer 0 5 0)
      no_query_options
    = Ok None.
Proof.
  split.
  - rewrite (proj1 (getDiff_newest_with_version test_options tank_changed (tank "large")
                      (SemVer 1 0 0))).
    reflexivity.
  - rewrite (proj1 (getDiff_newest_with_version test_options tank_changed (tank "large")
                      (SemVer 0 5 0))).
    reflexivity.
Defined.

(** X6.  Whenever [getVersions] answers, it answers one version for every
    record [getDiffs] answers in the ascending order of the timestamps, in
    that order: the record without its [diff], with the replay of the
    records up to it as [object], and with its other fields as they are
    stored. *)
Theorem getVersions_answers {engine : DiffEngine} (pluginOptions : PluginOptions)
    (faults : Faults) (w : World) (this : Document) (histories versions : list lean) :
  getDiffs pluginOptions faults w this oldest_first = Ok histories →
  getVersions pluginOptions faults w this no_query_options true = Ok versions →
  List.length versions = List.length histories
  ∧ ∀ i item, histories !! i = Some item →
      ∃ r state,
        versions !! i = Some r
        ∧ replay ∅ (take (S i) histories) = Ok state
        ∧ r !! "diff" = None
        ∧ r !! "object" = Some (VObj state)
        ∧ ∀ k, k ≠ "diff" → k ≠ "object" → r !! k = item !! k.
Proof.
  intros Eq Ev.
  assert (El : getVersions_loop ∅ histories = Ok versions).
  { rewrite <- Ev. unfold getVersions.
    change (getDiffs pluginOptions faults w this _)
      with (getDiffs pluginOptions faults w this oldest_first).
    rewrite Eq. reflexivity. }
  destruct (getVersions_loop_lookup _ _ _ El) as [L A].
  split; [exact L|]. intros i item Ei.
  destruct (A i item Ei) as (state & Er & Ei').
  exists (attach_object item state), state. unfold attach_object.
  split_and!; [exact Ei'|exact Er|apply lookup_delete_eq| |].
  - rewrite lookup_delete_ne by discriminate. apply lookup_insert_eq.
  - intros k K1 K2. rewrite lookup_delete_ne by congruence.
    rewrite lookup_insert_ne by congruence. reflexivity.
Qed.

Lemma getVersions_answers_witness :
  ∃ versions,
    getVersions (engine := flat_engine) test_options no_faults tank_changed (tank "large")
      no_query_options true = Ok versions
    ∧ List.length versions = 2%nat.
Proof.
  assert (E : getVersions (engine := flat_engine) test_options no_faults tank_changed
                (tank "large") no_query_options true
              = Ok (zip_with attach_object (histories tank_changed)
                      [ {[ "_id" := JStr "7"; "size" := JStr "small" ]};
                        {[ "_id" := JStr "7"; "size" := JStr "large" ]} ]))
    by reflexivity.
  eexists. split; [exact E|].
  destruct (getVersions_answers (engine := flat_engine) test_options no_faults
              tank_changed (tank "large") (histories tank_changed) _ eq_refl E)
    as [L _].
  exact L.
Defined.

(** X7.  In a store whose records carry different timestamps in the order
    of the collection, and versions that increase in that order, whenever
    [getVersions] answers, [getVersion] of a recorded version answers the
    version [getVersions] answers at the position of its record: the two
    replays agree, and the object is the replay of the records up to that
    one. *)
Theorem getVersion_agrees_with_getVersions {engine : DiffEngine}
    (pluginOptions : PluginOptions) (w : World) (this : Document)
    (i : nat) (item : lean) (v : semver) (versions : list lean) :
  distinct_stamps pluginOptions w →
  ascending_versions pluginOptions w →
  entity_records pluginOptions w this !! i = Some item →
  item !! "version" = Some (VVersion v) →
  getVersions pluginOptions no_faults w this no_query_options true = Ok versions →
  ∃ r state,
    versions !! i = Some r
    ∧ getVersion pluginOptions no_faults w this v true = Ok (Some r)
    ∧ replay ∅ (take (S i) (entity_records pluginOptions w this)) = Ok state
    ∧ r !! "object" = Some (VObj state).
Proof.
  intros Stamps [W A] Ei Ev E.
  pose proof (Sorted_version_lt _ (A this)) as Srt.
  pose proof (entity_records_well_formed pluginOptions w this W) as Wr.
  rewrite (getVersions_default _ _ _ Stamps) in E.
  destruct (getVersions_loop_lookup _ _ _ E) as [L Al].
  destruct (Al i item Ei) as (state & Er & Ei').
  exists (attach_object item state), state.
  split; [exact Ei'|]. split; [|split; [exact Er|]].
  - rewrite (getVersion_unfold pluginOptions _ _ _ _ _ _
               (getDiffs_oldest_first pluginOptions w this Stamps)).
    destruct (head (entity_records pluginOptions w this)) as [firstVersion|] eqn:Eh;
      [|apply head_None in Eh; rewrite Eh in Ei; discriminate].
    destruct (last (entity_records pluginOptions w this)) as [lastVersion|] eqn:El;
      [|apply last_None in El; rewrite El in Ei; discriminate].
    destruct (well_formed_version firstVersion) as [firstv Ef].
    { rewrite Forall_forall in Wr. apply Wr. by apply head_elem. }
    destruct (well_formed_version lastVersion) as [lastv Ell].
    { rewrite Forall_forall in Wr. apply Wr. by apply last_elem. }
    rewrite (getVersion_then_clamp _ _ _ _ _ _ _ Eh El Ef Ell).
    rewrite (sorted_clamp _ _ _ _ _ _ _ _ Srt Ei Ev Eh Ef El Ell). simpl.
    rewrite (replay_to_sorted _ _ _ _ _ Srt Ei Ev), Er. simpl.
    rewrite (sorted_find_history _ _ _ _ Srt Ei Ev).
    unfold attach_object. rewrite delete_insert_ne by discriminate. reflexivity.
  - unfold attach_object. rewrite lookup_delete_ne by discriminate.
    apply lookup_insert_eq.
Qed.

Lemma getVersion_agrees_with_getVersions_witness :
  ∃ r,
    getVersion (engine := flat_engine) test_options no_faults tank_changed (tank "large")
      (SemVer 1 0 0) true = Ok (Some r)
    ∧ r !! "object" = Some (VObj {[ "_id" := JStr "7"; "size" := JStr "large" ]}).
Proof.
  assert (D : distinct_fields test_options) by (apply distinct_fields_check; reflexivity).
  assert (Srt : distinct_stamps test_options tank_changed).
  { exact (proj1 (stamped_in_order_save_all (engine := flat_engine) test_options
                    [tank "small"; tank "large"] empty_world
                    (stamped_in_order_empty test_options))). }
  assert (Room : room_for 2 empty_world) by (unfold room_for, max_safe_integer; simpl; lia).
  assert (A : ascending_versions test_options tank_changed).
  { exact (ascending_versions_save_all (engine := flat_engine) test_options D
             [tank "small"; tank "large"] empty_world
             (stamped_in_order_empty test_options) Room
             (List.Forall_nil _) (ascending_versions_empty test_options)). }
  assert (E : getVersions (engine := flat_engine) test_options no_faults tank_changed
                (tank "large") no_query_options true
              = Ok (zip_with attach_object (histories tank_changed)
                      [ {[ "_id" := JStr "7"; "size" := JStr "small" ]};
                        {[ "_id" := JStr "7"; "size" := JStr "large" ]} ]))
    by reflexivity.
  assert (Es : replay (engine := flat_engine) ∅
                 (take 2 (entity_records test_options tank_changed (tank "large")))
               = Ok {[ "_id" := JStr "7"; "size" := JStr "large" ]}) by reflexivity.
  destruct (getVersion_agrees_with_getVersions (engine := flat_engine) test_options
              tank_changed (tank "large") 1%nat
              (default ∅ (last (histories tank_changed))) (SemVer 1 0 0)
              (zip_with attach_object (histories tank_changed)
                 [ {[ "_id" := JStr "7"; "size" := JStr "small" ]};
                   {[ "_id" := JStr "7"; "size" := JStr "large" ]} ]) Srt A)
    as (r & state & E1 & E2 & E3 & E4); [reflexivity|reflexivity|exact E|].
  exists r. split; [exact E2|]. rewrite E4. rewrite Es in E3. congruence.
Defined.

(** ** The hook *)


(** X9.  When only the events are recorded ([noEventSave: false]) and the
    write of the record is rejected, the hook has already cleared the
    pending metadata: the save fails, nothing is written, and the same
    document saved again, the store working, is not recorded. *)
Theorem rejected_write_loses_event {engine : DiffEngine} (pluginOptions : PluginOptions)
    (forceSave : bool) (faults : Faults) (w : World) (this : Document)
    (previous : option obj) :
  noEventSave pluginOptions = false → is_Some (doc_history this) →
  getPrevious pluginOptions faults w this = Ok previous →
  persists pluginOptions this previous = true →
  fail_findOne faults = false → fail_save faults = true →
  ∃ this',
    preSave pluginOptions forceSave faults w this = (w, this', Throw StoreError)
    ∧ doc_history this' = None
    ∧ preSave pluginOptions forceSave no_faults w this' = (w, this', Ok ()).
Proof.
  intros N H P Pe F1 F2. exists (clear_history this).
  split; [|split; [reflexivity|]].
  - unfold preSave. rewrite bool_decide_eq_true_2 by exact H. simpl. rewrite P.
    unfold preSave_then. cbv zeta. unfold persists in Pe.
    assert (G : bool_decide
                  (is_Some
                     (if saveWithoutDiff pluginOptions this && forceSave
                      then Some (normalize pluginOptions (default ∅ previous))
                      else jdf_diff (normalize pluginOptions (default ∅ previous))
                             (normalize pluginOptions (doc_json this))))
                || noDiffSave pluginOptions || saveWithoutDiff pluginOptions this = true).
    { destruct (saveWithoutDiff pluginOptions this); [apply orb_true_r|].
      simpl. exact Pe. }
    rewrite G. unfold find_lastHistory. rewrite F1.
    unfold HistoryModel_save. rewrite F2. reflexivity.
  - unfold preSave. simpl. rewrite N. reflexivity.
Qed.

Lemma rejected_write_loses_event_witness :
  ∃ this',
    preSave (engine := flat_engine) only_events_options false save_fails empty_world
      (with_history (tank "small") no_metadata) = (empty_world, this', Throw StoreError)
    ∧ doc_history this' = None
    ∧ preSave (engine := flat_engine) only_events_options false no_faults empty_world this'
      = (empty_world, this', Ok ()).
Proof.
  apply (rejected_write_loses_event (engine := flat_engine) only_events_options false
           save_fails empty_world (with_history (tank "small") no_metadata) None).
  - reflexivity.
  - eexists. reflexivity.
  - reflexivity.
  - reflexivity.
  - reflexivity.
  - reflexivity.
Defined.

Lemma normalize_eq (pluginOptions : PluginOptions) (a b : obj) :
  normalize pluginOptions a = normalize pluginOptions b
  ↔ ∀ k, k ∉ untracked pluginOptions → a !! k = b !! k.
Proof.
  split.
  - intros E k K. apply (f_equal (λ m : obj, m !! k)) in E.
    rewrite !lookup_normalize in E. fold (untracked pluginOptions) in E.
    rewrite bool_decide_eq_false_2 in E by exact K. exact E.
  - intros A. apply map_eq. intros k. rewrite !lookup_normalize.
    fold (untracked pluginOptions).
    destruct (decide (k ∈ untracked pluginOptions)) as [K|K].
    + rewrite bool_decide_eq_true_2 by exact K. reflexivity.
    + rewrite bool_decide_eq_false_2 by exact K. apply A, K.
Qed.

Lemma saveWithoutDiff_no_history {engine : DiffEngine} (pluginOptions : PluginOptions)
    (this : Document) :
  doc_history this = None → saveWithoutDiff pluginOptions this = false.
Proof. intros E. unfold saveWithoutDiff. rewrite E. reflexivity. Qed.

(** X10.  With [noDiffSave], a save that changes nothing outside the
    untracked fields is recorded all the same: the record carries the
    empty diff [{}], on which the patch of a replay throws. *)
Theorem noDiffSave_records_empty_diff {engine : DiffEngine}
    (pluginOptions : PluginOptions) (w : World) (this : Document) :
  distinct_fields pluginOptions →
  noDiffSave pluginOptions = true →
  bool_decide (is_Some (doc_history this)) || noEventSave pluginOptions = true →
  (∀ k, k ∉ untracked pluginOptions →
        default ∅ (previous_of pluginOptions w this) !! k = doc_json this !! k) →
  ∃ r,
    preSave pluginOptions false no_faults w this
    = (append_history w r, clear_history this, Ok ())
    ∧ r !! "diff" = Some (VObj ∅)
    ∧ ∀ currentVersion, patch_item currentVersion r = Throw TypeError.
Proof.
  intros D N A U. apply normalize_eq in U.
  exists (history_of pluginOptions false w this (previous_of pluginOptions w this)).
  assert (Ed : history_of pluginOptions false w this (previous_of pluginOptions w this)
               !! "diff" = Some (VObj ∅)).
  { rewrite (history_of_diff pluginOptions D). unfold recorded_diff.
    rewrite andb_false_r, U.
    rewrite (proj2 (jdf_diff_None _ _) eq_refl). reflexivity. }
  split; [|split; [exact Ed|]].
  - unfold preSave. rewrite A, getPrevious_previous_of, preSave_then_no_faults.
    unfold persists. rewrite N, orb_true_r. reflexivity.
  - intros cur. unfold patch_item. rewrite Ed, jdf_patch_empty. reflexivity.
Qed.

Lemma noDiffSave_records_empty_diff_witness :
  ∃ r,
    preSave (engine := flat_engine) noDiffSave_options false no_faults
      (save_all (engine := flat_engine) noDiffSave_options empty_world [tank "small"])
      (tank "small")
    = (append_history
         (save_all (engine := flat_engine) noDiffSave_options empty_world [tank "small"]) r,
       clear_history (tank "small"), Ok ())
    ∧ r !! "diff" = Some (VObj ∅).
Proof.
  destruct (noDiffSave_records_empty_diff (engine := flat_engine) noDiffSave_options
              (save_all (engine := flat_engine) noDiffSave_options empty_world
                 [tank "small"]) (tank "small")) as (r & E & Ed & _).
  - apply distinct_fields_check. reflexivity.
  - reflexivity.
  - reflexivity.
  - intros k _. reflexivity.
  - exists r. split; assumption.
Defined.

(** X11.  Which changes are recorded.  For a top-level document saved
    without pending metadata, with [noEventSave] and without [noDiffSave],
    the hook appends a record exactly when the document differs from the
    stored one in a field other than [__history], [__v] and the fields of
    [ignore]; a document without a stored one counts as changed as soon as
    it has such a field. *)
Theorem records_tracked_changes {engine : DiffEngine} (pluginOptions : PluginOptions)
    (forceSave : bool) (w : World) (this : Document) :
  embeddedDocument pluginOptions = false →
  noEventSave pluginOptions = true →
  noDiffSave pluginOptions = false →
  doc_history this = None →
  (∃ k, (k ∉ untracked pluginOptions)
        ∧ doc_json this !! k
          ≠ default ∅ (entities w !! (doc_model this, doc_id this)) !! k)
  ↔ ∃ r, (preSave pluginOptions forceSave no_faults w this).1.1 = append_history w r.
Proof.
  intros Em Ne Nd Nh.
  unfold preSave. rewrite Ne, orb_true_r, getPrevious_previous_of.
  rewrite (previous_of_top_level pluginOptions w this Em).
  rewrite preSave_then_no_faults. unfold persists.
  rewrite Nd, (saveWithoutDiff_no_history pluginOptions this Nh), !orb_false_r.
  set (previous := entities w !! (doc_model this, doc_id this)).
  destruct (jdf_diff (normalize pluginOptions (default ∅ previous))
                     (normalize pluginOptions (doc_json this))) as [d|] eqn:Ed.
  - rewrite bool_decide_eq_true_2 by eauto. split; [intros _; eexists; reflexivity|].
    intros _.
    destruct (decide (Forall (λ k, k ∈ untracked pluginOptions
                                   ∨ doc_json this !! k = default ∅ previous !! k)
                             ((map_to_list (doc_json this)).*1
                              ++ (map_to_list (default ∅ previous)).*1)))
      as [F|F].
    + exfalso. assert (E : jdf_diff (normalize pluginOptions (default ∅ previous))
                                    (normalize pluginOptions (doc_json this)) = None);
        [|rewrite E in Ed; discriminate].
      apply jdf_diff_None. apply normalize_eq. intros k K.
      rewrite Forall_forall in F.
      destruct (doc_json this !! k) as [x|] eqn:E1.
      * destruct (F k) as [?|E2]; [|contradiction|congruence].
        apply elem_of_app. left. apply list_elem_of_fmap. exists (k, x).
        split; [reflexivity|]. by apply elem_of_map_to_list.
      * destruct (default ∅ previous !! k) as [y|] eqn:E2; [|reflexivity].
        destruct (F k) as [?|E3]; [|contradiction|congruence].
        apply elem_of_app. right. apply list_elem_of_fmap. exists (k, y).
        split; [reflexivity|]. by apply elem_of_map_to_list.
    + apply not_Forall_Exists in F; [|intros k; apply _].
      apply Exists_exists in F as (k & _ & F).
      exists k. split.
      * intros K. apply F. by left.
      * intros E. apply F. by right.
  - rewrite bool_decide_eq_false_2 by (intros [? ?]; discriminate). simpl.
    apply jdf_diff_None in Ed.
    split.
    + intros (k & K & E). exfalso. apply E. symmetry.
      exact (proj1 (normalize_eq pluginOptions _ _) Ed k K).
    + intros [r E]. exfalso. apply (f_equal histories) in E. simpl in E.
      by apply append_neq in E.
Qed.

Lemma records_tracked_changes_witness :
  ∃ r,
    (preSave (engine := flat_engine) ignore_options false no_faults
       (save_all (engine := flat_engine) ignore_options empty_world [touched_tank 1])
       (tank "large")).1.1
    = append_history
        (save_all (engine := flat_engine) ignore_options empty_world [touched_tank 1]) r.
Proof.
  apply (proj1 (records_tracked_changes (engine := flat_engine) ignore_options false
                  (save_all (engine := flat_engine) ignore_options empty_world
                     [touched_tank 1]) (tank "large")
                  ltac:(reflexivity) ltac:(reflexivity) ltac:(reflexivity)
                  ltac:(reflexivity))).
  exists "size". split; by_evaluation.
Defined.

Lemma preSave_no_faults {engine : DiffEngine} (pluginOptions : PluginOptions)
    (forceSave : bool) (w : World) (this : Document) :
  preSave pluginOptions forceSave no_faults w this
  = if commits pluginOptions w this
    then (append_history w
            (history_of pluginOptions forceSave w this (previous_of pluginOptions w this)),
          clear_history this, Ok ())
    else (w, this, Ok ()).
Proof.
  unfold preSave, commits. rewrite getPrevious_previous_of.
  destruct (bool_decide (is_Some (doc_history this)) || noEventSave pluginOptions);
    simpl; [apply preSave_then_no_faults|reflexivity].
Qed.

Lemma stored_not_persists {engine : DiffEngine} (pluginOptions : PluginOptions)
    (w : World) (this : Document) :
  embeddedDocument pluginOptions = false → noDiffSave pluginOptions = false →
  entities w !! (doc_model this, doc_id this) = Some (doc_json this) →
  saveWithoutDiff pluginOptions this = false →
  persists pluginOptions this (previous_of pluginOptions w this) = false.
Proof.
  intros Em Nd Es Sw. rewrite (previous_of_top_level pluginOptions w this Em), Es.
  unfold persists. rewrite Nd, Sw, !orb_false_r. simpl.
  rewrite (proj2 (jdf_diff_None _ _) eq_refl).
  apply bool_decide_eq_false_2. intros [? ?]. discriminate.
Qed.

(** X12.  Saving a top-level document a second time, nothing having
    changed, records nothing: after any save, the save of the document as
    the first save left it appends no record and leaves the store as it
    is. *)
Theorem save_again_records_nothing {engine : DiffEngine} (pluginOptions : PluginOptions)
    (w w1 : World) (this this1 : Document) (next : result ()) :
  embeddedDocument pluginOptions = false → noDiffSave pluginOptions = false →
  save pluginOptions no_faults w this = (w1, this1, next) →
  save pluginOptions no_faults w1 this1 = (w1, this1, Ok ()).
Proof.
  intros Em Nd E. unfold save in E. rewrite preSave_no_faults in E.
  destruct (commits pluginOptions w this) eqn:C; injection E as <- <- <-.
  - unfold save. rewrite preSave_no_faults. unfold commits.
    rewrite (stored_not_persists pluginOptions _ (clear_history this) Em Nd);
      [|apply lookup_insert_eq|reflexivity].
    rewrite andb_false_r. simpl. rewrite insert_insert_eq. reflexivity.
  - unfold save. rewrite preSave_no_faults.
    assert (C' : commits pluginOptions
                   {| histories := histories w;
                      entities :=
                        <[(doc_model this, doc_id this) := doc_json this]> (entities w);
                      clock := clock w |} this = false).
    { unfold commits in *.
      destruct (bool_decide (is_Some (doc_history this)) || noEventSave pluginOptions);
        [|reflexivity].
      simpl in *. apply (stored_not_persists pluginOptions _ this Em Nd);
        [apply lookup_insert_eq|].
      unfold persists in C. apply orb_false_iff in C as [_ C]. exact C. }
    rewrite C'. simpl. rewrite insert_insert_eq. reflexivity.
Qed.

Lemma save_again_records_nothing_witness :
  save (engine := flat_engine) test_options no_faults tank_changed (tank "large")
  = (tank_changed, tank "large", Ok ()).
Proof.
  apply (save_again_records_nothing (engine := flat_engine) test_options
           (tick tank_saved) tank_changed (tank "large") (tank "large") (Ok ())).
  - reflexivity.
  - reflexivity.
  - reflexivity.
Defined.

Lemma preSave_cases {engine : DiffEngine} (pluginOptions : PluginOptions)
    (forceSave : bool) (faults : Faults) (w : World) (this : Document) :
  (∃ this' next, preSave pluginOptions forceSave faults w this = (w, this', next))
  ∨ (∃ currentDiff,
       preSave pluginOptions forceSave faults w this
       = (append_history w
            (new_HistoryModel pluginOptions w
               (history_object pluginOptions this currentDiff
                  (lastHistory_of pluginOptions w this))),
          clear_history this, Ok ())).
Proof.
  unfold preSave.
  destruct (bool_decide (is_Some (doc_history this)) || noEventSave pluginOptions);
    [|left; eauto].
  destruct (getPrevious pluginOptions faults w this) as [previous|]; [|left; eauto].
  unfold preSave_then. cbv zeta.
  destruct (_ || _ || _); [|left; eauto].
  destruct (find_lastHistory pluginOptions faults w this) as [lastHistory|] eqn:Ef;
    [|left; eauto].
  apply find_lastHistory_Ok in Ef as ->.
  unfold HistoryModel_save. destruct (fail_save faults); [left; eauto|].
  right. eexists. reflexivity.
Qed.

Lemma new_record_matches {engine : DiffEngine} (pluginOptions : PluginOptions)
    (w : World) (this that : Document) (currentDiff : option obj)
    (lastHistory : option lean) :
  distinct_fields pluginOptions →
  matches (entity_filter pluginOptions that)
          (new_HistoryModel pluginOptions w
             (history_object pluginOptions this currentDiff lastHistory))
  = bool_decide (same_entity pluginOptions this that).
Proof.
  intros distinct. pose proof distinct as D. fields_ne D.
  set (r := new_HistoryModel pluginOptions w
              (history_object pluginOptions this currentDiff lastHistory)).
  assert (Hname : r !! "collectionName"
                  = Some (VStr (getModelName pluginOptions (doc_model this)))).
  { unfold r. rewrite new_HistoryModel_lookup by congruence.
    by apply history_object_collectionName. }
  assert (Hid : r !! "collectionId" = Some (VOid (doc_id this))).
  { unfold r. rewrite new_HistoryModel_lookup by congruence.
    by apply history_object_collectionId. }
  destruct (bool_decide (same_entity pluginOptions this that)) eqn:B.
  - apply bool_decide_eq_true in B as [B1 B2].
    apply matches_entity_filter. rewrite Hname, Hid, B1, B2. done.
  - apply bool_decide_eq_false in B.
    destruct (matches _ _) eqn:M; [|reflexivity].
    apply matches_entity_filter in M as [M1 M2]. exfalso. apply B.
    rewrite Hname in M1. rewrite Hid in M2. split; congruence.
Qed.

(** X13.  The hook of one document leaves the others alone: whatever the
    store does, the records of every other document are after the hook what
    they were before it, and the hook changes no tracked document. *)
Theorem hook_leaves_other_documents {engine : DiffEngine} (pluginOptions : PluginOptions)
    (forceSave : bool) (faults : Faults) (w : World) (this that : Document) :
  distinct_fields pluginOptions →
  ¬ same_entity pluginOptions this that →
  entity_records pluginOptions (preSave pluginOptions forceSave faults w this).1.1 that
  = entity_records pluginOptions w that
  ∧ entities (preSave pluginOptions forceSave faults w this).1.1 = entities w.
Proof.
  intros D N.
  destruct (preSave_cases pluginOptions forceSave faults w this)
    as [(this' & next & E)|(currentDiff & E)]; rewrite E; simpl.
  - split; reflexivity.
  - split; [|reflexivity].
    rewrite entity_records_append, (new_record_matches pluginOptions _ _ _ _ _ D).
    rewrite bool_decide_eq_false_2 by exact N. apply app_nil_r.
Qed.

Lemma hook_leaves_other_documents_witness :
  entity_records test_options
    (preSave (engine := flat_engine) test_options false no_faults tank_saved
       tank_of_account).1.1
    {| doc_model := "tank"; doc_id := 8; doc_json := ∅; doc_props := ∅;
       doc_history := None |}
  = [].
Proof.
  rewrite (proj1 (hook_leaves_other_documents (engine := flat_engine) test_options false
                    no_faults tank_saved tank_of_account
                    {| doc_model := "tank"; doc_id := 8; doc_json := ∅; doc_props := ∅;
                       doc_history := None |}
                    ltac:(apply distinct_fields_check; reflexivity)
                    ltac:(intros [_ H]; discriminate H))).
  reflexivity.
Defined.

Lemma getDiffs_default (pluginOptions : PluginOptions) (w : World) (this : Document) :
  getDiffs pluginOptions no_faults w this no_query_options
  = Ok (sort_descending (timestampFieldName pluginOptions)
          (entity_records pluginOptions w this)).
Proof. reflexivity. Qed.

Lemma with_version_snoc (version : semver) (histories : list lean) (r : lean) :
  r !! "version" = Some (VVersion version) →
  with_version version (histories ++ [r]) = with_version version histories ++ [r].
Proof.
  intros E. unfold with_version. rewrite List.filter_app. simpl.
  rewrite bool_decide_eq_true_2 by exact E. reflexivity.
Qed.

(** X14.  A record that a save has written is read back, when the records
    of the document were written before the millisecond of the save:
    [getDiffs] answers it first, before the older records of the document,
    and [getDiff] answers it for its version. *)
Theorem committed_save_is_read_back {engine : DiffEngine} (pluginOptions : PluginOptions)
    (w : World) (this : Document) :
  distinct_fields pluginOptions →
  commits pluginOptions w this = true →
  Forall (λ d, (sort_key (timestampFieldName pluginOptions) d ≤ clock w)%nat)
         (entity_records pluginOptions w this) →
  ∃ r older,
    histories (save pluginOptions no_faults w this).1.1 = histories w ++ [r]
    ∧ getDiffs pluginOptions no_faults w this no_query_options = Ok older
    ∧ getDiffs pluginOptions no_faults (save pluginOptions no_faults w this).1.1 this
        no_query_options
      = Ok (r :: older)
    ∧ ∀ version,
        r !! "version" = Some (VVersion version) →
        getDiff pluginOptions no_faults (save pluginOptions no_faults w this).1.1 this
          version no_query_options
        = Ok (Some r).
Proof.
  intros D C Before.
  set (r := history_of pluginOptions false w this (previous_of pluginOptions w this)).
  assert (Newer : Forall (λ d, (sort_key (timestampFieldName pluginOptions) d
                                < sort_key (timestampFieldName pluginOptions) r)%nat)
                         (entity_records pluginOptions w this)).
  { eapply Forall_impl; [exact Before|]. intros d L. simpl in L.
    unfold r. rewrite history_of_stamp. lia. }
  exists r, (sort_descending (timestampFieldName pluginOptions)
               (entity_records pluginOptions w this)).
  split; [rewrite save_histories, C; reflexivity|].
  split; [apply getDiffs_default|].
  rewrite getDiffs_default.
  rewrite (records_after_save pluginOptions D), C.
  rewrite bool_decide_eq_true_2 by (split; reflexivity). simpl.
  split.
  - by rewrite sort_descending_newest.
  - intros version Ev.
    rewrite getDiff_default.
    rewrite (records_after_save pluginOptions D), C.
    rewrite bool_decide_eq_true_2 by (split; reflexivity). simpl.
    rewrite (with_version_snoc _ _ _ Ev), sort_descending_newest; [reflexivity|].
    unfold with_version. rewrite Forall_forall in Newer. apply Forall_forall.
    intros d Hd. apply Newer.
    apply list_elem_of_In, filter_In in Hd as [Hd _]. by apply list_elem_of_In.
Qed.

Lemma committed_save_is_read_back_witness :
  ∃ r,
    histories tank_changed = histories tank_saved ++ [r]
    ∧ head <$> getDiffs test_options no_faults tank_changed (tank "large") no_query_options
      = Ok (Some r).
Proof.
  destruct (committed_save_is_read_back (engine := flat_engine) test_options
              (tick tank_saved) (tank "large")) as (r & older & E1 & _ & E2 & _).
  - apply distinct_fields_check. reflexivity.
  - reflexivity.
  - repeat constructor.
  - exists r. split; [exact E1|].
    change (save (engine := flat_engine) test_options no_faults (tick tank_saved)
              (tank "large")).1.1 with tank_changed in E2.
    rewrite E2. reflexivity.
Defined.

(** X15.  History outlives the document.  The hook of [deleteOne] only
    ever appends to the collection of records; when it calls [next()] the
    document is removed from its collection and its records stay, and when
    it calls [next] with an error the document is not removed. *)
Theorem deleteOne_keeps_history {engine : DiffEngine} (pluginOptions : PluginOptions)
    (faults : Faults) (w : World) (this : Document) :
  histories w `prefix_of` histories (deleteOne pluginOptions faults w this).1.1
  ∧ entity_records pluginOptions w this
    `prefix_of` entity_records pluginOptions (deleteOne pluginOptions faults w this).1.1 this
  ∧ match (deleteOne pluginOptions faults w this).2 with
    | Ok _ =>
        entities (deleteOne pluginOptions faults w this).1.1
        = delete (doc_model this, doc_id this) (entities w)
    | Throw _ => (deleteOne pluginOptions faults w this).1.1 = w
    end.
Proof.
  unfold deleteOne.
  destruct (preSave_cases pluginOptions true faults w this)
    as [(this' & next & E)|(currentDiff & E)]; rewrite E.
  - destruct next as [[]|e]; simpl; split_and!; reflexivity.
  - simpl. split_and!; [by apply prefix_app_r| |reflexivity].
    unfold entity_records. simpl. rewrite List.filter_app. by apply prefix_app_r.
Qed.

(** X16.  [compareVersions] in the other direction: when it answers, the
    call with the two versions exchanged answers the two snapshots
    exchanged, the diff is [undefined] exactly when the snapshots are
    equal, and a version compared with itself shows no difference. *)
Theorem compareVersions_exchanged {engine : DiffEngine} (pluginOptions : PluginOptions)
    (faults : Faults) (w : World) (this : Document) (a b : semver) (c : CompareResult) :
  compareVersions pluginOptions faults w this a b = Ok c →
  compareVersions pluginOptions faults w this b a
  = Ok {| cr_diff := jdf_diff (cr_right c) (cr_left c);
          cr_left := cr_right c; cr_right := cr_left c |}
  ∧ (cr_diff c = None ↔ cr_left c = cr_right c)
  ∧ compareVersions pluginOptions faults w this a a
    = Ok {| cr_diff := None; cr_left := cr_left c; cr_right := cr_left c |}.
Proof.
  unfold compareVersions. intros E.
  destruct (getVersion pluginOptions faults w this a true) as [[l|]|]; simpl in *;
    try discriminate;
    destruct (getVersion pluginOptions faults w this b true) as [[r|]|]; simpl in *;
    try discriminate.
  injection E as <-. simpl. split; [reflexivity|]. split; [apply jdf_diff_None|].
  rewrite (proj2 (jdf_diff_None _ _) eq_refl). reflexivity.
Qed.

Lemma compareVersions_exchanged_witness :
  compareVersions (engine := flat_engine) test_options no_faults tank_changed (tank "large")
    (SemVer 1 0 0) (SemVer 0 0 0)
  = Ok {| cr_diff := Some {[ "size" := JArr [JStr "large"; JStr "small"] ]};
          cr_left := {[ "_id" := JStr "7"; "size" := JStr "large" ]};
          cr_right := {[ "_id" := JStr "7"; "size" := JStr "small" ]} |}.
Proof.
  destruct (compareVersions_exchanged (engine := flat_engine) test_options no_faults
              tank_changed (tank "large") (SemVer 0 0 0) (SemVer 1 0 0)
              {| cr_diff := Some {[ "size" := JArr [JStr "small"; JStr "large"] ]};
                 cr_left := {[ "_id" := JStr "7"; "size" := JStr "small" ]};
                 cr_right := {[ "_id" := JStr "7"; "size" := JStr "large" ]} |})
    as [E _].
  - reflexivity.
  - rewrite E. reflexivity.
Defined.

Lemma includes_other_intro (select : gmap string Z) (k : string) (z : Z) :
  select !! k = Some z → k ≠ "_id" → z ≠ 0%Z → includes_other select = true.
Proof.
  intros E K Z. apply bool_decide_eq_true. exists k, z. auto.
Qed.

Lemma excludes_other_intro (select : gmap string Z) (k : string) :
  select !! k = Some 0%Z → k ≠ "_id" → excludes_other select = true.
Proof.
  intros E K. apply bool_decide_eq_true. exists k, 0%Z. auto.
Qed.

(** X17.  A projection that includes a field is always rejected.  The
    plugin adds the exclusions of [collectionId] and [collectionName] to
    every [select], and the store refuses a projection that mixes an
    inclusion with an exclusion of a field other than [_id]: [getDiffs],
    [getDiff] and [getVersions] with such a [select] throw. *)
Theorem inclusion_select_is_rejected {engine : DiffEngine} (pluginOptions : PluginOptions)
    (w : World) (this : Document) (options : QueryOptions) (select : gmap string Z)
    (k : string) (z : Z) (version : semver) (includeObject : bool) :
  q_select options = Some select →
  select !! k = Some z → z ≠ 0%Z →
  k ∉ ["_id"; "collectionId"; "collectionName"] →
  getDiffs pluginOptions no_faults w this options = Throw StoreError
  ∧ getDiff pluginOptions no_faults w this version options = Throw StoreError
  ∧ getVersions pluginOptions no_faults w this options includeObject = Throw StoreError.
Proof.
  intros Es Ek Z K.
  apply not_elem_of_cons in K as [K1 K]. apply not_elem_of_cons in K as [K2 K].
  apply not_elem_of_cons in K as [K3 _].
  assert (V : projection_valid (assign_exclusions select) = false).
  { unfold projection_valid.
    rewrite (includes_other_intro (assign_exclusions select) k z); [|  |exact K1|exact Z].
    - rewrite (excludes_other_intro (assign_exclusions select) "collectionId");
        [reflexivity| |discriminate].
      apply assign_exclusions_lookup.
    - unfold assign_exclusions. rewrite !lookup_insert_ne by congruence. exact Ek. }
  unfold getVersions, getDiff, getDiffs, queryHistory. simpl. rewrite Es, V.
  split_and!; reflexivity.
Qed.

Lemma inclusion_select_is_rejected_witness :
  getDiffs test_options no_faults tank_changed (tank "large")
    {| q_find := None; q_select := Some {[ "version" := 1%Z ]}; q_sort := None;
       q_limit := None |}
  = Throw StoreError.
Proof.
  apply (inclusion_select_is_rejected (engine := flat_engine) test_options tank_changed
           (tank "large") _ {[ "version" := 1%Z ]} "version" 1%Z (SemVer 0 0 0) true).
  - reflexivity.
  - reflexivity.
  - discriminate.
  - by_evaluation.
Defined.

(** X18.  A rejected query is never swallowed by the reading methods:
    when the store rejects the query of the records, [getDiffs],
    [getDiff], [getVersion], [getVersions] and [compareVersions] all reject
    with the error of the store. *)
Theorem rejected_query_propagates {engine : DiffEngine} (pluginOptions : PluginOptions)
    (faults : Faults) (w : World) (this : Document) (options : QueryOptions)
    (a b : semver) (includeObject : bool) :
  fail_find faults = true →
  getDiffs pluginOptions faults w this options = Throw StoreError
  ∧ getDiff pluginOptions faults w this a options = Throw StoreError
  ∧ getVersion pluginOptions faults w this a includeObject = Throw StoreError
  ∧ getVersions pluginOptions faults w this options includeObject = Throw StoreError
  ∧ compareVersions pluginOptions faults w this a b = Throw StoreError.
Proof.
  intros F.
  unfold compareVersions, getVersions, getVersion, getDiff, getDiffs, queryHistory.
  simpl. rewrite F. split_and!; reflexivity.
Qed.

Lemma rejected_query_propagates_witness :
  compareVersions (engine := flat_engine) test_options find_fails tank_changed
    (tank "large") (SemVer 0 0 0) (SemVer 1 0 0)
  = Throw StoreError.
Proof.
  apply (rejected_query_propagates (engine := flat_engine) test_options find_fails
           tank_changed (tank "large") no_query_options (SemVer 0 0 0) (SemVer 1 0 0) true).
  reflexivity.
Defined.

(** X19.  Embedded documents are told apart by their [_id] alone: with
    [embeddedDocument] the records are filed under [embeddedModelName],
    so two documents with the same [_id] read the same history whatever
    their models. *)
Theorem embedded_history_by_id (pluginOptions : PluginOptions) (faults : Faults)
    (w : World) (this that : Document) (options : QueryOptions) :
  embeddedDocument pluginOptions = true →
  doc_id this = doc_id that →
  same_entity pluginOptions this that
  ∧ getDiffs pluginOptions faults w this options
    = getDiffs pluginOptions faults w that options.
Proof.
  intros Em Ei. unfold same_entity, getDiffs, getModelName. rewrite Em, Ei. auto.
Qed.

Lemma embedded_history_by_id_witness :
  getDiffs embedded_options no_faults embedded_changed
    {| doc_model := "Other"; doc_id := 3; doc_json := ∅; doc_props := ∅;
       doc_history := None |} no_query_options
  = getDiffs embedded_options no_faults embedded_changed (embedded_tank "large")
      no_query_options.
Proof.
  apply (embedded_history_by_id embedded_options no_faults embedded_changed).
  - reflexivity.
  - reflexivity.
Defined.

(** ** The hash of array items *)

Lemma or_json_truthy (a b : option json) :
  truthy_json b = true → truthy_json (or_json a b) = true.
Proof. intros B. unfold or_json. destruct (truthy_json a) eqn:A; assumption. Qed.

Lemma or_json_left (a b : option json) :
  truthy_json a = true → or_json a b = a.
Proof. intros A. unfold or_json. rewrite A. reflexivity. Qed.

Lemma or_json_right (a b : option json) :
  truthy_json a = false → or_json a b = b.
Proof. intros A. unfold or_json. rewrite A. reflexivity. Qed.

Lemma index_hash_truthy (index : option N) : truthy_json (Some (index_hash index)) = true.
Proof. reflexivity. Qed.

(** X20.  [objectHash] throws for the item [null] and for no other item,
    and the hash it answers is never falsy: the engine always gets a hash
    to match the items by. *)
Theorem objectHash_answers (toString : json → string) (obj : array_item)
    (index : option N) :
  match objectHash toString obj index with
  | Ok hash => truthy_json (Some hash) = true ∧ obj ≠ ItemValue JNull
  | Throw e => e = TypeError ∧ obj = ItemValue JNull
  end.
Proof.
  destruct obj as [|[]|o]; simpl; try (split; [reflexivity|discriminate]);
    try (split; reflexivity).
  split; [|discriminate].
  pose proof (or_json_truthy
                (or_json (or_json (if truthy_json (o !! "_id")
                                   then (λ v, JStr (toString v)) <$> o !! "_id"
                                   else o !! "_id") (o !! "id")) (o !! "key"))
                (Some (index_hash index)) (index_hash_truthy index)) as T.
  destruct (or_json _ (Some (index_hash index))) as [h|]; [exact T|reflexivity].
Qed.

(** X21.  What identifies an item.  An object with a truthy [_id] whose
    string is not empty is hashed by that string, whatever its position
    and its other fields; without it, by a truthy [id], and without that
    by a truthy [key], as they are; an object with none of the three is
    hashed by its position, and then two positions never give the same
    hash. *)
Theorem objectHash_identity (toString : json → string) (o : obj) :
  (∀ v index, o !! "_id" = Some v → truthy_json (Some v) = true → toString v ≠ "" →
     objectHash toString (ItemObject o) index = Ok (JStr (toString v)))
  ∧ (∀ v index, truthy_json (o !! "_id") = false →
       o !! "id" = Some v → truthy_json (Some v) = true →
       objectHash toString (ItemObject o) index = Ok v)
  ∧ (∀ v index, truthy_json (o !! "_id") = false → truthy_json (o !! "id") = false →
       o !! "key" = Some v → truthy_json (Some v) = true →
       objectHash toString (ItemObject o) index = Ok v)
  ∧ (truthy_json (o !! "_id") = false → truthy_json (o !! "id") = false →
     truthy_json (o !! "key") = false →
     (∀ index, objectHash toString (ItemObject o) index = Ok (index_hash index))
     ∧ ∀ i j : N, objectHash toString (ItemObject o) (Some i)
                  = objectHash toString (ItemObject o) (Some j) → i = j).
Proof.
  split_and!.
  - intros v index E T S. simpl. rewrite E, T. simpl.
    assert (T' : truthy_json (Some (JStr (toString v))) = true).
    { simpl. apply negb_true_iff, String.eqb_neq. exact S. }
    rewrite (or_json_left (Some (JStr (toString v))) (o !! "id")) by exact T'.
    rewrite (or_json_left (Some (JStr (toString v))) (o !! "key")) by exact T'.
    rewrite (or_json_left (Some (JStr (toString v)))) by exact T'. reflexivity.
  - intros v index F E T. simpl. rewrite F.
    rewrite (or_json_right (o !! "_id")) by exact F. rewrite E.
    rewrite (or_json_left (Some v) (o !! "key")) by exact T.
    rewrite (or_json_left (Some v)) by exact T. reflexivity.
  - intros v index F1 F2 E T. simpl. rewrite F1.
    rewrite (or_json_right (o !! "_id")) by exact F1.
    rewrite (or_json_right (o !! "id")) by exact F2. rewrite E.
    rewrite (or_json_left (Some v)) by exact T. reflexivity.
  - intros F1 F2 F3.
    assert (H : ∀ index, objectHash toString (ItemObject o) index = Ok (index_hash index)).
    { intros index. simpl. rewrite F1.
      rewrite (or_json_right (o !! "_id")) by exact F1.
      rewrite (or_json_right (o !! "id")) by exact F2.
      rewrite (or_json_right (o !! "key")) by exact F3. reflexivity. }
    split; [exact H|]. intros i j. rewrite !H. unfold index_hash. simpl.
    intros [= E]. by apply (inj pretty).
Qed.

Lemma objectHash_identity_witness :
  objectHash (λ v, match v with JStr s => s | _ => "" end)
    (ItemObject {[ "_id" := JStr "a1"; "id" := JNum 4 ]}) (Some 2%N)
  = Ok (JStr "a1")
  ∧ objectHash (λ v, match v with JStr s => s | _ => "" end)
      (ItemObject {[ "size" := JStr "small" ]}) (Some 2%N)
    = Ok (JStr "$$index:2").
Proof.
  split.
  - apply (proj1 (objectHash_identity (λ v, match v with JStr s => s | _ => "" end)
                    {[ "_id" := JStr "a1"; "id" := JNum 4 ]}) (JStr "a1") (Some 2%N)).
    + reflexivity.
    + reflexivity.
    + discriminate.
  - apply (proj2 (proj2 (proj2 (objectHash_identity
                                  (λ v, match v with JStr s => s | _ => "" end)
                                  {[ "size" := JStr "small" ]})))).
    + reflexivity.
    + reflexivity.
    + reflexivity.
Defined.

(** ** More on the hook *)

(** X22.  A deletion leaves no trace by default.  For a top-level
    document without pending metadata and without [noDiffSave], the hook
    of [deleteOne] on a document that is stored as it is writes no record:
    the document is removed and the history collection is what it was. *)
Theorem deleteOne_unrecorded_by_default {engine : DiffEngine}
    (pluginOptions : PluginOptions) (w : World) (this : Document) :
  embeddedDocument pluginOptions = false → noDiffSave pluginOptions = false →
  doc_history this = None →
  entities w !! (doc_model this, doc_id this) = Some (doc_json this) →
  deleteOne pluginOptions no_faults w this
  = ({| histories := histories w;
        entities := delete (doc_model this, doc_id this) (entities w);
        clock := clock w |}, this, Ok ()).
Proof.
  intros Em Nd Nh Es. unfold deleteOne. rewrite preSave_no_faults. unfold commits.
  rewrite (stored_not_persists pluginOptions w this Em Nd Es
             (saveWithoutDiff_no_history pluginOptions this Nh)).
  rewrite andb_false_r. reflexivity.
Qed.

Lemma deleteOne_unrecorded_by_default_witness :
  histories (deleteOne (engine := flat_engine) test_options no_faults tank_changed
               (tank "large")).1.1
  = histories tank_changed
  ∧ entities (deleteOne (engine := flat_engine) test_options no_faults tank_changed
                (tank "large")).1.1 !! ("tank", 7%N)
    = None.
Proof.
  rewrite (deleteOne_unrecorded_by_default (engine := flat_engine) test_options
             tank_changed (tank "large")).
  - split; reflexivity.
  - reflexivity.
  - reflexivity.
  - reflexivity.
  - reflexivity.
Defined.

Lemma getVersions_histories {engine : DiffEngine} (pluginOptions : PluginOptions)
    (faults : Faults) (w w' : World) (this : Document) (options : QueryOptions)
    (includeObject : bool) :
  histories w = histories w' →
  getVersions pluginOptions faults w this options includeObject
  = getVersions pluginOptions faults w' this options includeObject.
Proof.
  intros E. unfold getVersions, getDiffs, queryHistory. rewrite E. reflexivity.
Qed.

(** X23.  With [embeddedDocument] the hook never reads the tracked
    collection: the previous state is the replay of the records, so the
    hook does the same, record for record, whatever documents are
    stored. *)
Theorem embedded_hook_ignores_collection {engine : DiffEngine}
    (pluginOptions : PluginOptions) (forceSave : bool) (faults : Faults) (w : World)
    (this : Document) (tracked : gmap (string * N) obj) :
  embeddedDocument pluginOptions = true →
  preSave pluginOptions forceSave faults
    {| histories := histories w; entities := tracked; clock := clock w |} this
  = ({| histories := histories (preSave pluginOptions forceSave faults w this).1.1;
        entities := tracked;
        clock := clock (preSave pluginOptions forceSave faults w this).1.1 |},
     (preSave pluginOptions forceSave faults w this).1.2,
     (preSave pluginOptions forceSave faults w this).2).
Proof.
  intros Em. unfold preSave.
  destruct (bool_decide (is_Some (doc_history this)) || noEventSave pluginOptions);
    [|reflexivity].
  unfold getPrevious. rewrite Em.
  rewrite (getVersions_histories pluginOptions faults
             {| histories := histories w; entities := tracked; clock := clock w |} w)
    by reflexivity.
  unfold preSave_then. cbv zeta.
  destruct (_ || _ || _); [|reflexivity].
  unfold find_lastHistory. simpl. destruct (fail_findOne faults); [reflexivity|].
  unfold HistoryModel_save. destruct (fail_save faults); reflexivity.
Qed.

Lemma embedded_hook_ignores_collection_witness :
  histories
    (preSave (engine := flat_engine) embedded_options false no_faults
       {| histories := histories embedded_changed; entities := ∅;
          clock := clock embedded_changed |} (embedded_tank "small")).1.1
  = histories
      (preSave (engine := flat_engine) embedded_options false no_faults embedded_changed
         (embedded_tank "small")).1.1.
Proof.
  rewrite (embedded_hook_ignores_collection (engine := flat_engine) embedded_options false
             no_faults embedded_changed (embedded_tank "small") ∅).
  - reflexivity.
  - reflexivity.
Defined.

Lemma commit_log_states {engine : DiffEngine} (pluginOptions : PluginOptions)
    (docs : list Document) (w : World) (entry : Document * obj) :
  entry ∈ commit_log pluginOptions w docs →
  entry.2 = normalize pluginOptions (doc_json entry.1).
Proof.
  revert w. induction docs as [|this rest IH]; intros w H; simpl in H.
  - by apply elem_of_nil in H.
  - apply elem_of_app in H as [H|H]; [|by eapply IH].
    destruct (decide _); [by apply elem_of_nil in H|].
    apply list_elem_of_singleton in H as ->. reflexivity.
Qed.

(** X24.  The versions never show an untracked field.  When every save
    attempts a commit, after any sequence of saves the objects
    [getVersions] answers have no [__history], no [__v] and none of the
    fields of [ignore]. *)
Theorem versions_hide_untracked_fields {engine : DiffEngine}
    (pluginOptions : PluginOptions) (docs : list Document) (this : Document)
    (versions : list lean) (r : lean) (o : obj) (k : string) :
  distinct_fields pluginOptions →
  noEventSave pluginOptions = true ∨ embeddedDocument pluginOptions = true →
  getVersions pluginOptions no_faults (save_all pluginOptions empty_world docs) this
    no_query_options true = Ok versions →
  r ∈ versions → r !! "object" = Some (VObj o) →
  k ∈ untracked pluginOptions →
  o !! k = None.
Proof.
  intros D M E Hr Eo K.
  pose proof (stamped_in_order_save_all pluginOptions docs empty_world
                (stamped_in_order_empty pluginOptions)) as [Srt _].
  rewrite (getVersions_default _ _ _ Srt), getVersions_loop_replay in E.
  destruct (replay_states ∅ _) as [states|] eqn:Er; simpl in E; [|discriminate].
  injection E as <-.
  pose proof (replay_states_length _ _ _ Er) as L.
  destruct (replay_states_save_all_inv pluginOptions D M docs empty_world this states
              (stamped_in_order_empty pluginOptions)
              (replay_invariant_empty pluginOptions M) Er) as (states0 & [= <-] & ->).
  simpl in *.
  assert (Ho : Some (VObj o)
               ∈ objects_of
                   (zip_with attach_object
                      (entity_records pluginOptions
                         (save_all pluginOptions empty_world docs) this)
                      (states_of pluginOptions this
                         (commit_log pluginOptions empty_world docs)))).
  { unfold objects_of. apply list_elem_of_fmap. exists r. split; [by rewrite Eo|exact Hr]. }
  rewrite (objects_of_attach _ _ L) in Ho.
  apply list_elem_of_fmap in Ho as (o' & [= ->] & Ho).
  unfold states_of in Ho. apply list_elem_of_fmap in Ho as (entry & -> & Ho).
  apply list_elem_of_In, List.filter_In in Ho as [Ho _]. apply list_elem_of_In in Ho.
  rewrite (commit_log_states pluginOptions docs empty_world entry Ho).
  rewrite lookup_normalize. fold (untracked pluginOptions).
  rewrite bool_decide_eq_true_2 by exact K. reflexivity.
Qed.

Lemma versions_hide_untracked_fields_witness :
  ∃ versions,
    getVersions (engine := flat_engine) ignore_options no_faults
      (save_all (engine := flat_engine) ignore_options empty_world
         [touched_tank 1; touched_tank 2]) (touched_tank 2) no_query_options true
    = Ok versions
    ∧ List.length versions = 1%nat
    ∧ ∀ r o, r ∈ versions → r !! "object" = Some (VObj o) → o !! "updatedAt" = None.
Proof.
  eexists. split; [reflexivity|]. split; [reflexivity|].
  intros r o Hr Eo.
  eapply (versions_hide_untracked_fields (engine := flat_engine) ignore_options
            [touched_tank 1; touched_tank 2] (touched_tank 2) _ r o "updatedAt").
  4: exact Hr.
  - apply distinct_fields_check. reflexivity.
  - left. reflexivity.
  - reflexivity.
  - exact Eo.
  - by_evaluation.
Defined.

(** ** More on replays and versions *)

Lemma getVersions_loop_empty_diff {engine : DiffEngine} (histories : list lean)
    (item : lean) (cur : obj) :
  item ∈ histories → item !! "diff" = Some (VObj ∅) →
  getVersions_loop cur histories = Throw TypeError.
Proof.
  intros In Ed. revert cur. induction histories as [|x rest IH]; intros cur.
  - by apply elem_of_nil in In.
  - simpl. destruct (patch_item cur x) as [state|e] eqn:P; simpl.
    + apply elem_of_cons in In as [<-|In].
      * unfold patch_item in P. rewrite Ed, jdf_patch_empty in P. discriminate.
      * rewrite (IH In). reflexivity.
    + f_equal. by eapply patch_item_throws.
Qed.

(** X25.  One record with the diff [{}] makes the history unreadable as
    snapshots: [getVersions] throws for the document, while without the
    objects it still answers the records. *)
Theorem empty_diff_stops_getVersions {engine : DiffEngine} (pluginOptions : PluginOptions)
    (faults : Faults) (w : World) (this : Document) (histories : list lean)
    (item : lean) :
  getDiffs pluginOptions faults w this oldest_first = Ok histories →
  item ∈ histories → item !! "diff" = Some (VObj ∅) →
  getVersions pluginOptions faults w this no_query_options true = Throw TypeError
  ∧ getVersions pluginOptions faults w this no_query_options false = Ok histories.
Proof.
  intros Eq In Ed. unfold getVersions.
  change (getDiffs pluginOptions faults w this _)
    with (getDiffs pluginOptions faults w this oldest_first).
  rewrite Eq. simpl. split; [|reflexivity].
  by eapply getVersions_loop_empty_diff.
Qed.

Lemma empty_diff_stops_getVersions_witness :
  getVersions (engine := flat_engine) noDiffSave_options no_faults
    (save_all (engine := flat_engine) noDiffSave_options empty_world
       [tank "small"; tank "small"])
    (tank "small") no_query_options true
  = Throw TypeError.
Proof.
  refine (proj1 (empty_diff_stops_getVersions (engine := flat_engine) noDiffSave_options
                   no_faults
                   (save_all (engine := flat_engine) noDiffSave_options empty_world
                      [tank "small"; tank "small"])
                   (tank "small")
                   (histories
                      (save_all (engine := flat_engine) noDiffSave_options empty_world
                         [tank "small"; tank "small"]))
                   (default ∅
                      (last
                         (histories
                            (save_all (engine := flat_engine) noDiffSave_options
                               empty_world [tank "small"; tank "small"]))))
                   _ _ _)).
  - reflexivity.
  - apply last_elem. reflexivity.
  - reflexivity.
Defined.

(** X26.  A last record whose version is no valid version restarts the
    numbering: the record written after it has version 0.0.0.  The
    increment of a version whose number is the greatest safe integer is
    such a string, so the versions after 9007199254740991.0.0 are
    ['9007199254740992.0.0'] and then 0.0.0 again. *)
Theorem invalid_version_restarts_numbering {engine : DiffEngine}
    (pluginOptions : PluginOptions) :
  distinct_fields pluginOptions →
  (∀ forceSave faults w w' this this' next r prior,
     preSave pluginOptions forceSave faults w this = (w', this', next) →
     histories w' = histories w ++ [r] →
     head (sort_descending (timestampFieldName pluginOptions)
             (entity_records pluginOptions w this)) = Some prior →
     (∀ v, prior !! "version" ≠ Some (VVersion v)) →
     r !! "version" = Some (VVersion (SemVer 0 0 0)))
  ∧ version_value (semver_inc (SemVer max_safe_integer 0 0) Major)
    = VStr "9007199254740992.0.0".
Proof.
  intros D. split; [|reflexivity].
  intros forceSave faults w w' this this' next r prior E Eh Ep Nv.
  destruct (preSave_appended _ _ _ _ _ _ _ _ _ E Eh) as (currentDiff & ->).
  pose proof (history_of_recent_version pluginOptions D false w this None) as V.
  unfold history_of in V. pose proof D as D'. fields_ne D'.
  rewrite new_HistoryModel_lookup in V |- * by congruence.
  rewrite history_object_version in V |- *.
  rewrite V, Ep. simpl. unfold js_get, semver_inc_js.
  destruct (prior !! "version") as [[| | | | | | |v|]|]; try reflexivity.
  by destruct (Nv v).
Qed.

Lemma invalid_version_restarts_numbering_witness :
  default ∅
    (last
       (histories
          (save_all (engine := flat_engine) test_options tank_at_limit
             [tank "large"; tank "small"]))) !! "version"
  = Some (VVersion (SemVer 0 0 0))
  ∧ (λ item : lean, item !! "version")
      <$> histories
            (save_all (engine := flat_engine) test_options tank_at_limit
               [tank "large"; tank "small"])
    = [ Some (VVersion (SemVer max_safe_integer 0 0));
        Some (VStr "9007199254740992.0.0");
        Some (VVersion (SemVer 0 0 0)) ].
Proof.
  assert (D : distinct_fields test_options) by (apply distinct_fields_check; reflexivity).
  destruct (invalid_version_restarts_numbering (engine := flat_engine) test_options D)
    as [T _].
  split; [|reflexivity].
  apply (T false no_faults
           (tick (save (engine := flat_engine) test_options no_faults tank_at_limit
                    (tank "large")).1.1)
           (preSave (engine := flat_engine) test_options false no_faults
              (tick (save (engine := flat_engine) test_options no_faults
                       tank_at_limit (tank "large")).1.1)
              (tank "small")).1.1
           (tank "small")
           (preSave (engine := flat_engine) test_options false no_faults
              (tick (save (engine := flat_engine) test_options no_faults
                       tank_at_limit (tank "large")).1.1)
              (tank "small")).1.2
           (preSave (engine := flat_engine) test_options false no_faults
              (tick (save (engine := flat_engine) test_options no_faults
                       tank_at_limit (tank "large")).1.1)
              (tank "small")).2
           _
           (default ∅
              (last
                 (histories
                    (save (engine := flat_engine) test_options no_faults
                       tank_at_limit (tank "large")).1.1)))).
  - reflexivity.
  - reflexivity.
  - reflexivity.
  - intros v.
    assert (E : default ∅
                  (last
                     (histories
                        (save (engine := flat_engine) test_options no_faults
                           tank_at_limit (tank "large")).1.1)) !! "version"
                = Some (VStr "9007199254740992.0.0")) by reflexivity.
    rewrite E. discriminate.
Defined.
